(** * ShareTray: donation lifecycle, greedy matching and pickup planning

    A shallow embedding of [state_machine.py], [models_repo.py], the
    matching / routing / pickup-planning functions of [api_app.py],
    [user_roles_criteria.py] and the counting loop of [audit.py], and the
    properties of the specification checked against them.

    Conventions of the embedding.
    - A Python [dict] keeps insertion order, and the matching engine depends
      on it (iteration order of donations and recipients, first candidate
      wins on ties), so a dict is an association list with unique keys
      ([Dict]).
    - The repositories store object references.  The model stores the
      object's value under its key; an in-place attribute assignment on an
      object fetched under key [k] is written as an update of the entry at
      [k].  Both views agree as long as an object is stored under its own id
      only ([repo_wf]), which is what [add_donation], [add_recipient] and
      [add_user] establish and every operation below preserves.
    - Exceptions are results [Raise e] that keep the state reached when the
      exception was raised: nothing in the source rolls a mutation back.
    - A [str] is the Rocq string of its UTF-8 bytes; a lone surrogate, which
      has no UTF-8 encoding, is written as the three bytes the
      [surrogatepass] handler gives it.
    - Fields that pydantic validates when a model is built and that no
      modelled operation assigns afterwards have their declared type
      (ids, roles of [models_repo.User], weights, capacities, states).
      What the source stores unvalidated is modelled as it is stored: the
      role of a state-machine user is any string, a [location] is any dict
      of JSON-like values, a criterion is any dict of JSON values.
    - Identifiers drawn from [uuid4] and timestamps drawn from [utcnow] are
      inputs or are left out where no operation reads them. *)

From Equations Require Import Equations.
From Equations.Prop Require Import Logic.
From Stdlib Require Import String Ascii List Bool ZArith Lia Permutation.
From Stdlib Require PrimFloat SpecFloat FloatOps FloatAxioms.
Import ListNotations.
Open Scope string_scope.
Open Scope list_scope.

(** ** Insertion-ordered dictionaries with string keys *)

Module Dict.

Definition t (V : Type) : Type := list (string * V).

Definition empty {V : Type} : t V := [].

(** [m.get(k)] *)
Fixpoint get {V : Type} (m : t V) (k : string) : option V :=
  match m with
  | [] => None
  | (k', v) :: m' => if String.eqb k k' then Some v else get m' k
  end.

(** [k in m] *)
Definition mem {V : Type} (m : t V) (k : string) : bool :=
  match get m k with Some _ => true | None => false end.

(** [m[k] = v]: an existing key keeps its position, a new key goes last. *)
Fixpoint set {V : Type} (m : t V) (k : string) (v : V) : t V :=
  match m with
  | [] => [(k, v)]
  | (k', v') :: m' =>
      if String.eqb k k' then (k', v) :: m' else (k', v') :: set m' k v
  end.

(** [m.keys()] and [m.values()], in insertion order. *)
Definition keys {V : Type} (m : t V) : list string := map fst m.
Definition values {V : Type} (m : t V) : list V := map snd m.

End Dict.

(** The truth value of an optional dict: [None] and [{}] are false.  A
    true one is handed back as the dict it is. *)
Definition truthy_dict {V : Type} (o : option (Dict.t V)) : option (Dict.t V) :=
  match o with
  | Some (kv :: m) => Some (kv :: m)
  | _ => None
  end.

(** ** Enumerations shared by the modules *)

Inductive Role : Type := DONOR | RECIPIENT | VOLUNTEER | ADMIN.

(** [Role(value)]: the member with that value, if there is one. *)
Definition Role_of_value (value : string) : option Role :=
  if String.eqb value "donor" then Some DONOR
  else if String.eqb value "recipient" then Some RECIPIENT
  else if String.eqb value "volunteer" then Some VOLUNTEER
  else if String.eqb value "admin" then Some ADMIN
  else None.

Inductive DonationState : Type :=
| POSTED | MATCHED | PICKUP_SCHEDULED | IN_TRANSIT
| DELIVERED | CANCELLED | EXPIRED.

Definition DonationState_eqb (a b : DonationState) : bool :=
  match a, b with
  | POSTED, POSTED | MATCHED, MATCHED
  | PICKUP_SCHEDULED, PICKUP_SCHEDULED | IN_TRANSIT, IN_TRANSIT
  | DELIVERED, DELIVERED | CANCELLED, CANCELLED | EXPIRED, EXPIRED => true
  | _, _ => false
  end.

(** ** Exceptions and the state-and-exception monad *)

(** The exceptions the modelled code raises.  A [ValueError] built from an
    f-string is represented by the values interpolated in its message. *)
Inductive exn : Type :=
| ValueError_DonationNotFound
    (* state_machine.py:93  ValueError("Donation not found") *)
| ValueError_InvalidTransition (old_state new_state : DonationState)
    (* state_machine.py:108 ValueError(f"Invalid transition from {old_state} to {new_state}") *)
| ValidationError_actor_role (value : string)
    (* pydantic's ValidationError, a ValueError: AuditLogEntry(actor_role=value)
       for a value that is no member of Role *)
| KeyError_DonationNotFound
    (* update_donation: KeyError("Donation not found") *)
| KeyError_RecipientNotFound
    (* update_recipient: KeyError("Recipient not found") *)
| ValueError_VolunteerMissing
    (* api_app.py:146 ValueError("Volunteer missing or has no location") *)
| ValueError_DonationMissing (did : string)
    (* api_app.py:152 ValueError(f"Donation {did} missing or has no location") *)
| AttributeError_NoneType
    (* attribute access on None *)
| IndexError_ListIndex
    (* [l[i]] past the end of a list *)
| IndexError_StringIndex
    (* [s[i]] past the end of a str *)
| ValueError_NotInList
    (* [list.remove(x)]: x not in list *)
| KeyError_Key (key : string)
    (* [m[key]] on a dict without that key *)
| KeyError_Index (i : nat)
    (* [m[i]] on a dict, whose keys are strings *)
| TypeError_NotSubscriptable
    (* [x[i]] on a number or on None *)
| TypeError_NotANumber
    (* [math.radians(x)] or [x - y] on a value that is not a number *)
| ValueError_MathDomain
    (* [math.sin], [math.cos] or [math.sqrt]: ValueError("math domain error") *)
| OverflowError_IntTooLarge
    (* [math.radians]: OverflowError("int too large to convert to float") *)
| TypeError_Arguments
    (* a call with an unexpected or a missing keyword argument *)
| UnicodeEncodeError
    (* writing a str that has no UTF-8 encoding to a file opened as utf-8 *)
| JSONDecodeError
    (* [json.load] of a text that is not a JSON document *).

Inductive result (A : Type) : Type :=
| Ok (a : A)
| Raise (e : exn).
Arguments Ok {A} a.
Arguments Raise {A} e.

(** Sequencing of computations that return or raise. *)
Definition rbind {A B : Type} (x : result A) (k : A -> result B) : result B :=
  match x with
  | Ok a => k a
  | Raise e => Raise e
  end.

(** A computation on a state [S]: it returns normally or raises, and in both
    cases leaves a state behind. *)
Definition M (S A : Type) : Type := S -> result A * S.

Definition ret {S A : Type} (a : A) : M S A := fun s => (Ok a, s).

Definition raise {S A : Type} (e : exn) : M S A := fun s => (Raise e, s).

Definition bind {S A B : Type} (c : M S A) (k : A -> M S B) : M S B :=
  fun s =>
    match c s with
    | (Ok a, s') => k a s'
    | (Raise e, s') => (Raise e, s')
    end.

Definition gets {S A : Type} (f : S -> A) : M S A := fun s => (Ok (f s), s).

Definition modify {S : Type} (f : S -> S) : M S unit := fun s => (Ok tt, f s).

(** An expression that returns or raises without touching the state. *)
Definition lift {S A : Type} (x : result A) : M S A := fun s => (x, s).

Declare Scope py_scope.
Delimit Scope py_scope with py.
Notation "x <- c1 ;; c2" := (bind c1 (fun x => c2))
  (at level 100, c1 at next level, right associativity) : py_scope.
Notation "c1 ;;; c2" := (bind c1 (fun _ => c2))
  (at level 100, right associativity) : py_scope.

Declare Scope res_scope.
Delimit Scope res_scope with res.
Notation "x <- c1 ;; c2" := (rbind c1 (fun x => c2))
  (at level 100, c1 at next level, right associativity) : res_scope.

(** [for x in xs: body(x)], stopping at the first exception. *)
Fixpoint for_each {S A : Type} (xs : list A) (body : A -> M S unit) : M S unit :=
  match xs with
  | [] => ret tt
  | x :: xs' => bind (body x) (fun _ => for_each xs' body)
  end.

(** Truth value of an [Optional[str]]: [None] and the empty string are false. *)
Definition truthy_str (o : option string) : bool :=
  match o with
  | None => false
  | Some EmptyString => false
  | Some _ => true
  end.

(** [a or b] on an [Optional[str]] with a string default. *)
Definition str_or (a : option string) (b : string) : string :=
  match a with
  | Some (String c s) => String c s
  | _ => b
  end.

(** ** state_machine.py *)

Module state_machine.

Record Donation : Type := mkDonation {
  id : string;
  donor_id : option string;
  state : DonationState;
  matched_recipient_id : option string;
  pickup_id : option string
}.

(** [d.state = s] *)
Definition set_state (d : Donation) (s : DonationState) : Donation :=
  mkDonation (id d) (donor_id d) s (matched_recipient_id d) (pickup_id d).

(** The entry's own [id] (a fresh uuid4) and [timestamp] (utcnow) are not
    read by any operation and are left out. *)
Record AuditLogEntry : Type := mkAuditLogEntry {
  donation_id : string;
  actor_user_id : option string;
  actor_role : option Role;
  old_state : option DonationState;
  new_state : DonationState;
  notes : option string
}.

(** [AuditLogEntry(donation_id=..., actor_user_id=..., actor_role=...,
    old_state=..., new_state=..., notes=...)] with the arguments
    [transition_state] passes.  [actor_role] is what the user store holds, a
    string or [None]; the field is an [Optional[Role]], so pydantic turns
    the value of a member into the member and rejects every other string. *)
Definition new_AuditLogEntry (donation_id : string) (actor_user_id actor_role : option string)
  (old_state : option DonationState) (new_state : DonationState) (notes : option string)
  : result AuditLogEntry :=
  match actor_role with
  | None => Ok (mkAuditLogEntry donation_id actor_user_id None old_state new_state notes)
  | Some value =>
      match Role_of_value value with
      | Some ro =>
          Ok (mkAuditLogEntry donation_id actor_user_id (Some ro) old_state new_state notes)
      | None => Raise (ValidationError_actor_role value)
      end
  end.

(** [users] is the "minimal user store for actor roles": [add_user] stores
    [{"id": user_id, "role": role}] for any two strings. *)
Record UserRec : Type := mkUserRec {
  user_id : string;
  role : string
}.

Record InMemoryRepo : Type := mkRepo {
  donations : Dict.t Donation;
  users : Dict.t UserRec;
  audit_logs : Dict.t (list AuditLogEntry)
}.

(** [InMemoryRepo()] *)
Definition new_repo : InMemoryRepo := mkRepo Dict.empty Dict.empty Dict.empty.

Definition with_donations (r : InMemoryRepo) (ds : Dict.t Donation) : InMemoryRepo :=
  mkRepo ds (users r) (audit_logs r).

Definition with_audit_logs (r : InMemoryRepo) (ls : Dict.t (list AuditLogEntry)) : InMemoryRepo :=
  mkRepo (donations r) (users r) ls.

Definition add_donation (d : Donation) : M InMemoryRepo Donation :=
  fun r => (Ok d, with_donations r (Dict.set (donations r) (id d) d)).

Definition get_donation (r : InMemoryRepo) (donation_id : string) : option Donation :=
  Dict.get (donations r) donation_id.

Definition update_donation (d : Donation) : M InMemoryRepo Donation :=
  fun r =>
    if negb (Dict.mem (donations r) (id d)) then (Raise KeyError_DonationNotFound, r)
    else (Ok d, with_donations r (Dict.set (donations r) (id d) d)).

Definition add_user (uid : string) (ro : string) : M InMemoryRepo unit :=
  fun r => (Ok tt, mkRepo (donations r) (Dict.set (users r) uid (mkUserRec uid ro)) (audit_logs r)).

Definition get_user (r : InMemoryRepo) (uid : string) : option UserRec :=
  Dict.get (users r) uid.

(** [self.audit_logs.setdefault(entry.donation_id, []).append(entry)] *)
Definition add_audit_log (entry : AuditLogEntry) : M InMemoryRepo AuditLogEntry :=
  fun r =>
    let k := donation_id entry in
    let old := match Dict.get (audit_logs r) k with Some l => l | None => [] end in
    (Ok entry, with_audit_logs r (Dict.set (audit_logs r) k (old ++ [entry]))).

(** [self.audit_logs.get(donation_id, [])] *)
Definition get_audit_logs_for_donation (r : InMemoryRepo) (did : string) : list AuditLogEntry :=
  match Dict.get (audit_logs r) did with Some l => l | None => [] end.

(** [ALLOWED_TRANSITIONS] *)
Definition ALLOWED_TRANSITIONS (s : DonationState) : list DonationState :=
  match s with
  | POSTED => [MATCHED; CANCELLED; EXPIRED]
  | MATCHED => [PICKUP_SCHEDULED; CANCELLED; EXPIRED]
  | PICKUP_SCHEDULED => [IN_TRANSIT; CANCELLED]
  | IN_TRANSIT => [DELIVERED; CANCELLED]
  | DELIVERED => []
  | CANCELLED => []
  | EXPIRED => []
  end.

(** [s in allowed] *)
Definition state_in (s : DonationState) (allowed : list DonationState) : bool :=
  existsb (DonationState_eqb s) allowed.

(** [repo.get_user(a)["role"] if a and repo.get_user(a) else None]: the
    string the user store holds. *)
Definition resolve_role (r : InMemoryRepo) (actor : option string) : option string :=
  match actor with
  | Some a =>
      if truthy_str actor then
        match get_user r a with Some u => Some (role u) | None => None end
      else None
  | None => None
  end.

(** In-place assignment to an attribute of the object stored under [key]. *)
Definition assign_in_place (key : string) (d : Donation) : M InMemoryRepo unit :=
  modify (fun r => with_donations r (Dict.set (donations r) key d)).

Definition transition_state (donation_id : string) (new_state : DonationState)
  (actor_user_id : option string) (notes : option string) : M InMemoryRepo Donation :=
  (od <- gets (fun r => get_donation r donation_id) ;;
   match od with
   | None => raise ValueError_DonationNotFound
   | Some d =>
       let old_state := state d in
       if DonationState_eqb new_state old_state then
         ro <- gets (fun r => resolve_role r actor_user_id) ;;
         entry <- lift (new_AuditLogEntry (id d) actor_user_id ro (Some old_state) new_state
                          (Some (str_or notes "idempotent transition"))) ;;
         add_audit_log entry ;;;
         ret d
       else
         let allowed := ALLOWED_TRANSITIONS old_state in
         if negb (state_in new_state allowed) then
           raise (ValueError_InvalidTransition old_state new_state)
         else
           let d := set_state d new_state in
           assign_in_place donation_id d ;;;
           update_donation d ;;;
           ro <- gets (fun r => resolve_role r actor_user_id) ;;
           entry <- lift (new_AuditLogEntry (id d) actor_user_id ro (Some old_state) new_state
                            notes) ;;
           add_audit_log entry ;;;
           ret d
   end)%py.

End state_machine.

(** ** Numbers

    Weights, capacities and distances are Python floats; coordinates are
    the numbers a location holds.  Their comparisons and subtraction are
    parameters of the model, and so is the formula of [haversine_distance]
    (api_app.py:98-104), which is built from [math.radians], [math.sin],
    [math.cos], [math.atan2] and [math.sqrt]: on four numbers it returns a
    distance or raises one of the two errors of [math_error].  A theorem
    that relies on a fact about these operations states it as a
    hypothesis. *)

Inductive math_error : Type :=
| math_domain_error
    (* ValueError("math domain error"): [math.sin] or [math.cos] of an
       infinity, [math.sqrt] of a negative number *)
| int_too_large
    (* OverflowError("int too large to convert to float"): [math.radians]
       of an int beyond the range of the floats *).

Class FloatOps (F : Type) : Type := {
  f_le : F -> F -> bool;      (* x <= y *)
  f_lt : F -> F -> bool;      (* x < y *)
  f_eqb : F -> F -> bool;     (* x == y *)
  f_sub : F -> F -> F;        (* x - y *)
  f_zero : F;                 (* 0.0 *)
  (* haversine_distance(lat1, lon1, lat2, lon2) on numbers, in kilometres *)
  haversine : F -> F -> F -> F -> F + math_error
}.

(** ** JSON-like values

    What a [location] dict may hold: [None], a number ([int], [float] and
    [bool] alike), a str (the list of its characters), a list or a dict
    with string keys. *)

#[local] Set Warnings "-register-all".

Inductive pyval (F : Type) : Type :=
| PyNone
| PyNum (x : F)
| PyStr (chars : list string)
| PyList (items : list (pyval F))
| PyDict (entries : list (string * pyval F)).
Arguments PyNone {F}.
Arguments PyNum {F} x.
Arguments PyStr {F} chars.
Arguments PyList {F} items.
Arguments PyDict {F} entries.

(** [m[key]] on a dict *)
Definition getitem {F : Type} (m : Dict.t (pyval F)) (key : string) : result (pyval F) :=
  match Dict.get m key with
  | Some v => Ok v
  | None => Raise (KeyError_Key key)
  end.

(** [v[i]] on a value, for an index [i >= 0] *)
Definition getitem_index {F : Type} (v : pyval F) (i : nat) : result (pyval F) :=
  match v with
  | PyList items =>
      match nth_error items i with
      | Some x => Ok x
      | None => Raise IndexError_ListIndex
      end
  | PyStr chars =>
      match nth_error chars i with
      | Some c => Ok (PyStr [c])
      | None => Raise IndexError_StringIndex
      end
  | PyDict _ => Raise (KeyError_Index i)
  | PyNum _ | PyNone => Raise TypeError_NotSubscriptable
  end.

(** [x.location["coordinates"][i]] *)
Definition coordinate {F : Type} (location : Dict.t (pyval F)) (i : nat) : result (pyval F) :=
  (c <- getitem location "coordinates" ;; getitem_index c i)%res.

(** The GeoJSON point [{"type": "Point", "coordinates": [lon, lat]}]. *)
Definition Point {F : Type} (lon lat : F) : Dict.t (pyval F) :=
  [("type", PyStr ["P"; "o"; "i"; "n"; "t"]); ("coordinates", PyList [PyNum lon; PyNum lat])].

(** ** models_repo.py *)

Module models_repo.

(** [location] is declared [Optional[Dict[str, float]]] on [User] and
    [Recipient] and [Optional[Dict[str, Any]]] on [Donation], with the
    comment [GeoJSON: {"type":"Point","coordinates":[lon,lat]}]; pydantic
    does not validate an assignment to it.  It is any dict of JSON-like
    values, or [None]. *)
Definition Location (F : Type) : Type := Dict.t (pyval F).

Module User.
Record t {F : Type} : Type := mk {
  id : string;
  name : string;
  role : Role;
  phone : option string;
  location : option (Location F)
}.
Arguments t : clear implicits.
End User.

(** [items], [posted_at], [pickup_by] and [metadata] are not read by the
    operations modelled here and are left out. *)
Module Donation.
Record t {F : Type} : Type := mk {
  id : string;
  donor_id : string;
  total_weight_kg : F;
  location : option (Location F);
  state : DonationState;
  matched_recipient_id : option string;
  pickup_id : option string
}.
Arguments t : clear implicits.

(** [d.matched_recipient_id = rid] *)
Definition set_matched_recipient_id {F : Type} (d : t F) (rid : option string) : t F :=
  mk F (id d) (donor_id d) (total_weight_kg d) (location d) (state d) rid (pickup_id d).

(** [d.pickup_id = pid] *)
Definition set_pickup_id {F : Type} (d : t F) (pid : option string) : t F :=
  mk F (id d) (donor_id d) (total_weight_kg d) (location d) (state d)
     (matched_recipient_id d) pid.

(** [d.state = s] *)
Definition set_state {F : Type} (d : t F) (s : DonationState) : t F :=
  mk F (id d) (donor_id d) (total_weight_kg d) (location d) s
     (matched_recipient_id d) (pickup_id d).
End Donation.

Module Recipient.
Record t {F : Type} : Type := mk {
  id : string;
  name : string;
  capacity_kg : F;
  location : option (Location F);
  contact : option string
}.
Arguments t : clear implicits.

(** [r.capacity_kg = c] *)
Definition set_capacity_kg {F : Type} (r : t F) (c : F) : t F :=
  mk F (id r) (name r) c (location r) (contact r).
End Recipient.

(** [route_order] holds [(lat, lon)] tuples; [scheduled_for] and [metadata]
    are left out. *)
Module Pickup.
Record t {F : Type} : Type := mk {
  id : string;
  volunteer_id : option string;
  donation_ids : list string;
  route_order : list (F * F);
  status : string
}.
Arguments t : clear implicits.
End Pickup.

Module AuditLogEntry.
Record t : Type := mk {
  donation_id : string;
  actor_user_id : option string;
  actor_role : option Role;
  old_state : option DonationState;
  new_state : DonationState;
  notes : option string
}.
End AuditLogEntry.

(** The [transactions] dict is never touched by the operations modelled
    here and is left out. *)
Record InMemoryRepo {F : Type} : Type := mkRepo {
  users : Dict.t (User.t F);
  donations : Dict.t (Donation.t F);
  recipients : Dict.t (Recipient.t F);
  pickups : Dict.t (Pickup.t F);
  audit_logs : Dict.t (list AuditLogEntry.t)
}.
Arguments InMemoryRepo : clear implicits.
Arguments mkRepo {F}.

Section Repo.
Context {F : Type}.

Definition new_repo : InMemoryRepo F :=
  mkRepo Dict.empty Dict.empty Dict.empty Dict.empty Dict.empty.

Definition with_users (r : InMemoryRepo F) (x : Dict.t (User.t F)) : InMemoryRepo F :=
  mkRepo x (donations r) (recipients r) (pickups r) (audit_logs r).
Definition with_donations (r : InMemoryRepo F) (x : Dict.t (Donation.t F)) : InMemoryRepo F :=
  mkRepo (users r) x (recipients r) (pickups r) (audit_logs r).
Definition with_recipients (r : InMemoryRepo F) (x : Dict.t (Recipient.t F)) : InMemoryRepo F :=
  mkRepo (users r) (donations r) x (pickups r) (audit_logs r).
Definition with_pickups (r : InMemoryRepo F) (x : Dict.t (Pickup.t F)) : InMemoryRepo F :=
  mkRepo (users r) (donations r) (recipients r) x (audit_logs r).
Definition with_audit_logs (r : InMemoryRepo F) (x : Dict.t (list AuditLogEntry.t)) : InMemoryRepo F :=
  mkRepo (users r) (donations r) (recipients r) (pickups r) x.

(* Users *)
Definition add_user (u : User.t F) : M (InMemoryRepo F) (User.t F) :=
  fun r => (Ok u, with_users r (Dict.set (users r) (User.id u) u)).

Definition get_user (r : InMemoryRepo F) (user_id : string) : option (User.t F) :=
  Dict.get (users r) user_id.

(* Donations *)
Definition add_donation (d : Donation.t F) : M (InMemoryRepo F) (Donation.t F) :=
  fun r => (Ok d, with_donations r (Dict.set (donations r) (Donation.id d) d)).

Definition get_donation (r : InMemoryRepo F) (donation_id : string) : option (Donation.t F) :=
  Dict.get (donations r) donation_id.

Definition update_donation (d : Donation.t F) : M (InMemoryRepo F) (Donation.t F) :=
  fun r =>
    if negb (Dict.mem (donations r) (Donation.id d)) then (Raise KeyError_DonationNotFound, r)
    else (Ok d, with_donations r (Dict.set (donations r) (Donation.id d) d)).

(** [[d for d in self.donations.values() if d.state == DonationState.POSTED]],
    each object with the key it is stored under. *)
Definition list_open_donations (r : InMemoryRepo F) : list (string * Donation.t F) :=
  filter (fun kd => DonationState_eqb (Donation.state (snd kd)) POSTED) (donations r).

(* Recipients *)
Definition add_recipient (x : Recipient.t F) : M (InMemoryRepo F) (Recipient.t F) :=
  fun r => (Ok x, with_recipients r (Dict.set (recipients r) (Recipient.id x) x)).

(** [list(self.recipients.values())], each object with the key it is stored
    under. *)
Definition list_recipients (r : InMemoryRepo F) : list (string * Recipient.t F) :=
  recipients r.

Definition update_recipient (x : Recipient.t F) : M (InMemoryRepo F) (Recipient.t F) :=
  fun r =>
    if negb (Dict.mem (recipients r) (Recipient.id x)) then (Raise KeyError_RecipientNotFound, r)
    else (Ok x, with_recipients r (Dict.set (recipients r) (Recipient.id x) x)).

Definition get_recipient (r : InMemoryRepo F) (recipient_id : string) : option (Recipient.t F) :=
  Dict.get (recipients r) recipient_id.

(* Pickups *)
Definition add_pickup (p : Pickup.t F) : M (InMemoryRepo F) (Pickup.t F) :=
  fun r => (Ok p, with_pickups r (Dict.set (pickups r) (Pickup.id p) p)).

(* Audit logs *)
Definition add_audit_log (log : AuditLogEntry.t) : M (InMemoryRepo F) AuditLogEntry.t :=
  fun r =>
    let k := AuditLogEntry.donation_id log in
    let old := match Dict.get (audit_logs r) k with Some l => l | None => [] end in
    (Ok log, with_audit_logs r (Dict.set (audit_logs r) k (old ++ [log]))).

Definition get_audit_logs_for_donation (r : InMemoryRepo F) (did : string) : list AuditLogEntry.t :=
  match Dict.get (audit_logs r) did with Some l => l | None => [] end.

End Repo.

End models_repo.

(** ** api_app.py: matching, route planning, pickup planning *)

Module api_app.

Import models_repo.

(** The module-level state the functions of api_app run against.
    [repo] is the object bound by [from models_repo import repo];
    [state_machine_repo] is [state_machine.repo], the repository that the
    imported [transition_state] closes over.  They are two separate
    [InMemoryRepo()] instances of two separate classes. *)
Record Globals {F : Type} : Type := mkGlobals {
  repo : models_repo.InMemoryRepo F;
  state_machine_repo : state_machine.InMemoryRepo
}.
Arguments Globals : clear implicits.
Arguments mkGlobals {F}.

Section App.
Context {F : Type} `{FloatOps F}.

(** Run a repository method on [repo], resp. on [state_machine.repo]. *)
Definition on_repo {A : Type} (c : M (InMemoryRepo F) A) : M (Globals F) A :=
  fun g =>
    let (res, r') := c (repo g) in (res, mkGlobals r' (state_machine_repo g)).

Definition on_state_machine {A : Type} (c : M state_machine.InMemoryRepo A) : M (Globals F) A :=
  fun g =>
    let (res, s') := c (state_machine_repo g) in (res, mkGlobals (repo g) s').

(** Line 61, [from state_machine import transition_state]: the import
    succeeds, so this is the function the rest of the module calls. *)
Definition transition_state (donation_id : string) (new_state : DonationState)
  (actor_user_id : option string) (notes : option string)
  : M (Globals F) state_machine.Donation :=
  on_state_machine (state_machine.transition_state donation_id new_state actor_user_id notes).

(** Lines 63-85: the definition api_app would use if the import of
    [state_machine] failed.  It works on api_app's own [repo]. *)
Definition ALLOWED (s : DonationState) : list DonationState :=
  match s with
  | POSTED => [MATCHED; CANCELLED; EXPIRED]
  | MATCHED => [PICKUP_SCHEDULED; CANCELLED; EXPIRED]
  | PICKUP_SCHEDULED => [IN_TRANSIT; CANCELLED]
  | IN_TRANSIT => [DELIVERED; CANCELLED]
  | DELIVERED => []
  | CANCELLED => []
  | EXPIRED => []
  end.

Definition resolve_role (r : InMemoryRepo F) (actor : option string) : option Role :=
  match actor with
  | Some a =>
      if truthy_str actor then
        match get_user r a with Some u => Some (User.role u) | None => None end
      else None
  | None => None
  end.

(** In-place assignment to an attribute of the donation, resp. recipient,
    object stored under [key]. *)
Definition assign_donation (key : string) (d : Donation.t F) : M (InMemoryRepo F) unit :=
  modify (fun r => with_donations r (Dict.set (donations r) key d)).

Definition assign_recipient (key : string) (x : Recipient.t F) : M (InMemoryRepo F) unit :=
  modify (fun r => with_recipients r (Dict.set (recipients r) key x)).

Definition fallback_transition_state (donation_id : string) (new_state : DonationState)
  (actor_user_id : option string) (notes : option string)
  : M (Globals F) (Donation.t F) :=
  on_repo
    (od <- gets (fun r => get_donation r donation_id) ;;
     match od with
     | None => raise ValueError_DonationNotFound
     | Some d =>
         let old := Donation.state d in
         if DonationState_eqb new_state old then
           ro <- gets (fun r => resolve_role r actor_user_id) ;;
           add_audit_log
             (AuditLogEntry.mk (Donation.id d) actor_user_id ro (Some old) new_state notes) ;;;
           ret d
         else if negb (state_machine.state_in new_state (ALLOWED old)) then
           raise (ValueError_InvalidTransition old new_state)
         else
           let d := Donation.set_state d new_state in
           assign_donation donation_id d ;;;
           update_donation d ;;;
           ro <- gets (fun r => resolve_role r actor_user_id) ;;
           add_audit_log
             (AuditLogEntry.mk (Donation.id d) actor_user_id ro (Some old) new_state notes) ;;;
           ret d
     end)%py.

(** Lines 98-104 on the values the callers pass.  [math.radians] and [-]
    raise [TypeError] on a value that is not a number, before any of the
    trigonometry is reached; on four numbers the result is that of the
    formula. *)
Definition haversine_distance (lat1 lon1 lat2 lon2 : pyval F) : result F :=
  match lat1, lon1, lat2, lon2 with
  | PyNum a, PyNum b, PyNum c, PyNum d =>
      match haversine a b c d with
      | inl dist => Ok dist
      | inr math_domain_error => Raise ValueError_MathDomain
      | inr int_too_large => Raise OverflowError_IntTooLarge
      end
  | _, _, _, _ => Raise TypeError_NotANumber
  end.

(** [l.sort(key=lambda x: x[0])]: a stable sort that compares keys with
    [<].  On keys that [<] orders as a strict weak order, as it does all
    floats but NaN, every stable sort gives this result; the properties
    proved for arbitrary keys use only that the result is a permutation of
    the list. *)
Fixpoint insert_by_key {A : Type} (x : F * A) (l : list (F * A)) : list (F * A) :=
  match l with
  | [] => [x]
  | y :: l' => if f_lt (fst y) (fst x) then y :: insert_by_key x l' else x :: y :: l'
  end.

Definition sort_by_key {A : Type} (l : list (F * A)) : list (F * A) :=
  fold_right insert_by_key [] l.

(** Lines 126-130, the body of the loop over the recipients: the distance
    under which [r] is appended to the candidates, [None] when it is not
    appended. *)
Definition candidate_of (need : F) (d_lat d_lon : pyval F) (max_search_km : F)
  (r : Recipient.t F) : result (option F) :=
  if f_le need (Recipient.capacity_kg r) then
    match truthy_dict (Recipient.location r) with
    | None => Ok None
    | Some location =>
        (r_lat <- coordinate location 1 ;;
         r_lon <- coordinate location 0 ;;
         dist <- haversine_distance d_lat d_lon r_lat r_lon ;;
         Ok (if f_le dist max_search_km then Some dist else None))%res
    end
  else Ok None.

(** Lines 124-130: the candidates of a donation at [(d_lat, d_lon)] that
    needs [need] kilograms, in the order of [repo.list_recipients()], or
    the first exception. *)
Fixpoint candidates_of (need : F) (d_lat d_lon : pyval F) (max_search_km : F)
  (rs : list (string * Recipient.t F)) : result (list (F * (string * Recipient.t F))) :=
  match rs with
  | [] => Ok []
  | (k, r) :: rs' =>
      (c <- candidate_of need d_lat d_lon max_search_km r ;;
       rest <- candidates_of need d_lat d_lon max_search_km rs' ;;
       Ok (match c with
           | Some dist => (dist, (k, r)) :: rest
           | None => rest
           end))%res
  end.

(** Lines 133-139, the tail of the body of the loop over the open
    donations: the donation [d], stored under [key], is assigned to the
    recipient [chosen], stored under [rkey]. *)
Definition match_chosen (key : string) (d : Donation.t F) (rkey : string)
  (chosen : Recipient.t F) (assigned : list (string * string))
  : M (Globals F) (list (string * string)) :=
  (let need := Donation.total_weight_kg d in
   let d := Donation.set_matched_recipient_id d (Some (Recipient.id chosen)) in
   on_repo (assign_donation key d) ;;;
   transition_state (Donation.id d) MATCHED None (Some "auto-match") ;;;
   on_repo (update_donation d) ;;;
   let chosen :=
     Recipient.set_capacity_kg chosen (f_sub (Recipient.capacity_kg chosen) need) in
   on_repo (assign_recipient rkey chosen) ;;;
   on_repo (update_recipient chosen) ;;;
   ret (assigned ++ [(Donation.id d, Recipient.id chosen)]))%py.

(** Lines 121-139: the body of the loop over the open donations, for the
    donation object stored under [key] ([d0] is its value when the list of
    open donations was taken). *)
Definition match_one (max_search_km : F) (kd : string * Donation.t F)
  (assigned : list (string * string)) : M (Globals F) (list (string * string)) :=
  (let (key, d0) := kd in
   cur <- gets (fun g => get_donation (repo g) key) ;;
   let d := match cur with Some d => d | None => d0 end in
   match truthy_dict (Donation.location d) with
   | None => ret assigned
   | Some location =>
       d_lat <- lift (coordinate location 1) ;;
       d_lon <- lift (coordinate location 0) ;;
       let need := Donation.total_weight_kg d in
       rs <- gets (fun g => list_recipients (repo g)) ;;
       candidates <- lift (candidates_of need d_lat d_lon max_search_km rs) ;;
       match candidates with
       | [] => ret assigned
       | c :: cs =>
           match sort_by_key (c :: cs) with
           | [] => raise IndexError_ListIndex
           | (_, (rkey, chosen)) :: _ => match_chosen key d rkey chosen assigned
           end
       end
   end)%py.

Fixpoint match_loop (max_search_km : F) (ds : list (string * Donation.t F))
  (assigned : list (string * string)) : M (Globals F) (list (string * string)) :=
  match ds with
  | [] => ret assigned
  | kd :: ds' =>
      bind (match_one max_search_km kd assigned)
           (fun assigned' => match_loop max_search_km ds' assigned')
  end.

Definition greedy_match_local (max_search_km : F) : M (Globals F) (list (string * string)) :=
  (donations <- gets (fun g => list_open_donations (repo g)) ;;
   match_loop max_search_km donations [])%py.

(** A [(lat, lon)] tuple as the planner builds it from a location: its
    components are whatever the location holds. *)
Definition point : Type := (pyval F * pyval F)%type.

(** A tuple of two numbers as a [point]. *)
Definition as_point (p : F * F) : point := (PyNum (fst p), PyNum (snd p)).

(** Lines 148-153: the [(lat, lon)] points of the donations, or the first
    exception. *)
Fixpoint collect_points (r : InMemoryRepo F) (donation_ids : list string)
  : result (list point) :=
  match donation_ids with
  | [] => Ok []
  | did :: rest =>
      match get_donation r did with
      | None => Raise (ValueError_DonationMissing did)
      | Some d =>
          match truthy_dict (Donation.location d) with
          | None => Raise (ValueError_DonationMissing did)
          | Some location =>
              (lat <- coordinate location 1 ;;
               lon <- coordinate location 0 ;;
               points <- collect_points r rest ;;
               Ok ((lat, lon) :: points))%res
          end
      end
  end.

(** Line 159: [[(haversine_distance(current[0], current[1], p[0], p[1]), p)
    for p in remaining]], or the first exception.  A point whose distance
    was computed is a tuple of two numbers, and is kept as such; [i] is its
    position in [remaining], which stands for the identity of the tuple. *)
Fixpoint distances_from (current : point) (i : nat) (remaining : list point)
  : result (list (F * (nat * (F * F)))) :=
  match remaining with
  | [] => Ok []
  | p :: ps =>
      (dist <- haversine_distance (fst current) (snd current) (fst p) (snd p) ;;
       rest <- distances_from current (S i) ps ;;
       Ok (match p with
           | (PyNum lat, PyNum lon) => (dist, (i, (lat, lon))) :: rest
           | _ => rest
           end))%res
  end.

(** [q == p] for a tuple [p] of two numbers: a value that is not a number
    is equal to no number. *)
Definition point_eqb (q : point) (p : F * F) : bool :=
  match q with
  | (PyNum a, PyNum b) => f_eqb a (fst p) && f_eqb b (snd p)
  | _ => false
  end.

(** [l.remove(p)] for the tuple [p] found at position [i] of [l]: it drops
    the first element that is [p] itself or is equal to it; [None] stands
    for the [ValueError] raised when there is none. *)
Fixpoint list_remove (i : nat) (p : F * F) (l : list point) : option (list point) :=
  match l with
  | [] => None
  | q :: l' =>
      match i with
      | O => Some l'
      | S i' =>
          if point_eqb q p then Some l'
          else match list_remove i' p l' with
               | Some l'' => Some (q :: l'')
               | None => None
               end
      end
  end.

Lemma list_remove_length (i : nat) (p : F * F) (l l' : list point) :
  list_remove i p l = Some l' -> length l' < length l.
Proof.
  revert i l'; induction l as [|q l IH]; intros i l' E; [destruct i; discriminate|].
  destruct i as [|i]; cbn [list_remove] in E.
  - injection E as <-. apply Nat.lt_succ_diag_r.
  - destruct (point_eqb q p).
    + injection E as <-. apply Nat.lt_succ_diag_r.
    + destruct (list_remove i p l) as [l''|] eqn:El; [|discriminate].
      injection E as <-. simpl. apply -> Nat.succ_lt_mono. now apply (IH i).
Defined.

(** Lines 158-165: the [while remaining] loop.  Every iteration removes one
    point from [remaining], which is what the recursion descends on. *)
Equations? nearest_neighbor (current : point) (remaining : list point) (order : list (F * F))
  : result (list (F * F)) by wf (length remaining) lt :=
nearest_neighbor current [] order := Ok order;
nearest_neighbor current (p :: ps) order with distances_from current 0 (p :: ps) := {
  | Raise e => Raise e
  | Ok distances with sort_by_key distances := {
      | [] => Raise IndexError_ListIndex
      | (_, (i, nearest)) :: _ with inspect (list_remove i nearest (p :: ps)) := {
          | exist _ None _ => Raise ValueError_NotInList
          | exist _ (Some remaining') Heq =>
              nearest_neighbor (as_point nearest) remaining' (order ++ [nearest]) } } }.
Proof. exact (list_remove_length _ _ (_ :: _) _ Heq). Defined.

Definition plan_route_local (r : InMemoryRepo F) (volunteer_id : string)
  (donation_ids : list string) : result (list (F * F)) :=
  match get_user r volunteer_id with
  | None => Raise ValueError_VolunteerMissing
  | Some v =>
      match truthy_dict (User.location v) with
      | None => Raise ValueError_VolunteerMissing
      | Some location =>
          (start_lat <- coordinate location 1 ;;
           start_lon <- coordinate location 0 ;;
           points <- collect_points r donation_ids ;;
           nearest_neighbor (start_lat, start_lon) points [])%res
      end
  end.

(** Lines 218-222: the body of the loop of [plan_pickup]. *)
Definition schedule_one (volunteer_id pickup_id did : string) : M (Globals F) unit :=
  (od <- gets (fun g => get_donation (repo g) did) ;;
   match od with
   | None => raise AttributeError_NoneType
   | Some d =>
       transition_state (Donation.id d) PICKUP_SCHEDULED (Some volunteer_id)
         (Some ("pickup " ++ pickup_id ++ " planned")%string) ;;;
       let d := Donation.set_pickup_id d (Some pickup_id) in
       on_repo (assign_donation did d) ;;;
       on_repo (update_donation d) ;;;
       ret tt
   end)%py.

(** Lines 208-223, with [ext_plan_route = None] (there is no [routing]
    module).  [pickup_id] is the uuid4 drawn for the new [Pickup]; the
    result is the pair of the [pickup_id] and [route] of the response. *)
Definition plan_pickup (volunteer_id : string) (donation_ids : list string)
  (pickup_id : string) : M (Globals F) (string * list (F * F)) :=
  (planned <- gets (fun g => plan_route_local (repo g) volunteer_id donation_ids) ;;
   match planned with
   | Raise e => raise e
   | Ok ordered =>
       let p := Pickup.mk F pickup_id (Some volunteer_id) donation_ids ordered "scheduled" in
       on_repo (add_pickup p) ;;;
       for_each donation_ids (schedule_one volunteer_id (Pickup.id p)) ;;;
       ret (Pickup.id p, ordered)
   end)%py.

End App.

End api_app.

(** ** Well-formed repositories

    Every object is stored under its own id.  This is what the [add_*]
    methods establish, and it is the condition under which storing values
    agrees with storing references. *)

Definition sm_repo_wf (r : state_machine.InMemoryRepo) : Prop :=
  forall k d, In (k, d) (state_machine.donations r) -> state_machine.id d = k.

Definition repo_wf {F : Type} (r : models_repo.InMemoryRepo F) : Prop :=
  (forall k d, In (k, d) (models_repo.donations r) -> models_repo.Donation.id d = k) /\
  (forall k x, In (k, x) (models_repo.recipients r) -> models_repo.Recipient.id x = k).

(** States without outgoing transitions. *)
Definition is_terminal (s : DonationState) : bool :=
  match s with
  | DELIVERED | CANCELLED | EXPIRED => true
  | _ => false
  end.

(** The role the user store holds for the acting user, if it holds one, is
    the value of a member of [Role]. *)
Definition actor_role_valid (r : state_machine.InMemoryRepo) (actor : option string) : Prop :=
  forall value, state_machine.resolve_role r actor = Some value ->
                exists ro, Role_of_value value = Some ro.

(** The role of the acting user as the audit entry records it. *)
Definition recorded_role (r : state_machine.InMemoryRepo) (actor : option string) : option Role :=
  match state_machine.resolve_role r actor with
  | Some value => Role_of_value value
  | None => None
  end.

(** Every stored user has the value of a member of [Role] as its role. *)
Definition users_valid (r : state_machine.InMemoryRepo) : Prop :=
  forall k u, In (k, u) (state_machine.users r) ->
              exists ro, Role_of_value (state_machine.role u) = Some ro.

(** Every recipient's remaining capacity is at least [0.0]. *)
Definition capacities_nonneg {F : Type} `{FloatOps F} (r : models_repo.InMemoryRepo F) : Prop :=
  forall k x, In (k, x) (models_repo.recipients r) ->
              f_le f_zero (models_repo.Recipient.capacity_kg x) = true.

(** Taking the weight [w] from a non-negative capacity that is at least [w]
    leaves a non-negative capacity.  Among the floats this is so for every
    [w] but [+inf], since [inf - inf] is NaN. *)
Definition weight_subtracts {F : Type} `{FloatOps F} (w : F) : Prop :=
  forall c : F, f_le f_zero c = true -> f_le w c = true -> f_le f_zero (f_sub c w) = true.

Definition weights_subtract {F : Type} `{FloatOps F} (r : models_repo.InMemoryRepo F) : Prop :=
  forall k d, In (k, d) (models_repo.donations r) ->
              weight_subtracts (models_repo.Donation.total_weight_kg d).

(** No stored donation weighs [+inf]. *)
Definition no_infinite_weight (r : models_repo.InMemoryRepo PrimFloat.float) : Prop :=
  forall k d, In (k, d) (models_repo.donations r) ->
              models_repo.Donation.total_weight_kg d <> PrimFloat.infinity.




(** The location [o] is true and both of its coordinates can be read. *)
Definition readable_location {F : Type} (o : option (models_repo.Location F)) : Prop :=
  exists location lat lon,
    truthy_dict o = Some location /\
    coordinate location 1 = Ok lat /\ coordinate location 0 = Ok lon.

(** The donation stored under [x] carries the pickup [pickup_id] in api_app's
    repository and is in state [pickup_scheduled] in the state machine's. *)
Definition scheduled_for {F : Type} (pickup_id x : string) (g : api_app.Globals F) : Prop :=
  (exists d, models_repo.get_donation (api_app.repo g) x = Some d /\
             models_repo.Donation.pickup_id d = Some pickup_id) /\
  (exists sd, state_machine.get_donation (api_app.state_machine_repo g) x = Some sd /\
              state_machine.state sd = PICKUP_SCHEDULED).

(** ** Integers as numbers

    An instance of the numeric parameters on which the model can be run:
    integer quantities, and a distance that is defined everywhere and is
    [0] between coincident points, as the formula of [haversine_distance]
    is there. *)

#[local] Instance Z_floats : FloatOps Z := {|
  f_le := Z.leb;
  f_lt := Z.ltb;
  f_eqb := Z.eqb;
  f_sub := Z.sub;
  f_zero := 0%Z;
  haversine := fun lat1 lon1 lat2 lon2 =>
    inl (Z.abs (lat2 - lat1) + Z.abs (lon2 - lon1))%Z
|}.

(** ** Binary64 numbers

    A Python float is an IEEE 754 binary64 number; these are the kernel's
    floats with their comparisons and subtraction.  [python_floats] leaves
    the distance open: what is proved for it holds whatever
    [haversine_distance] computes or raises.  The instance [binary64], on
    which samples are run, takes a distance that is [0.0] between coincident
    points, as the formula of [haversine_distance] is there. *)

Definition python_floats
    (distance : PrimFloat.float -> PrimFloat.float -> PrimFloat.float -> PrimFloat.float ->
                PrimFloat.float + math_error) : FloatOps PrimFloat.float := {|
  f_le := PrimFloat.leb;
  f_lt := PrimFloat.ltb;
  f_eqb := PrimFloat.eqb;
  f_sub := PrimFloat.sub;
  f_zero := PrimFloat.zero;
  haversine := distance
|}.

#[local] Instance binary64 : FloatOps PrimFloat.float :=
  python_floats (fun lat1 lon1 lat2 lon2 =>
    inl (PrimFloat.add (PrimFloat.abs (PrimFloat.sub lat2 lat1))
                       (PrimFloat.abs (PrimFloat.sub lon2 lon1)))).

(** ** Sample repositories

    Coordinates are in thousandths of a degree, weights in kilograms. *)

(** A state-machine repository with a posted and a delivered donation. *)
Definition sm_posted : state_machine.Donation :=
  state_machine.mkDonation "d1" None POSTED None None.

Definition sm_delivered : state_machine.Donation :=
  state_machine.mkDonation "d2" None DELIVERED None None.

Definition sm_sample : state_machine.InMemoryRepo :=
  snd (state_machine.add_donation sm_delivered
         (snd (state_machine.add_donation sm_posted state_machine.new_repo))).

(** The same repository after [add_user("u1", "volunteer")], and after
    [add_user("u2", "driver")] as well: "driver" is the value of no member
    of [Role]. *)
Definition sm_volunteer : state_machine.InMemoryRepo :=
  snd (state_machine.add_user "u1" "volunteer" sm_sample).

Definition sm_users : state_machine.InMemoryRepo :=
  snd (state_machine.add_user "u2" "driver" sm_volunteer).

(** A donation of 5 and a recipient with room for 100 at the same place. *)
Definition match_donation : models_repo.Donation.t Z :=
  models_repo.Donation.mk Z "d1" "u1" 5%Z (Some (Point 121000 14600)%Z) POSTED None None.

Definition match_recipient : models_repo.Recipient.t Z :=
  models_repo.Recipient.mk Z "r1" "Pantry" 100%Z (Some (Point 121000 14600)%Z) None.

(** A second recipient, five thousandths of a degree away. *)
Definition far_recipient : models_repo.Recipient.t Z :=
  models_repo.Recipient.mk Z "r0" "Kitchen" 100%Z (Some (Point 121003 14602)%Z) None.

Definition match_repo : models_repo.InMemoryRepo Z :=
  snd (models_repo.add_donation match_donation
         (snd (models_repo.add_recipient match_recipient models_repo.new_repo))).

(** The donation is unknown to the state machine: its repository is as
    [InMemoryRepo()] left it. *)
Definition g_unknown : api_app.Globals Z :=
  api_app.mkGlobals match_repo state_machine.new_repo.

(** The donation has also been added to the state machine's repository. *)
Definition g_known : api_app.Globals Z :=
  api_app.mkGlobals match_repo sm_sample.

(** The state a first matching run leaves behind. *)
Definition g_matched : api_app.Globals Z :=
  snd (api_app.greedy_match_local 10%Z g_known).

(** A donation that weighs [inf] and a recipient with room for [inf] at the
    same place, the donation known to the state machine as posted. *)
Definition inf_donation : models_repo.Donation.t PrimFloat.float :=
  models_repo.Donation.mk PrimFloat.float "d1" "u1" PrimFloat.infinity
    (Some (Point PrimFloat.zero PrimFloat.zero)) POSTED None None.

Definition inf_recipient : models_repo.Recipient.t PrimFloat.float :=
  models_repo.Recipient.mk PrimFloat.float "r1" "Pantry" PrimFloat.infinity
    (Some (Point PrimFloat.zero PrimFloat.zero)) None.

Definition g_inf : api_app.Globals PrimFloat.float :=
  api_app.mkGlobals
    (snd (models_repo.add_donation inf_donation
            (snd (models_repo.add_recipient inf_recipient models_repo.new_repo))))
    sm_sample.

(** A donation of [1.0] kg and a recipient with room for [2.0] kg at the
    same place. *)
Definition float_donation : models_repo.Donation.t PrimFloat.float :=
  models_repo.Donation.mk PrimFloat.float "d1" "u1" PrimFloat.one
    (Some (Point PrimFloat.zero PrimFloat.zero)) POSTED None None.

Definition float_recipient : models_repo.Recipient.t PrimFloat.float :=
  models_repo.Recipient.mk PrimFloat.float "r1" "Pantry" PrimFloat.two
    (Some (Point PrimFloat.zero PrimFloat.zero)) None.

Definition g_float : api_app.Globals PrimFloat.float :=
  api_app.mkGlobals
    (snd (models_repo.add_donation float_donation
            (snd (models_repo.add_recipient float_recipient models_repo.new_repo))))
    sm_sample.

(** A volunteer and two donations to collect; the state machine knows the
    first as matched and the second as posted. *)
Definition route_volunteer : models_repo.User.t Z :=
  models_repo.User.mk Z "v1" "Vol" VOLUNTEER None (Some (Point 121002 14603)%Z).

(** A volunteer whose location is a dict of floats, as the declaration of
    [User.location] has it. *)
Definition flat_volunteer : models_repo.User.t Z :=
  models_repo.User.mk Z "v2" "Vol" VOLUNTEER None
    (Some [("lon", PyNum 121002%Z); ("lat", PyNum 14603%Z)]).

Definition route_da : models_repo.Donation.t Z :=
  models_repo.Donation.mk Z "da" "u1" 5%Z (Some (Point 121001 14601)%Z) POSTED None None.

Definition route_db : models_repo.Donation.t Z :=
  models_repo.Donation.mk Z "db" "u1" 3%Z (Some (Point 121005 14605)%Z) POSTED None None.

Definition route_repo : models_repo.InMemoryRepo Z :=
  snd (models_repo.add_donation route_db
         (snd (models_repo.add_donation route_da
                 (snd (models_repo.add_user flat_volunteer
                         (snd (models_repo.add_user route_volunteer models_repo.new_repo))))))).

Definition route_sm : state_machine.InMemoryRepo :=
  snd (state_machine.add_donation (state_machine.mkDonation "db" None POSTED None None)
         (snd (state_machine.add_donation
                 (state_machine.mkDonation "da" None MATCHED None None)
                 state_machine.new_repo))).

Definition g_route : api_app.Globals Z := api_app.mkGlobals route_repo route_sm.

(** The pickup planned for the two donations, and the state reached once the
    Pickup is stored and the first donation is scheduled. *)
Definition route_pickup : models_repo.Pickup.t Z :=
  models_repo.Pickup.mk Z "p1" (Some "v1") ["da"; "db"]
    [(14601, 121001)%Z; (14605, 121005)%Z] "scheduled".

Definition g_route_scheduled : api_app.Globals Z :=
  snd (for_each ["da"] (api_app.schedule_one "v1" "p1")
         (snd (api_app.on_repo (models_repo.add_pickup route_pickup) g_route))).

(** ** HTTP endpoints

    What a route function hands back to FastAPI: its return value, an
    [HTTPException] it raised, or an exception it did not catch.  The
    [detail] of an [HTTPException] is a literal text or [str(e)] of the
    exception [e] that was caught. *)

Inductive http_detail : Type :=
| text (s : string)
| str_of (e : exn).

Inductive response (A : Type) : Type :=
| Returned (body : A)
| HTTPException (status_code : nat) (detail : http_detail)
| Unhandled (e : exn).
Arguments Returned {A} body.
Arguments HTTPException {A} status_code detail.
Arguments Unhandled {A} e.

(** [except ValueError] and [except KeyError]. *)
Definition is_ValueError (e : exn) : bool :=
  match e with
  | ValueError_DonationNotFound
  | ValueError_InvalidTransition _ _
  | ValidationError_actor_role _
  | ValueError_VolunteerMissing
  | ValueError_DonationMissing _
  | ValueError_NotInList
  | ValueError_MathDomain
  | UnicodeEncodeError
  | JSONDecodeError => true
  | _ => false
  end.

Definition is_KeyError (e : exn) : bool :=
  match e with
  | KeyError_DonationNotFound | KeyError_RecipientNotFound
  | KeyError_Key _ | KeyError_Index _ => true
  | _ => false
  end.

(** The exceptions raised by reading the coordinates of a location and by
    computing a distance. *)
Definition is_location_error (e : exn) : bool :=
  match e with
  | KeyError_Key _ | KeyError_Index _
  | IndexError_ListIndex | IndexError_StringIndex
  | TypeError_NotSubscriptable | TypeError_NotANumber
  | ValueError_MathDomain | OverflowError_IntTooLarge => true
  | _ => false
  end.

(** state_machine.py:125-142, the routes of the state machine's own app. *)
Module state_machine_routes.

Record TransitionRequest : Type := mkTransitionRequest {
  new_state : DonationState;
  actor_user_id : option string;
  notes : option string
}.

Definition api_transition (donation_id : string) (req : TransitionRequest)
  : state_machine.InMemoryRepo -> response state_machine.Donation * state_machine.InMemoryRepo :=
  fun r =>
    match state_machine.transition_state donation_id (new_state req)
            (actor_user_id req) (notes req) r with
    | (Ok d, r') => (Returned d, r')
    | (Raise e, r') =>
        if is_ValueError e then (HTTPException 400 (str_of e), r')
        else if is_KeyError e then (HTTPException 404 (str_of e), r')
        else (Unhandled e, r')
    end.

Definition api_audit_logs (donation_id : string) (r : state_machine.InMemoryRepo)
  : list state_machine.AuditLogEntry :=
  state_machine.get_audit_logs_for_donation r donation_id.

(** A client sending transition requests one after the other, whatever
    each is answered. *)
Definition run_requests (reqs : list (string * TransitionRequest))
  (r : state_machine.InMemoryRepo) : state_machine.InMemoryRepo :=
  fold_left (fun r q => snd (api_transition (fst q) (snd q) r)) reqs r.

End state_machine_routes.

(** The audit trail [log] can be replayed: every entry starts in the state
    the entry before it ended in, and the last one ends in [final]. *)
Fixpoint log_replays (log : list state_machine.AuditLogEntry) (final : DonationState) : Prop :=
  match log with
  | [] => True
  | e :: rest =>
      match rest with
      | [] => state_machine.new_state e = final
      | e' :: _ =>
          state_machine.old_state e' = Some (state_machine.new_state e) /\
          log_replays rest final
      end
  end.

(** How far along its life cycle a donation is. *)
Definition progress (s : DonationState) : nat :=
  match s with
  | POSTED => 0
  | MATCHED => 1
  | PICKUP_SCHEDULED => 2
  | IN_TRANSIT => 3
  | DELIVERED | CANCELLED | EXPIRED => 4
  end.

(** Operations on the state machine's repository. *)
Inductive sm_op : Type :=
| Sm_add_donation (d : state_machine.Donation)
| Sm_add_user (uid : string) (ro : string)
| Sm_transition (donation_id : string) (req : state_machine_routes.TransitionRequest).

Definition sm_apply (r : state_machine.InMemoryRepo) (op : sm_op) : state_machine.InMemoryRepo :=
  match op with
  | Sm_add_donation d => snd (state_machine.add_donation d r)
  | Sm_add_user uid ro => snd (state_machine.add_user uid ro r)
  | Sm_transition did req => snd (state_machine_routes.api_transition did req r)
  end.


(** Every stored donation's audit trail replays to the state the donation
    is in. *)
Definition audit_consistent (r : state_machine.InMemoryRepo) : Prop :=
  forall k d,
    state_machine.get_donation r k = Some d ->
    log_replays (state_machine.get_audit_logs_for_donation r k) (state_machine.state d).




(** A route in which every stop is, among the stops still to come, one
    closest to the position before it: the distance to the stop and to
    every later stop is defined, and none of the latter is smaller. *)
Fixpoint nearest_first {F : Type} `{FloatOps F} (current : api_app.point) (route : list (F * F))
  : Prop :=
  match route with
  | [] => True
  | p :: rest =>
      (exists dp,
         api_app.haversine_distance (fst current) (snd current)
           (PyNum (fst p)) (PyNum (snd p)) = Ok dp /\
         forall q, In q rest ->
           exists dq,
             api_app.haversine_distance (fst current) (snd current)
               (PyNum (fst q)) (PyNum (snd q)) = Ok dq /\
             f_lt dq dp = false) /\
      nearest_first (api_app.as_point p) rest
  end.

(** Recipient [x] can take a donation of weight [need] located at
    [(d_lat, d_lon)] within [max_search_km]: it has the capacity, its
    location is true, its coordinates can be read, and [dist] is its
    distance. *)
Definition eligible {F : Type} `{FloatOps F} (need : F) (d_lat d_lon : pyval F)
  (max_search_km : F) (x : models_repo.Recipient.t F) (dist : F) : Prop :=
  f_le need (models_repo.Recipient.capacity_kg x) = true /\
  exists location r_lat r_lon,
    truthy_dict (models_repo.Recipient.location x) = Some location /\
    coordinate location 1 = Ok r_lat /\
    coordinate location 0 = Ok r_lon /\
    api_app.haversine_distance d_lat d_lon r_lat r_lon = Ok dist /\
    f_le dist max_search_km = true.


(** api_app.py:170-236, the routes of api_app that work on the
    repositories.  [ext_greedy_match] and [ext_plan_route] are [None]:
    there is no [matching] and no [routing] module. *)
Module api_app_routes.

Import models_repo api_app.

Record TransitionRequest : Type := mkTransitionRequest {
  new_state : DonationState;
  actor_user_id : option string;
  notes : option string
}.

Section Routes.
Context {F : Type} `{FloatOps F}.

(** [POST /users]; the response carries the user's id. *)
Definition create_user (u : User.t F) : Globals F -> response string * Globals F :=
  fun g =>
    let (_, g') := on_repo (add_user u) g in (Returned (User.id u), g').

(** [POST /donations]; the response carries the donation's id. *)
Definition create_donation (d : Donation.t F) : Globals F -> response string * Globals F :=
  fun g =>
    match get_user (repo g) (Donation.donor_id d) with
    | None => (HTTPException 404 (text "donor not found"), g)
    | Some _ =>
        let (_, g') := on_repo (add_donation d) g in (Returned (Donation.id d), g')
    end.

(** [GET /donations/open] *)
Definition list_open_donations (g : Globals F) : list (Donation.t F) :=
  map snd (models_repo.list_open_donations (repo g)).

(** [POST /match/run]; the response carries [assigned] and [count]. *)
Definition run_matching (max_search_km : F)
  : Globals F -> response (list (string * string) * nat) * Globals F :=
  fun g =>
    match greedy_match_local max_search_km g with
    | (Ok assigned, g') => (Returned (assigned, length assigned), g')
    | (Raise e, g') => (Unhandled e, g')
    end.

(** [POST /pickups/plan]; the response carries [pickup_id] and [route]. *)
Definition plan_pickup (volunteer_id : string) (donation_ids : list string)
  (pickup_id : string) : Globals F -> response (string * list (F * F)) * Globals F :=
  fun g =>
    match api_app.plan_pickup volunteer_id donation_ids pickup_id g with
    | (Ok body, g') => (Returned body, g')
    | (Raise e, g') => (Unhandled e, g')
    end.

(** [POST /donations/{donation_id}/transition]; the response carries the
    donation's id and state. *)
Definition api_transition (donation_id : string) (req : TransitionRequest)
  : Globals F -> response (string * DonationState) * Globals F :=
  fun g =>
    match transition_state donation_id (new_state req) (actor_user_id req) (notes req) g with
    | (Ok d, g') => (Returned (state_machine.id d, state_machine.state d), g')
    | (Raise e, g') =>
        if is_ValueError e then (HTTPException 400 (str_of e), g') else (Unhandled e, g')
    end.

(** [GET /donations/{donation_id}/audit_logs] *)
Definition api_audit_logs (donation_id : string) (g : Globals F) : list AuditLogEntry.t :=
  get_audit_logs_for_donation (repo g) donation_id.

(** The module state when api_app has been imported. *)
Definition initial : Globals F := mkGlobals new_repo state_machine.new_repo.

End Routes.
End api_app_routes.

(** What a client of api_app can do to the module state: the routes above,
    and the repository calls [add_user], [add_recipient] and [add_donation]
    that [seed_demo] is made of. *)
Inductive api_op {F : Type} : Type :=
| Op_create_user (u : models_repo.User.t F)
| Op_create_donation (d : models_repo.Donation.t F)
| Op_add_recipient (x : models_repo.Recipient.t F)
| Op_add_donation (d : models_repo.Donation.t F)
| Op_run_matching (max_search_km : F)
| Op_plan_pickup (volunteer_id : string) (donation_ids : list string) (pickup_id : string)
| Op_api_transition (donation_id : string) (req : api_app_routes.TransitionRequest).
Arguments api_op : clear implicits.

Definition api_apply {F : Type} `{FloatOps F} (g : api_app.Globals F) (op : api_op F)
  : api_app.Globals F :=
  match op with
  | Op_create_user u => snd (api_app_routes.create_user u g)
  | Op_create_donation d => snd (api_app_routes.create_donation d g)
  | Op_add_recipient x => snd (api_app.on_repo (models_repo.add_recipient x) g)
  | Op_add_donation d => snd (api_app.on_repo (models_repo.add_donation d) g)
  | Op_run_matching km => snd (api_app_routes.run_matching km g)
  | Op_plan_pickup vid ids pid => snd (api_app_routes.plan_pickup vid ids pid g)
  | Op_api_transition did req => snd (api_app_routes.api_transition did req g)
  end.

(** [l1] is [l2] with some elements left out. *)
Inductive Subseq {A : Type} : list A -> list A -> Prop :=
| Subseq_nil : Subseq [] []
| Subseq_skip (x : A) (l1 l2 : list A) : Subseq l1 l2 -> Subseq l1 (x :: l2)
| Subseq_take (x : A) (l1 l2 : list A) : Subseq l1 l2 -> Subseq (x :: l1) (x :: l2).

(** [d'] is [d] up to its [matched_recipient_id]. *)
Definition same_but_recipient {F : Type} (d d' : models_repo.Donation.t F) : Prop :=
  d' = models_repo.Donation.set_matched_recipient_id d
         (models_repo.Donation.matched_recipient_id d').

(** What a matching run leaves alone in api_app's repository. *)
Definition matching_frame {F : Type} (g g' : api_app.Globals F) : Prop :=
  Dict.keys (models_repo.donations (api_app.repo g')) =
    Dict.keys (models_repo.donations (api_app.repo g)) /\
  Dict.keys (models_repo.recipients (api_app.repo g')) =
    Dict.keys (models_repo.recipients (api_app.repo g)) /\
  models_repo.users (api_app.repo g') = models_repo.users (api_app.repo g) /\
  models_repo.pickups (api_app.repo g') = models_repo.pickups (api_app.repo g) /\
  models_repo.audit_logs (api_app.repo g') = models_repo.audit_logs (api_app.repo g) /\
  forall k d,
    models_repo.get_donation (api_app.repo g) k = Some d ->
    exists d', models_repo.get_donation (api_app.repo g') k = Some d' /\
               same_but_recipient d d'.


(** ** user_roles_criteria.py

    The manager keeps the criteria of every role in [_data] and writes them
    to the JSON file at [self.path].  [_data] is what [json.load] read or
    what the methods made of it: a dict from role names to lists of dicts,
    as [_read] declares, each of these dicts holding any JSON values.  Ids
    drawn from [uuid4] are arguments. *)

Module user_roles_criteria.

Definition DEFAULT_ROLES : list string := ["donor"; "recipient"; "volunteer"; "admin"].

(** JSON values, as [json.load] gives them and [json.dump] takes them. *)
Inductive json : Type :=
| JNull
| JBool (b : bool)
| JInt (n : Z)
| JFloat (x : PrimFloat.float)
| JStr (s : string)
| JList (items : list json)
| JObject (members : list (string * json)).

(** The truth value of a JSON value. *)
Definition truthy (v : json) : bool :=
  match v with
  | JNull => false
  | JBool b => b
  | JInt n => negb (Z.eqb n 0)
  | JFloat x => negb (PrimFloat.eqb x PrimFloat.zero)
  | JStr s => negb (String.eqb s EmptyString)
  | JList items => match items with [] => false | _ :: _ => true end
  | JObject members => match members with [] => false | _ :: _ => true end
  end.

(** The first two bytes of a surrogate written in UTF-8: [ED] and then a
    byte from [A0] on. *)
Definition surrogate_lead (c c' : ascii) : bool :=
  Ascii.eqb c "237"%char && Nat.leb 160 (nat_of_ascii c').

(** [s.encode("utf-8")] succeeds: [s] holds no lone surrogate. *)
Fixpoint encodable (s : string) : bool :=
  match s with
  | EmptyString => true
  | String c s' =>
      match s' with
      | EmptyString => true
      | String c' _ => negb (surrogate_lead c c') && encodable s'
      end
  end.

(** Every str in the value, keys included, has a UTF-8 encoding. *)
Fixpoint json_encodable (v : json) : bool :=
  match v with
  | JStr s => encodable s
  | JList items =>
      (fix all (l : list json) : bool :=
         match l with
         | [] => true
         | x :: l' => json_encodable x && all l'
         end) items
  | JObject members =>
      (fix all (l : list (string * json)) : bool :=
         match l with
         | [] => true
         | (k, x) :: l' => encodable k && json_encodable x && all l'
         end) members
  | _ => true
  end.

(** A criterion as [_data] holds it. *)
Definition criterion : Type := Dict.t json.

Definition criterion_encodable (c : criterion) : bool :=
  forallb (fun kv => encodable (fst kv) && json_encodable (snd kv)) c.

Definition Data : Type := Dict.t (list criterion).

Definition data_encodable (data : Data) : bool :=
  forallb (fun kv => encodable (fst kv) && forallb criterion_encodable (snd kv)) data.

(** The dataclass; its fields are declared [str], [str] and [bool], and
    hold whatever they are given. *)
Record Criteria : Type := mkCriteria {
  id : json;
  text : json;
  mandatory : json
}.

(** [asdict(c)] *)
Definition asdict (c : Criteria) : criterion :=
  [("id", id c); ("text", text c); ("mandatory", mandatory c)].

(** [Criteria] called with the dict [c] as its keyword arguments: a key
    that is no field, or a missing [id] or [text], is a [TypeError];
    [mandatory] defaults to [True]. *)
Definition Criteria_kwargs (c : criterion) : result Criteria :=
  if forallb (fun kv => existsb (String.eqb (fst kv)) ["id"; "text"; "mandatory"]) c then
    match Dict.get c "id", Dict.get c "text" with
    | Some i, Some t =>
        Ok (mkCriteria i t (match Dict.get c "mandatory" with Some b => b | None => JBool true end))
    | _, _ => Raise TypeError_Arguments
    end
  else Raise TypeError_Arguments.

Definition _default_data : Data := map (fun r => (r, [])) DEFAULT_ROLES.

(** What the file at [self.path] holds: nothing (it does not exist), the
    JSON document of some [Data], or the beginning of a document that
    [json.dump] did not finish. *)
Inductive file_state : Type :=
| Missing
| Holds (data : Data)
| Partial.

Record RolesManager : Type := mkManager {
  _data : Data;
  file : file_state
}.

(** [_write]: [open(..., "w")] empties the file, [json.dump] writes the
    document piece by piece and raises at the first str that has no UTF-8
    encoding, and the assignment to [self._data] is reached only when it
    did not. *)
Definition _write (data : Data) : M RolesManager unit :=
  fun m =>
    if data_encodable data then (Ok tt, mkManager data (Holds data))
    else (Raise UnicodeEncodeError, mkManager (_data m) Partial).

(** [RolesManager(path)], given what the file at [path] holds. *)
Definition init (on_disk : file_state) : result RolesManager :=
  match on_disk with
  | Missing =>
      match _write _default_data (mkManager [] Missing) with
      | (Ok _, m) => Ok (mkManager _default_data (file m))
      | (Raise e, _) => Raise e
      end
  | Holds data => Ok (mkManager data (Holds data))
  | Partial => Raise JSONDecodeError
  end.

Definition list_roles (m : RolesManager) : list string := Dict.keys (_data m).

(** [self._data[role] = l], in place. *)
Definition set_role (role : string) (l : list criterion) : M RolesManager unit :=
  modify (fun m => mkManager (Dict.set (_data m) role l) (file m)).

(** [self._data[role]] *)
Definition get_role (role : string) : M RolesManager (list criterion) :=
  fun m =>
    match Dict.get (_data m) role with
    | Some l => (Ok l, m)
    | None => (Raise (KeyError_Key role), m)
    end.

Definition ensure_role (role : string) : M RolesManager unit :=
  (present <- gets (fun m => Dict.mem (_data m) role) ;;
   if negb present then
     set_role role [] ;;;
     data <- gets _data ;;
     _write data
   else ret tt)%py.

(** The criteria of a role, none for a role that is not there. *)
Definition criteria_of (m : RolesManager) (role : string) : list criterion :=
  match Dict.get (_data m) role with Some l => l | None => [] end.

Section Strip.
(** [str.strip] *)
Variable strip : string -> string.

Definition add_criteria (role txt : string) (mandatory : bool) (uuid : string)
  : M RolesManager Criteria :=
  (ensure_role role ;;;
   let c := mkCriteria (JStr uuid) (JStr (strip txt)) (JBool mandatory) in
   l <- get_role role ;;
   set_role role (l ++ [asdict c]) ;;;
   data <- gets _data ;;
   _write data ;;;
   ret c)%py.

(** The [add-criteria] command of [main]: [mandatory=args.mandatory or True]. *)
Definition main_add_criteria (role txt : string) (flag : bool) (uuid : string)
  : M RolesManager Criteria :=
  add_criteria role txt (flag || true) uuid.

End Strip.

(** The list comprehension of [list_criteria]: a [Criteria] from every
    dict of [l], or the first [TypeError]. *)
Fixpoint Criteria_of_all (l : list criterion) : result (list Criteria) :=
  match l with
  | [] => Ok []
  | c :: l' =>
      (x <- Criteria_kwargs c ;;
       xs <- Criteria_of_all l' ;;
       Ok (x :: xs))%res
  end.

Definition list_criteria (role : string) : M RolesManager (list Criteria) :=
  (ensure_role role ;;;
   l <- gets (fun m => criteria_of m role) ;;
   lift (Criteria_of_all l))%py.

(** [c.get("id") != crit_id] *)
Definition other_id (crit_id : string) (c : criterion) : bool :=
  match Dict.get c "id" with
  | Some (JStr s) => negb (String.eqb s crit_id)
  | _ => true
  end.

Definition remove_criteria (role crit_id : string) : M RolesManager bool :=
  (ensure_role role ;;;
   l <- get_role role ;;
   let orig := length l in
   let kept := filter (other_id crit_id) l in
   set_role role kept ;;;
   let changed := negb (Nat.eqb (length kept) orig) in
   (if changed then (data <- gets _data ;; _write data) else ret tt) ;;;
   ret changed)%py.

(** [any(d.get("text", "") for d in l)] *)
Definition has_text (l : list criterion) : bool :=
  existsb (fun d => truthy (match Dict.get d "text" with Some v => v | None => JStr EmptyString end)) l.

(** [data.setdefault(r, [])] for every default role. *)
Definition set_defaults (data : Data) : Data :=
  fold_left (fun d r => if Dict.mem d r then d else Dict.set d r []) DEFAULT_ROLES data.

(** One of the four [if not any(...): self._data[role].append(...)] of
    [seed_defaults].  With [overwrite] the test reads a fresh default dict
    while the append goes to [self._data]; without it the test reads
    [self._data] itself. *)
Definition seed_one (overwrite : bool) (role txt uuid : string) : M RolesManager unit :=
  (data <- gets (fun m => if overwrite then _default_data else _data m) ;;
   match Dict.get data role with
   | None => raise (KeyError_Key role)
   | Some l =>
       if has_text l then ret tt
       else
         mine <- get_role role ;;
         set_role role (mine ++ [asdict (mkCriteria (JStr uuid) (JStr txt) (JBool true))])
   end)%py.

Definition donor_text : string :=
  "Post donation with name, weight, perishability, pickup window, and location.".
Definition recipient_text : string :=
  "Accept or reject matches; capacity updates when accepted.".
Definition volunteer_text : string :=
  "Receive ordered route; mark pickup in-progress and completed.".
Definition admin_text : string :=
  "View totals and export transactions CSV.".

Definition seed_defaults (overwrite : bool) (u1 u2 u3 u4 : string) : M RolesManager bool :=
  ((if overwrite then ret tt
    else modify (fun m => mkManager (set_defaults (_data m)) (file m))) ;;;
   seed_one overwrite "donor" donor_text u1 ;;;
   seed_one overwrite "recipient" recipient_text u2 ;;;
   seed_one overwrite "volunteer" volunteer_text u3 ;;;
   seed_one overwrite "admin" admin_text u4 ;;;
   data <- gets _data ;;
   _write data ;;;
   ret true)%py.

End user_roles_criteria.

(** ** audit.py: the counting loop of [build_report_summary]

    [cursor] is what the query on the [audit_logs] collection yields; of an
    event only its [action] is read, and it is a string when present. *)

Module audit.

Record AuditEvent : Type := mkAuditEvent {
  action : option string
}.

(** [act = ev.get("action", "unknown"); summary[act] = summary.get(act, 0) + 1] *)
Definition count_event (summary : Dict.t nat) (ev : AuditEvent) : Dict.t nat :=
  let act := match action ev with Some a => a | None => "unknown" end in
  Dict.set summary act ((match Dict.get summary act with Some n => n | None => 0 end) + 1).

Definition build_report_summary (cursor : list AuditEvent) : Dict.t nat :=
  fold_left count_event cursor Dict.empty.

(** The action an event is counted under. *)
Definition counted_as (ev : AuditEvent) : string :=
  match action ev with Some a => a | None => "unknown" end.

End audit.


(** The file holds what the manager has in memory. *)
Definition synced (m : user_roles_criteria.RolesManager) : Prop :=
  user_roles_criteria.file m = user_roles_criteria.Holds (user_roles_criteria._data m).

(** What a call that writes the file leaves behind: it returned and the
    file holds what is in memory, or [json.dump] raised and the file holds
    the beginning of a document. *)
Definition written {A : Type} (res : result A * user_roles_criteria.RolesManager) : Prop :=
  match res with
  | (Ok _, m) => synced m
  | (Raise e, m) => e = UnicodeEncodeError /\ user_roles_criteria.file m = user_roles_criteria.Partial
  end.

(** The role has a criterion with a text that is true. *)
Definition seeded (m : user_roles_criteria.RolesManager) (role : string) : Prop :=
  exists l, Dict.get (user_roles_criteria._data m) role = Some l /\
            user_roles_criteria.has_text l = true.

(** A manager with one role and one criterion, and the file that holds
    it. *)
Definition sample_manager : user_roles_criteria.RolesManager :=
  let data :=
    [("donor", [user_roles_criteria.asdict
                  (user_roles_criteria.mkCriteria
                     (user_roles_criteria.JStr "c1")
                     (user_roles_criteria.JStr "Label every box")
                     (user_roles_criteria.JBool true))])] in
  user_roles_criteria.mkManager data (user_roles_criteria.Holds data).


(** Sample requests to the state machine's transition route. *)
Definition req_matched : state_machine_routes.TransitionRequest :=
  state_machine_routes.mkTransitionRequest MATCHED None None.

Definition req_posted : state_machine_routes.TransitionRequest :=
  state_machine_routes.mkTransitionRequest POSTED None None.

(** The two donations to collect, both known to the state machine as
    matched. *)
Definition route_sm_matched : state_machine.InMemoryRepo :=
  snd (state_machine.add_donation (state_machine.mkDonation "db" None MATCHED None None)
         (snd (state_machine.add_donation
                 (state_machine.mkDonation "da" None MATCHED None None)
                 state_machine.new_repo))).

Definition g_route_matched : api_app.Globals Z :=
  api_app.mkGlobals route_repo route_sm_matched.


(** * Properties *)

(** ** Dictionaries *)

Section DictFacts.
Context {V : Type}.
Implicit Types (m : Dict.t V) (k : string) (v : V).

Lemma dict_get_set_same m k v : Dict.get (Dict.set m k v) k = Some v.
Proof.
  induction m as [|[k' v'] m IH]; simpl.
  - now rewrite String.eqb_refl.
  - destruct (String.eqb k k') eqn:E; simpl; rewrite E; auto.
Qed.

Lemma dict_get_set_other m k k' v :
  k' <> k -> Dict.get (Dict.set m k v) k' = Dict.get m k'.
Proof.
  intros Hne. induction m as [|[k0 v0] m IH]; simpl.
  - destruct (String.eqb k' k) eqn:E; auto.
    apply String.eqb_eq in E. contradiction.
  - destruct (String.eqb k k0) eqn:E; simpl.
    + apply String.eqb_eq in E. subst k0.
      destruct (String.eqb k' k) eqn:E'; auto.
      apply String.eqb_eq in E'. contradiction.
    + destruct (String.eqb k' k0); auto.
Qed.

Lemma dict_in_set m k v k' v' :
  In (k', v') (Dict.set m k v) -> In (k', v') m \/ (k' = k /\ v' = v).
Proof.
  induction m as [|[k0 v0] m IH]; simpl.
  - intros [E|[]]. injection E as <- <-. auto.
  - destruct (String.eqb k k0) eqn:E; simpl.
    + apply String.eqb_eq in E. subst k0.
      intros [E'|Hin]; auto. injection E' as <- <-. auto.
    + intros [E'|Hin]; auto. apply IH in Hin. tauto.
Qed.

Lemma dict_in_mem m k v : In (k, v) m -> Dict.mem m k = true.
Proof.
  unfold Dict.mem. induction m as [|[k0 v0] m IH]; simpl; [tauto|].
  intros [E|Hin].
  - injection E as -> ->. now rewrite String.eqb_refl.
  - destruct (String.eqb k k0); auto.
Qed.

Lemma dict_get_in m k v : Dict.get m k = Some v -> In (k, v) m.
Proof.
  induction m as [|[k0 v0] m IH]; simpl; [discriminate|].
  destruct (String.eqb k k0) eqn:E.
  - apply String.eqb_eq in E. subst k0. intros [= ->]. auto.
  - auto.
Qed.

Lemma dict_get_mem m k v : Dict.get m k = Some v -> Dict.mem m k = true.
Proof. unfold Dict.mem. now intros ->. Qed.

Lemma dict_mem_set m k k' v : Dict.mem m k' = true -> Dict.mem (Dict.set m k v) k' = true.
Proof.
  unfold Dict.mem. destruct (string_dec k' k) as [->|Hne].
  - now rewrite dict_get_set_same.
  - now rewrite dict_get_set_other.
Qed.

(** Storing a value under its own id keeps every value under its own id. *)
Lemma dict_set_keyed (idf : V -> string) m k v :
  (forall k' v', In (k', v') m -> idf v' = k') -> idf v = k ->
  forall k' v', In (k', v') (Dict.set m k v) -> idf v' = k'.
Proof.
  intros Hwf Hid k' v' Hin. apply dict_in_set in Hin.
  destruct Hin as [Hin|[-> ->]]; auto.
Qed.

(** Writing back the value a key already has changes nothing. *)
Lemma dict_set_get_id m k v : Dict.get m k = Some v -> Dict.set m k v = m.
Proof.
  induction m as [|[k0 v0] m IH]; simpl; [discriminate|].
  destruct (String.eqb k k0) eqn:E.
  - now intros [= ->].
  - intros Hg. now rewrite IH.
Qed.

Lemma dict_set_set m k v v' : Dict.set (Dict.set m k v) k v' = Dict.set m k v'.
Proof.
  induction m as [|[k0 v0] m IH]; simpl.
  - now rewrite String.eqb_refl.
  - destruct (String.eqb k k0) eqn:E; simpl; rewrite E; auto. now rewrite IH.
Qed.

End DictFacts.

Lemma DonationState_eqb_eq (a b : DonationState) : DonationState_eqb a b = true <-> a = b.
Proof. destruct a, b; simpl; split; intros; congruence. Qed.

Lemma DonationState_eqb_neq (a b : DonationState) : DonationState_eqb a b = false <-> a <> b.
Proof. destruct a, b; simpl; split; intros; congruence. Qed.

Lemma state_in_In (s : DonationState) (l : list DonationState) :
  state_machine.state_in s l = true <-> In s l.
Proof.
  unfold state_machine.state_in. rewrite existsb_exists. split.
  - intros (x & Hin & E). apply DonationState_eqb_eq in E. now subst.
  - intros Hin. exists s. split; auto. now apply DonationState_eqb_eq.
Qed.

(** ** Well-formedness is what the [add_*] methods establish *)

Lemma sm_new_repo_wf : sm_repo_wf state_machine.new_repo.
Proof. intros k d []. Qed.

Lemma sm_add_donation_wf (r : state_machine.InMemoryRepo) (d : state_machine.Donation) :
  sm_repo_wf r -> sm_repo_wf (snd (state_machine.add_donation d r)).
Proof.
  intros Hwf k d'. simpl. now apply dict_set_keyed.
Qed.

Lemma new_repo_wf {F : Type} : repo_wf (@models_repo.new_repo F).
Proof. split; intros k x []. Qed.

Lemma add_donation_wf {F : Type} (r : models_repo.InMemoryRepo F)
  (d : models_repo.Donation.t F) :
  repo_wf r -> repo_wf (snd (models_repo.add_donation d r)).
Proof.
  intros [Hd Hr]. split; [|exact Hr].
  intros k d'. simpl. now apply dict_set_keyed.
Qed.

Lemma add_recipient_wf {F : Type} (r : models_repo.InMemoryRepo F)
  (x : models_repo.Recipient.t F) :
  repo_wf r -> repo_wf (snd (models_repo.add_recipient x r)).
Proof.
  intros [Hd Hr]. split; [exact Hd|].
  intros k x'. simpl. now apply dict_set_keyed.
Qed.


(** ** The state machine ([state_machine.transition_state]) *)

Section StateMachineFacts.
Import state_machine.

Lemma audit_logs_after_append (r : InMemoryRepo) (e : AuditLogEntry) (k : string) :
  get_audit_logs_for_donation (snd (add_audit_log e r)) k =
  if String.eqb k (donation_id e)
  then get_audit_logs_for_donation r k ++ [e]
  else get_audit_logs_for_donation r k.
Proof.
  unfold get_audit_logs_for_donation, add_audit_log; simpl.
  destruct (String.eqb k (donation_id e)) eqn:E.
  - apply String.eqb_eq in E. subst k. now rewrite dict_get_set_same.
  - apply String.eqb_neq in E. now rewrite dict_get_set_other.
Qed.

(** Building the entry: it is built as given, with the member of [Role]
    for the role, or the role is no member and the constructor raises. *)
Lemma new_AuditLogEntry_cases (did : string) (actor raw : option string)
  (old : option DonationState) (new : DonationState) (notes : option string) :
  (exists ro,
     new_AuditLogEntry did actor raw old new notes =
       Ok (mkAuditLogEntry did actor ro old new notes) /\
     ro = match raw with Some value => Role_of_value value | None => None end) \/
  (exists value,
     raw = Some value /\ Role_of_value value = None /\
     new_AuditLogEntry did actor raw old new notes = Raise (ValidationError_actor_role value)).
Proof.
  unfold new_AuditLogEntry. destruct raw as [value|]; [|left; eauto].
  destruct (Role_of_value value) as [ro|] eqn:E; [left|right]; eauto.
Qed.

Lemma new_AuditLogEntry_valid (r : InMemoryRepo) (did : string) (actor : option string)
  (old : option DonationState) (new : DonationState) (notes : option string) :
  actor_role_valid r actor ->
  new_AuditLogEntry did actor (resolve_role r actor) old new notes =
    Ok (mkAuditLogEntry did actor (recorded_role r actor) old new notes).
Proof.
  intros Hv. unfold new_AuditLogEntry, recorded_role.
  destruct (resolve_role r actor) as [value|] eqn:E; [|reflexivity].
  destruct (Hv value E) as (ro & ->). reflexivity.
Qed.

(** The call, branch by branch. *)
Lemma transition_state_eq (r : InMemoryRepo) (did : string) (to : DonationState)
  (actor notes : option string) :
  transition_state did to actor notes r =
  match get_donation r did with
  | None => (Raise ValueError_DonationNotFound, r)
  | Some d =>
      if DonationState_eqb to (state d) then
        match new_AuditLogEntry (id d) actor (resolve_role r actor) (Some (state d)) to
                (Some (str_or notes "idempotent transition")) with
        | Ok entry => (Ok d, snd (add_audit_log entry r))
        | Raise e => (Raise e, r)
        end
      else if negb (state_in to (ALLOWED_TRANSITIONS (state d))) then
        (Raise (ValueError_InvalidTransition (state d) to), r)
      else
        let r1 := with_donations r (Dict.set (donations r) did (set_state d to)) in
        if negb (Dict.mem (donations r1) (id d)) then (Raise KeyError_DonationNotFound, r1)
        else
          let r2 := with_donations r1 (Dict.set (donations r1) (id d) (set_state d to)) in
          match new_AuditLogEntry (id d) actor (resolve_role r actor) (Some (state d)) to
                  notes with
          | Ok entry => (Ok (set_state d to), snd (add_audit_log entry r2))
          | Raise e => (Raise e, r2)
          end
  end.
Proof.
  unfold transition_state, bind, gets, raise, ret, lift, assign_in_place, modify.
  destruct (get_donation r did) as [d|]; [|reflexivity].
  destruct (DonationState_eqb to (state d)).
  { now destruct (new_AuditLogEntry _ _ _ _ _ _). }
  destruct (negb (state_in to (ALLOWED_TRANSITIONS (state d)))); [reflexivity|].
  cbv zeta. unfold update_donation. cbn [id set_state].
  destruct (negb (Dict.mem _ _)); [reflexivity|].
  unfold resolve_role, get_user. cbn [users with_donations].
  now destruct (new_AuditLogEntry _ _ _ _ _ _).
Qed.

(** The call on a donation stored under its own id. *)
Lemma transition_state_stored (r : InMemoryRepo) (did : string) (d : Donation)
  (to : DonationState) (actor notes : option string) :
  get_donation r did = Some d -> id d = did ->
  transition_state did to actor notes r =
  if DonationState_eqb to (state d) then
    match new_AuditLogEntry did actor (resolve_role r actor) (Some (state d)) to
            (Some (str_or notes "idempotent transition")) with
    | Ok entry => (Ok d, snd (add_audit_log entry r))
    | Raise e => (Raise e, r)
    end
  else if negb (state_in to (ALLOWED_TRANSITIONS (state d))) then
    (Raise (ValueError_InvalidTransition (state d) to), r)
  else
    let r1 := with_donations r (Dict.set (donations r) did (set_state d to)) in
    match new_AuditLogEntry did actor (resolve_role r actor) (Some (state d)) to notes with
    | Ok entry => (Ok (set_state d to), snd (add_audit_log entry r1))
    | Raise e => (Raise e, r1)
    end.
Proof.
  intros Hd Hid. rewrite transition_state_eq, Hd, Hid.
  destruct (DonationState_eqb to (state d)); [reflexivity|].
  destruct (negb (state_in to (ALLOWED_TRANSITIONS (state d)))); [reflexivity|].
  cbv zeta. cbn [donations with_donations].
  unfold Dict.mem. rewrite dict_get_set_same. cbn [negb]. now rewrite dict_set_set.
Qed.

(** A call that raises.  Either nothing was written: the donation is not
    found, the transition is not allowed, or the state requested is the
    current one and the role of the acting user is no member of [Role].  Or
    the transition is allowed and the role of the acting user is no member
    of [Role]: then the new state was written before the entry was built,
    and no entry was appended. *)
Lemma transition_state_raise_cases (r r' : InMemoryRepo) (did : string)
  (to : DonationState) (actor notes : option string) (e : exn) :
  sm_repo_wf r ->
  transition_state did to actor notes r = (Raise e, r') ->
  (r' = r /\
   (e = ValueError_DonationNotFound /\ get_donation r did = None \/
    (exists d, get_donation r did = Some d /\ to <> state d /\
               ~ In to (ALLOWED_TRANSITIONS (state d)) /\
               e = ValueError_InvalidTransition (state d) to) \/
    (exists d value, get_donation r did = Some d /\ to = state d /\
                     resolve_role r actor = Some value /\ Role_of_value value = None /\
                     e = ValidationError_actor_role value))) \/
  (exists d value,
     get_donation r did = Some d /\ to <> state d /\
     In to (ALLOWED_TRANSITIONS (state d)) /\
     resolve_role r actor = Some value /\ Role_of_value value = None /\
     e = ValidationError_actor_role value /\
     r' = with_donations r (Dict.set (donations r) did (set_state d to))).
Proof.
  intros Hwf.
  destruct (get_donation r did) as [d|] eqn:Hd.
  2:{ rewrite transition_state_eq, Hd. intros [= <- <-]. left. auto. }
  assert (Hid : id d = did) by (apply Hwf; now apply dict_get_in).
  rewrite (transition_state_stored r did d to actor notes Hd Hid).
  destruct (DonationState_eqb to (state d)) eqn:Eq.
  { apply DonationState_eqb_eq in Eq.
    destruct (new_AuditLogEntry_cases did actor (resolve_role r actor) (Some (state d)) to
                (Some (str_or notes "idempotent transition")))
      as [(ro & -> & _)|(value & Hv & Hno & ->)]; [discriminate|].
    intros [= <- <-]. left. split; [reflexivity|]. right. right. exists d, value. auto. }
  apply DonationState_eqb_neq in Eq.
  destruct (state_in to (ALLOWED_TRANSITIONS (state d))) eqn:Hin; cbn [negb].
  - apply state_in_In in Hin. cbv zeta.
    destruct (new_AuditLogEntry_cases did actor (resolve_role r actor) (Some (state d)) to notes)
      as [(ro & -> & _)|(value & Hv & Hno & ->)]; [discriminate|].
    intros [= <- <-]. right. exists d, value. repeat split; auto.
  - intros [= <- <-]. left. split; [reflexivity|]. right. left. exists d. repeat split; auto.
    rewrite <- state_in_In. congruence.
Qed.

(** When the role of the acting user is a member of [Role], or there is no
    such role, a call that raises has written nothing. *)
Lemma transition_state_raise_valid (r r' : InMemoryRepo) (did : string)
  (to : DonationState) (actor notes : option string) (e : exn) :
  sm_repo_wf r -> actor_role_valid r actor ->
  transition_state did to actor notes r = (Raise e, r') ->
  r' = r /\
  (e = ValueError_DonationNotFound /\ get_donation r did = None \/
   exists d, get_donation r did = Some d /\ to <> state d /\
             ~ In to (ALLOWED_TRANSITIONS (state d)) /\
             e = ValueError_InvalidTransition (state d) to).
Proof.
  intros Hwf Hv Hts. apply transition_state_raise_cases in Hts; auto.
  destruct Hts as [(-> & [H|[H|(d & value & _ & _ & Hr & Hno & _)]])
                  |(d & value & _ & _ & _ & Hr & Hno & _)]; auto;
    destruct (Hv value Hr) as (ro & Hro); congruence.
Qed.

Lemma actor_role_valid_none (r : InMemoryRepo) : actor_role_valid r None.
Proof. intros value [=]. Qed.

(** C1 (as amended): a legal transition of a stored donation, requested by
    nobody, by a user the repository does not know, or by a user stored
    with the value of a member of [Role] as its role, succeeds; the
    repository then holds the donation in the requested state, and exactly
    one audit entry, with [old_state] the previous and [new_state] the
    requested state, is appended to the donation's log; no other donation
    or log is touched. *)
Theorem transition_state_legal (r : InMemoryRepo) (did : string) (d : Donation)
  (to : DonationState) (actor notes : option string) :
  get_donation r did = Some d -> id d = did ->
  to <> state d -> In to (ALLOWED_TRANSITIONS (state d)) ->
  actor_role_valid r actor ->
  exists r',
    transition_state did to actor notes r = (Ok (set_state d to), r') /\
    get_donation r' did = Some (set_state d to) /\
    state (set_state d to) = to /\
    get_audit_logs_for_donation r' did =
      get_audit_logs_for_donation r did ++
      [mkAuditLogEntry did actor (recorded_role r actor) (Some (state d)) to notes] /\
    (forall k, k <> did ->
       get_audit_logs_for_donation r' k = get_audit_logs_for_donation r k) /\
    (forall k, k <> did -> get_donation r' k = get_donation r k).
Proof.
  intros Hd Hid Hne Hin Hv.
  rewrite (transition_state_stored r did d to actor notes Hd Hid).
  apply DonationState_eqb_neq in Hne. rewrite Hne.
  apply state_in_In in Hin. rewrite Hin. cbn [negb]. cbv zeta.
  rewrite (new_AuditLogEntry_valid r did actor _ _ _ Hv).
  eexists. split; [reflexivity|].
  repeat split.
  - unfold get_donation. simpl. apply dict_get_set_same.
  - unfold get_audit_logs_for_donation. simpl. now rewrite dict_get_set_same.
  - intros k Hk. unfold get_audit_logs_for_donation. simpl.
    now rewrite dict_get_set_other.
  - intros k Hk. unfold get_donation. simpl. now rewrite dict_get_set_other.
Qed.

(** C2: a transition to a different state that is not in the allowed set of
    the current state raises the invalid-transition error naming both
    states and leaves the repository, state and audit logs included, as it
    was; this is the case of every different target from a terminal
    state. *)
Theorem transition_state_illegal (r : InMemoryRepo) (did : string) (d : Donation)
  (to : DonationState) (actor notes : option string) :
  get_donation r did = Some d -> to <> state d ->
  (~ In to (ALLOWED_TRANSITIONS (state d)) ->
   transition_state did to actor notes r =
     (Raise (ValueError_InvalidTransition (state d) to), r)) /\
  (is_terminal (state d) = true ->
   transition_state did to actor notes r =
     (Raise (ValueError_InvalidTransition (state d) to), r)).
Proof.
  intros Hd Hne.
  assert (Hgen : ~ In to (ALLOWED_TRANSITIONS (state d)) ->
                 transition_state did to actor notes r =
                   (Raise (ValueError_InvalidTransition (state d) to), r)).
  { intros Hnin. rewrite transition_state_eq, Hd.
    apply DonationState_eqb_neq in Hne. rewrite Hne.
    destruct (state_in to (ALLOWED_TRANSITIONS (state d))) eqn:Hin; [|reflexivity].
    apply state_in_In in Hin. contradiction. }
  split; [exact Hgen|].
  intros Hterm. apply Hgen.
  destruct (state d); simpl in *; try discriminate; tauto.
Qed.

(** C3 (as amended): requesting the state the donation is already in, by
    nobody, by a user the repository does not know, or by a user stored
    with the value of a member of [Role] as its role, returns the donation
    unchanged, leaves every stored donation unchanged, and appends exactly
    one audit entry with [old_state] and [new_state] both that state; its
    note is the supplied note when that is a non-empty string, and
    "idempotent transition" when the note is absent or empty. *)
Theorem transition_state_idempotent (r : InMemoryRepo) (did : string) (d : Donation)
  (actor notes : option string) :
  get_donation r did = Some d ->
  actor_role_valid r actor ->
  exists r' e,
    transition_state did (state d) actor notes r = (Ok d, r') /\
    donations r' = donations r /\
    get_audit_logs_for_donation r' (id d) = get_audit_logs_for_donation r (id d) ++ [e] /\
    (forall k, k <> id d ->
       get_audit_logs_for_donation r' k = get_audit_logs_for_donation r k) /\
    donation_id e = id d /\
    actor_user_id e = actor /\ actor_role e = recorded_role r actor /\
    old_state e = Some (state d) /\ new_state e = state d /\
    (forall n, notes = Some n -> n <> EmptyString -> state_machine.notes e = Some n) /\
    (notes = None \/ notes = Some EmptyString ->
     state_machine.notes e = Some "idempotent transition").
Proof.
  intros Hd Hv.
  rewrite transition_state_eq, Hd.
  assert (E : DonationState_eqb (state d) (state d) = true)
    by now apply DonationState_eqb_eq.
  rewrite E, (new_AuditLogEntry_valid r (id d) actor _ _ _ Hv).
  eexists. eexists. split; [reflexivity|].
  split; [reflexivity|]. split.
  { unfold get_audit_logs_for_donation. simpl. now rewrite dict_get_set_same. }
  split.
  { intros k Hk. unfold get_audit_logs_for_donation. simpl.
    now rewrite dict_get_set_other. }
  do 5 (split; [reflexivity|]). split.
  - intros n -> Hn. simpl. destruct n; [contradiction|reflexivity].
  - intros [->| ->]; reflexivity.
Qed.

End StateMachineFacts.

Lemma sm_users_u1_valid : actor_role_valid sm_users (Some "u1").
Proof.
  intros value Hv. vm_compute in Hv. injection Hv as <-. exists VOLUNTEER. reflexivity.
Defined.

(** The transition posted -> matched of the sample repository, requested by
    its volunteer. *)
Lemma transition_state_legal_witness :
  exists r',
    state_machine.transition_state "d1" MATCHED (Some "u1") (Some "by hand") sm_users =
      (Ok (state_machine.set_state sm_posted MATCHED), r') /\
    state_machine.get_donation r' "d1" = Some (state_machine.set_state sm_posted MATCHED) /\
    state_machine.state (state_machine.set_state sm_posted MATCHED) = MATCHED /\
    state_machine.get_audit_logs_for_donation r' "d1" =
      state_machine.get_audit_logs_for_donation sm_users "d1" ++
      [state_machine.mkAuditLogEntry "d1" (Some "u1")
         (recorded_role sm_users (Some "u1")) (Some POSTED) MATCHED (Some "by hand")] /\
    (forall k, k <> "d1" ->
       state_machine.get_audit_logs_for_donation r' k =
       state_machine.get_audit_logs_for_donation sm_users k) /\
    (forall k, k <> "d1" ->
       state_machine.get_donation r' k = state_machine.get_donation sm_users k).
Proof.
  apply (transition_state_legal sm_users "d1" sm_posted MATCHED (Some "u1") (Some "by hand")).
  - reflexivity.
  - reflexivity.
  - discriminate.
  - simpl. auto.
  - exact sm_users_u1_valid.
Defined.

(** C1 as stated fails for an acting user stored with a role that is no
    member of [Role]: the transition posted -> matched is in the table, the
    call raises instead of succeeding, the repository holds the donation
    as matched, and no audit entry was appended. *)
Lemma transition_state_legal_unknown_role :
  In MATCHED (state_machine.ALLOWED_TRANSITIONS (state_machine.state sm_posted)) /\
  state_machine.get_donation sm_users "d1" = Some sm_posted /\
  fst (state_machine.transition_state "d1" MATCHED (Some "u2") None sm_users) =
    Raise (ValidationError_actor_role "driver") /\
  state_machine.get_donation
    (snd (state_machine.transition_state "d1" MATCHED (Some "u2") None sm_users)) "d1" =
    Some (state_machine.set_state sm_posted MATCHED) /\
  state_machine.get_audit_logs_for_donation
    (snd (state_machine.transition_state "d1" MATCHED (Some "u2") None sm_users)) "d1" = [] /\
  ~ (exists d' r',
       state_machine.transition_state "d1" MATCHED (Some "u2") None sm_users = (Ok d', r')).
Proof.
  split; [simpl; auto|]. do 4 (split; [reflexivity|]).
  intros (d' & r' & Hrun). vm_compute in Hrun. discriminate Hrun.
Qed.

(** The rejected transitions delivered -> posted (from a terminal state) of
    the sample repository. *)
Lemma transition_state_illegal_witness :
  state_machine.transition_state "d2" POSTED None None sm_sample =
    (Raise (ValueError_InvalidTransition DELIVERED POSTED), sm_sample) /\
  (is_terminal DELIVERED = true ->
   state_machine.transition_state "d2" POSTED None None sm_sample =
     (Raise (ValueError_InvalidTransition DELIVERED POSTED), sm_sample)).
Proof.
  destruct (transition_state_illegal sm_sample "d2" sm_delivered POSTED None None)
    as [Hnot Hterm].
  - reflexivity.
  - discriminate.
  - split.
    + apply Hnot. simpl. tauto.
    + exact Hterm.
Defined.

(** The idempotent transition posted -> posted of the sample repository,
    requested by its volunteer. *)
Lemma transition_state_idempotent_witness :
  exists r' e,
    state_machine.transition_state "d1" POSTED (Some "u1") None sm_users = (Ok sm_posted, r') /\
    state_machine.donations r' = state_machine.donations sm_users /\
    state_machine.get_audit_logs_for_donation r' "d1" =
      state_machine.get_audit_logs_for_donation sm_users "d1" ++ [e] /\
    state_machine.actor_role e = Some VOLUNTEER /\
    state_machine.notes e = Some "idempotent transition".
Proof.
  destruct (transition_state_idempotent sm_users "d1" sm_posted (Some "u1") None eq_refl
              sm_users_u1_valid)
    as (r' & e & Hrun & Hds & Hlog & _ & _ & _ & Hrole & _ & _ & _ & Hnote).
  exists r', e. repeat split; auto.
Defined.

(** C3 as stated fails in two ways.  For an empty note: the note supplied
    is the empty string, the entry written carries "idempotent transition".
    For an acting user stored with a role that is no member of [Role]: the
    call raises, returns no donation and appends no entry. *)
Lemma transition_state_idempotent_empty_note :
  (state_machine.get_audit_logs_for_donation
     (snd (state_machine.transition_state "d1" POSTED None (Some EmptyString) sm_sample)) "d1" =
     [state_machine.mkAuditLogEntry "d1" None None (Some POSTED) POSTED
        (Some "idempotent transition")] /\
   ~ (exists e,
        state_machine.get_audit_logs_for_donation
          (snd (state_machine.transition_state "d1" POSTED None (Some EmptyString) sm_sample))
          "d1" = [e] /\
        state_machine.notes e = Some EmptyString)) /\
  (state_machine.transition_state "d1" POSTED (Some "u2") (Some "retry") sm_users =
     (Raise (ValidationError_actor_role "driver"), sm_users) /\
   state_machine.get_audit_logs_for_donation sm_users "d1" = []).
Proof.
  split; [split; [reflexivity|]|split; reflexivity].
  intros (e & Hlog & Hnote).
  vm_compute in Hlog. injection Hlog as <-. discriminate Hnote.
Qed.

(** ** Reading locations and computing distances *)

Section LocationFacts.
Import models_repo api_app.
Context {F : Type} `{FloatOps F}.

(** A distance is computed between numbers only. *)
Lemma haversine_distance_numbers (lat1 lon1 lat2 lon2 : pyval F) (dist : F) :
  haversine_distance lat1 lon1 lat2 lon2 = Ok dist ->
  exists a b c d,
    lat1 = PyNum a /\ lon1 = PyNum b /\ lat2 = PyNum c /\ lon2 = PyNum d /\
    haversine a b c d = inl dist.
Proof.
  unfold haversine_distance.
  destruct lat1 as [|a| | |]; try discriminate.
  destruct lon1 as [|b| | |]; try discriminate.
  destruct lat2 as [|c| | |]; try discriminate.
  destruct lon2 as [|d| | |]; try discriminate.
  destruct (haversine a b c d) as [x|[|]] eqn:E; [|discriminate|discriminate].
  intros [= <-]. exists a, b, c, d. auto.
Qed.

(** What a distance computation raises. *)
Lemma haversine_distance_raises (lat1 lon1 lat2 lon2 : pyval F) (e : exn) :
  haversine_distance lat1 lon1 lat2 lon2 = Raise e -> is_location_error e = true.
Proof.
  unfold haversine_distance.
  destruct lat1 as [|a| | |]; try (now intros [= <-]).
  destruct lon1 as [|b| | |]; try (now intros [= <-]).
  destruct lat2 as [|c| | |]; try (now intros [= <-]).
  destruct lon2 as [|d| | |]; try (now intros [= <-]).
  destruct (haversine a b c d) as [x|[|]]; [discriminate|now intros [= <-]|now intros [= <-]].
Qed.

(** What reading a coordinate raises. *)
Lemma coordinate_raises (location : Dict.t (pyval F)) (i : nat) (e : exn) :
  coordinate location i = Raise e -> is_location_error e = true.
Proof.
  unfold coordinate, rbind, getitem.
  destruct (Dict.get location "coordinates") as [c|]; [|now intros [= <-]].
  unfold getitem_index. destruct c as [|x|chars|items|entries]; try (now intros [= <-]).
  - destruct (nth_error chars i); [discriminate|now intros [= <-]].
  - destruct (nth_error items i); [discriminate|now intros [= <-]].
Qed.



End LocationFacts.

(** ** Route planning ([api_app.plan_route_local]) *)

Section RouteFacts.
Import models_repo api_app.
Context {F : Type} `{FloatOps F}.

Lemma insert_by_key_perm {A : Type} (x : F * A) (l : list (F * A)) :
  Permutation (insert_by_key x l) (x :: l).
Proof.
  induction l as [|y l IH]; simpl; auto.
  destruct (f_lt (fst y) (fst x)); auto.
  rewrite IH. apply perm_swap.
Qed.

Lemma sort_by_key_perm {A : Type} (l : list (F * A)) : Permutation (sort_by_key l) l.
Proof.
  induction l as [|x l IH]; simpl; auto.
  rewrite insert_by_key_perm. now constructor.
Qed.

Lemma sort_by_key_in {A : Type} (x : F * A) (l : list (F * A)) :
  In x (sort_by_key l) <-> In x l.
Proof.
  split; apply Permutation_in; [|symmetry]; apply sort_by_key_perm.
Qed.

Lemma sort_by_key_nil {A : Type} (l : list (F * A)) : sort_by_key l = [] -> l = [].
Proof.
  intros Hs. pose proof (sort_by_key_perm l) as Hp. rewrite Hs in Hp.
  now apply Permutation_nil in Hp.
Qed.


(** The distances computed in one round of the loop: every entry is the
    distance to the point at its position, and every point has its
    entry. *)
Lemma distances_from_spec (current : point) (remaining : list point) :
  forall (i : nat) (ds : list (F * (nat * (F * F)))),
  distances_from current i remaining = Ok ds ->
  (forall d j p, In (d, (j, p)) ds ->
     exists k, j = i + k /\ nth_error remaining k = Some (as_point p) /\
               haversine_distance (fst current) (snd current)
                 (PyNum (fst p)) (PyNum (snd p)) = Ok d) /\
  (forall k q, nth_error remaining k = Some q ->
     exists d p, q = as_point p /\ In (d, (i + k, p)) ds /\
                 haversine_distance (fst current) (snd current)
                   (PyNum (fst p)) (PyNum (snd p)) = Ok d).
Proof.
  induction remaining as [|q0 remaining IH]; intros i ds; cbn [distances_from].
  - intros [= <-]. split; [intros d j p []|]. intros [|k] q; discriminate.
  - unfold rbind.
    destruct (haversine_distance (fst current) (snd current) (fst q0) (snd q0))
      as [d0|e] eqn:Hd0; [|discriminate].
    destruct (distances_from current (S i) remaining) as [rest|e] eqn:Hrest; [|discriminate].
    destruct (haversine_distance_numbers _ _ _ _ _ Hd0) as (a & b & lat & lon & _ & _ & E1 & E2 & _).
    destruct q0 as [x y]. cbn [fst snd] in *. subst x y.
    intros [= <-]. destruct (IH (S i) rest Hrest) as (Hsound & Hcomplete). split.
    + intros d j p [E|Hin].
      * injection E as <- <- <-. exists 0. rewrite Nat.add_0_r. auto.
      * destruct (Hsound d j p Hin) as (k & -> & Hk & Hd). exists (S k).
        split; [apply Nat.add_succ_comm|]. auto.
    + intros [|k] q Hq; cbn [nth_error] in Hq.
      * injection Hq as <-. exists d0, (lat, lon). rewrite Nat.add_0_r.
        split; [reflexivity|]. split; [now left|exact Hd0].
      * destruct (Hcomplete k q Hq) as (d & p & -> & Hin & Hd). exists d, p.
        rewrite <- Nat.add_succ_comm. split; [reflexivity|]. split; [now right|exact Hd].
Qed.

(** The head of the sorted distances stands at its position in
    [remaining]. *)
Lemma sorted_head_position (current : point) (remaining : list point)
  (ds : list (F * (nat * (F * F)))) (k : F) (i : nat) (nearest : F * F)
  (rest : list (F * (nat * (F * F)))) :
  distances_from current 0 remaining = Ok ds ->
  sort_by_key ds = (k, (i, nearest)) :: rest ->
  nth_error remaining i = Some (as_point nearest) /\
  haversine_distance (fst current) (snd current)
    (PyNum (fst nearest)) (PyNum (snd nearest)) = Ok k.
Proof.
  intros Hds Hs.
  assert (Hin : In (k, (i, nearest)) ds) by (apply sort_by_key_in; rewrite Hs; now left).
  destruct (distances_from_spec _ _ _ _ Hds) as (Hsound & _).
  destruct (Hsound _ _ _ Hin) as (j & -> & Hj & Hd). auto.
Qed.


Lemma list_remove_incl (i : nat) (p : F * F) (l l' : list point) :
  list_remove i p l = Some l' -> incl l' l.
Proof.
  revert i l'. induction l as [|q l IH]; intros i l' E; [destruct i; discriminate|].
  destruct i as [|i]; cbn [list_remove] in E.
  - injection E as <-. apply incl_tl, incl_refl.
  - destruct (point_eqb q p).
    + injection E as <-. apply incl_tl, incl_refl.
    + destruct (list_remove i p l) as [l''|] eqn:El; [|discriminate]. injection E as <-.
      apply incl_cons; [now left|]. apply incl_tl. now apply (IH i).
Qed.


Lemma as_point_inj (p q : F * F) : as_point p = as_point q -> p = q.
Proof. destruct p, q. unfold as_point. simpl. now intros [= -> ->]. Qed.




End RouteFacts.





(** ** What a call of [transition_state] leaves behind *)

Section TransitionOutcome.
Import state_machine.

(** A call that returns has put the donation in the requested state, keeps
    the repository well formed, leaves the users and the other donations
    alone and has appended one entry to the donation's log. *)
Lemma transition_state_ok_cases (r r' : InMemoryRepo) (did : string)
  (to : DonationState) (actor notes : option string) (d' : Donation) :
  sm_repo_wf r ->
  transition_state did to actor notes r = (Ok d', r') ->
  sm_repo_wf r' /\
  get_donation r' did = Some d' /\ state d' = to /\
  users r' = users r /\
  (forall k, k <> did -> get_donation r' k = get_donation r k) /\
  exists e, get_audit_logs_for_donation r' did = get_audit_logs_for_donation r did ++ [e] /\
            new_state e = to.
Proof.
  intros Hwf.
  destruct (get_donation r did) as [d|] eqn:Hd.
  2:{ rewrite transition_state_eq, Hd. discriminate. }
  assert (Hid : id d = did) by (apply Hwf; now apply dict_get_in).
  rewrite (transition_state_stored r did d to actor notes Hd Hid).
  destruct (DonationState_eqb to (state d)) eqn:Eq.
  - apply DonationState_eqb_eq in Eq.
    destruct (new_AuditLogEntry_cases did actor (resolve_role r actor) (Some (state d)) to
                (Some (str_or notes "idempotent transition")))
      as [(ro & -> & _)|(value & _ & _ & ->)]; [|discriminate].
    intros [= <- <-]. repeat split; auto.
    eexists.
    split; [unfold get_audit_logs_for_donation; simpl; rewrite dict_get_set_same;
            reflexivity | reflexivity].
  - destruct (state_in to (ALLOWED_TRANSITIONS (state d))) eqn:Hin; cbn [negb]; [|discriminate].
    cbv zeta.
    destruct (new_AuditLogEntry_cases did actor (resolve_role r actor) (Some (state d)) to notes)
      as [(ro & -> & _)|(value & _ & _ & ->)]; [|discriminate].
    intros [= <- <-]. repeat split.
    + intros k' d' Hin'. simpl in Hin'.
      apply (dict_set_keyed id (donations r) did (set_state d to)); auto.
    + unfold get_donation. simpl. apply dict_get_set_same.
    + intros k Hk. unfold get_donation. simpl. now rewrite dict_get_set_other.
    + eexists.
      split; [unfold get_audit_logs_for_donation; simpl; rewrite dict_get_set_same;
              reflexivity | reflexivity].
Qed.

Lemma transition_state_not_found (r : InMemoryRepo) (did : string)
  (to : DonationState) (actor notes : option string) :
  get_donation r did = None ->
  transition_state did to actor notes r = (Raise ValueError_DonationNotFound, r).
Proof.
  intros Hd. now rewrite transition_state_eq, Hd.
Qed.

(** No call touches the user store. *)
Lemma transition_state_users (r : InMemoryRepo) (did : string) (to : DonationState)
  (actor notes : option string) :
  users (snd (transition_state did to actor notes r)) = users r.
Proof.
  rewrite transition_state_eq.
  destruct (get_donation r did) as [d|]; [|reflexivity].
  destruct (DonationState_eqb to (state d)).
  { now destruct (new_AuditLogEntry _ _ _ _ _ _). }
  destruct (negb (state_in to (ALLOWED_TRANSITIONS (state d)))); [reflexivity|].
  cbv zeta. destruct (negb (Dict.mem _ _)); [reflexivity|].
  now destruct (new_AuditLogEntry _ _ _ _ _ _).
Qed.

(** A call made for nobody that raises has written nothing. *)
Lemma transition_state_raise_no_actor (r r' : InMemoryRepo) (did : string)
  (to : DonationState) (notes : option string) (e : exn) :
  sm_repo_wf r ->
  transition_state did to None notes r = (Raise e, r') ->
  r' = r /\ is_location_error e = false.
Proof.
  intros Hwf Hts.
  apply transition_state_raise_valid in Hts; auto using actor_role_valid_none.
  destruct Hts as (-> & [(-> & _)|(d & _ & _ & _ & ->)]); auto.
Qed.

End TransitionOutcome.

(** ** The matching engine ([api_app.greedy_match_local]) *)

Section MatchingFacts.
Import models_repo api_app.
Context {F : Type} `{FloatOps F}.

(** A recipient is appended to the candidates exactly when it is eligible,
    under its distance. *)
Lemma candidate_of_eligible (need : F) (d_lat d_lon : pyval F) (max_search_km : F)
  (x : Recipient.t F) (dist : F) :
  candidate_of need d_lat d_lon max_search_km x = Ok (Some dist) <->
  eligible need d_lat d_lon max_search_km x dist.
Proof.
  unfold candidate_of, eligible, rbind. split.
  - destruct (f_le need (Recipient.capacity_kg x)); [|discriminate].
    destruct (truthy_dict (Recipient.location x)) as [location|]; [|discriminate].
    destruct (coordinate location 1) as [r_lat|] eqn:Hlat; [|discriminate].
    destruct (coordinate location 0) as [r_lon|] eqn:Hlon; [|discriminate].
    destruct (haversine_distance d_lat d_lon r_lat r_lon) as [d|] eqn:Hdist; [|discriminate].
    destruct (f_le d max_search_km) eqn:Hd; [|discriminate].
    intros [= <-]. split; [reflexivity|]. exists location, r_lat, r_lon.
    repeat split; auto.
  - intros (-> & location & r_lat & r_lon & -> & -> & -> & -> & ->). reflexivity.
Qed.

Lemma candidate_of_raises (need : F) (d_lat d_lon : pyval F) (max_search_km : F)
  (x : Recipient.t F) (e : exn) :
  candidate_of need d_lat d_lon max_search_km x = Raise e -> is_location_error e = true.
Proof.
  unfold candidate_of, rbind.
  destruct (f_le need (Recipient.capacity_kg x)); [|discriminate].
  destruct (truthy_dict (Recipient.location x)) as [location|]; [|discriminate].
  destruct (coordinate location 1) as [r_lat|e1] eqn:E1.
  2:{ intros [= <-]. now apply coordinate_raises in E1. }
  destruct (coordinate location 0) as [r_lon|e0] eqn:E0.
  2:{ intros [= <-]. now apply coordinate_raises in E0. }
  destruct (haversine_distance d_lat d_lon r_lat r_lon) as [d|e2] eqn:E2; [discriminate|].
  intros [= <-]. now apply haversine_distance_raises in E2.
Qed.

Lemma candidates_of_raises (need : F) (d_lat d_lon : pyval F) (max_search_km : F)
  (rs : list (string * Recipient.t F)) (e : exn) :
  candidates_of need d_lat d_lon max_search_km rs = Raise e -> is_location_error e = true.
Proof.
  induction rs as [|[k x] rs IH]; cbn [candidates_of]; [discriminate|].
  unfold rbind.
  destruct (candidate_of need d_lat d_lon max_search_km x) as [c|e1] eqn:E1.
  2:{ intros [= <-]. now apply candidate_of_raises in E1. }
  destruct (candidates_of need d_lat d_lon max_search_km rs) as [rest|e2]; [discriminate|].
  intros [= <-]. now apply IH.
Qed.

(** A candidate is a stored recipient that is eligible under its
    distance. *)
Lemma candidates_of_in (need : F) (d_lat d_lon : pyval F) (max_search_km : F)
  (rs : list (string * Recipient.t F)) (cands : list (F * (string * Recipient.t F)))
  (dist : F) (k : string) (x : Recipient.t F) :
  candidates_of need d_lat d_lon max_search_km rs = Ok cands ->
  In (dist, (k, x)) cands ->
  In (k, x) rs /\ eligible need d_lat d_lon max_search_km x dist.
Proof.
  revert cands. induction rs as [|[k0 x0] rs IH]; intros cands; cbn [candidates_of].
  { intros [= <-] []. }
  unfold rbind.
  destruct (candidate_of need d_lat d_lon max_search_km x0) as [c|] eqn:E0; [|discriminate].
  destruct (candidates_of need d_lat d_lon max_search_km rs) as [rest|]; [|discriminate].
  intros [= <-] Hin.
  assert (Hrest : In (dist, (k, x)) rest ->
                  In (k, x) ((k0, x0) :: rs) /\ eligible need d_lat d_lon max_search_km x dist).
  { intros Hr. destruct (IH rest eq_refl Hr). split; [now right|assumption]. }
  destruct c as [d0|]; [|auto].
  destruct Hin as [E|Hin]; [|auto].
  injection E as <- <- <-. split; [now left|]. now apply candidate_of_eligible.
Qed.

(** An eligible recipient is a candidate. *)
Lemma candidates_of_complete (need : F) (d_lat d_lon : pyval F) (max_search_km : F)
  (rs : list (string * Recipient.t F)) (cands : list (F * (string * Recipient.t F)))
  (k : string) (x : Recipient.t F) (dist : F) :
  candidates_of need d_lat d_lon max_search_km rs = Ok cands ->
  In (k, x) rs -> eligible need d_lat d_lon max_search_km x dist ->
  In (dist, (k, x)) cands.
Proof.
  revert cands. induction rs as [|[k0 x0] rs IH]; intros cands; cbn [candidates_of].
  { intros _ []. }
  unfold rbind.
  destruct (candidate_of need d_lat d_lon max_search_km x0) as [c|] eqn:E0; [|discriminate].
  destruct (candidates_of need d_lat d_lon max_search_km rs) as [rest|]; [|discriminate].
  intros [= <-] [E|Hin] Hel.
  - injection E as -> ->. apply candidate_of_eligible in Hel. rewrite Hel in E0.
    injection E0 as <-. now left.
  - specialize (IH rest eq_refl Hin Hel). destruct c; [now right|assumption].
Qed.

(** The loop body, branch by branch. *)
Lemma match_one_eq (max_search_km : F) (key : string) (d0 : Donation.t F)
  (assigned : list (string * string)) (g : Globals F) :
  match_one max_search_km (key, d0) assigned g =
  let d := match get_donation (repo g) key with Some d => d | None => d0 end in
  match truthy_dict (Donation.location d) with
  | None => (Ok assigned, g)
  | Some location =>
      match coordinate location 1 with
      | Raise e => (Raise e, g)
      | Ok d_lat =>
          match coordinate location 0 with
          | Raise e => (Raise e, g)
          | Ok d_lon =>
              match candidates_of (Donation.total_weight_kg d) d_lat d_lon max_search_km
                      (list_recipients (repo g)) with
              | Raise e => (Raise e, g)
              | Ok cands =>
                  match sort_by_key cands with
                  | [] => (Ok assigned, g)
                  | (_, (rkey, chosen)) :: _ => match_chosen key d rkey chosen assigned g
                  end
              end
          end
      end
  end.
Proof.
  unfold match_one, bind, gets, ret, lift. cbv zeta.
  destruct (truthy_dict _) as [location|]; [|reflexivity].
  destruct (coordinate location 1) as [d_lat|]; [|reflexivity].
  destruct (coordinate location 0) as [d_lon|]; [|reflexivity].
  destruct (candidates_of _ _ _ _ _) as [[|c cs]|]; [reflexivity| |reflexivity].
  destruct (sort_by_key (c :: cs)) as [|[dist [rkey chosen]] rest] eqn:Hs; [|reflexivity].
  apply sort_by_key_nil in Hs. discriminate.
Qed.

(** The tail of the loop body on well-formed repositories: the recipient
    is recorded on the donation, then the state machine is called; if that
    call returns, the capacity is decremented and the pair reported, and
    if it raises, the step raises with the recipients untouched. *)
Lemma match_chosen_wf (key : string) (d : Donation.t F) (rkey : string)
  (chosen : Recipient.t F) (assigned : list (string * string)) (g : Globals F) :
  repo_wf (repo g) ->
  get_donation (repo g) key = Some d ->
  In (rkey, chosen) (recipients (repo g)) ->
  let d' := Donation.set_matched_recipient_id d (Some rkey) in
  let r1 := with_donations (repo g) (Dict.set (donations (repo g)) key d') in
  let chosen' :=
    Recipient.set_capacity_kg chosen
      (f_sub (Recipient.capacity_kg chosen) (Donation.total_weight_kg d)) in
  match_chosen key d rkey chosen assigned g =
    match state_machine.transition_state key MATCHED None (Some "auto-match")
            (state_machine_repo g) with
    | (Raise e, s') => (Raise e, mkGlobals r1 s')
    | (Ok _, s') =>
        (Ok (assigned ++ [(key, rkey)]),
         mkGlobals (with_recipients r1 (Dict.set (recipients (repo g)) rkey chosen')) s')
    end.
Proof.
  intros [Hwd Hwr] Hd Hin d' r1 chosen'.
  assert (Hid : Donation.id d = key) by (apply Hwd; now apply dict_get_in).
  assert (Hrid : Recipient.id chosen = rkey) by now apply Hwr.
  unfold match_chosen, bind, ret. cbv zeta.
  unfold on_repo, assign_donation, assign_recipient, modify, transition_state,
    on_state_machine. simpl.
  rewrite Hid, Hrid. fold d'.
  destruct (state_machine.transition_state key MATCHED None (Some "auto-match")
              (state_machine_repo g)) as [[sd|e] s']; simpl; [|reflexivity].
  unfold update_donation. simpl. rewrite Hid.
  unfold Dict.mem at 1. rewrite dict_get_set_same. simpl.
  unfold update_recipient. simpl. rewrite Hrid.
  unfold Dict.mem. rewrite dict_get_set_same. simpl.
  rewrite !dict_set_set. reflexivity.
Qed.

(** One step of the loop on well-formed repositories: the donation is
    skipped, or reading a location or computing a distance raises before
    anything is written, or a recipient is chosen. *)
Lemma match_one_cases (max_search_km : F) (key : string) (d0 d : Donation.t F)
  (assigned : list (string * string)) (g : Globals F) :
  repo_wf (repo g) ->
  get_donation (repo g) key = Some d ->
  match_one max_search_km (key, d0) assigned g = (Ok assigned, g) \/
  (exists e, is_location_error e = true /\
             match_one max_search_km (key, d0) assigned g = (Raise e, g)) \/
  (exists location d_lat d_lon cands dist rkey chosen rest,
     truthy_dict (Donation.location d) = Some location /\
     coordinate location 1 = Ok d_lat /\ coordinate location 0 = Ok d_lon /\
     candidates_of (Donation.total_weight_kg d) d_lat d_lon max_search_km
       (list_recipients (repo g)) = Ok cands /\
     sort_by_key cands = (dist, (rkey, chosen)) :: rest /\
     In (rkey, chosen) (recipients (repo g)) /\
     eligible (Donation.total_weight_kg d) d_lat d_lon max_search_km chosen dist /\
     let d' := Donation.set_matched_recipient_id d (Some rkey) in
     let r1 := with_donations (repo g) (Dict.set (donations (repo g)) key d') in
     let chosen' :=
       Recipient.set_capacity_kg chosen
         (f_sub (Recipient.capacity_kg chosen) (Donation.total_weight_kg d)) in
     match_one max_search_km (key, d0) assigned g =
       match state_machine.transition_state key MATCHED None (Some "auto-match")
               (state_machine_repo g) with
       | (Raise e, s') => (Raise e, mkGlobals r1 s')
       | (Ok _, s') =>
           (Ok (assigned ++ [(key, rkey)]),
            mkGlobals (with_recipients r1 (Dict.set (recipients (repo g)) rkey chosen')) s')
       end).
Proof.
  intros Hwf Hd. rewrite match_one_eq, Hd. cbv zeta.
  destruct (truthy_dict (Donation.location d)) as [location|] eqn:Ht; [|now left].
  destruct (coordinate location 1) as [d_lat|e] eqn:Hlat.
  2:{ right. left. exists e. split; [now apply coordinate_raises in Hlat|reflexivity]. }
  destruct (coordinate location 0) as [d_lon|e] eqn:Hlon.
  2:{ right. left. exists e. split; [now apply coordinate_raises in Hlon|reflexivity]. }
  destruct (candidates_of (Donation.total_weight_kg d) d_lat d_lon max_search_km
              (list_recipients (repo g))) as [cands|e] eqn:Hc.
  2:{ right. left. exists e. split; [now apply candidates_of_raises in Hc|reflexivity]. }
  destruct (sort_by_key cands) as [|[dist [rkey chosen]] rest] eqn:Hs; [now left|].
  right. right.
  assert (Hin : In (dist, (rkey, chosen)) cands) by (apply sort_by_key_in; rewrite Hs; now left).
  destruct (candidates_of_in _ _ _ _ _ _ _ _ _ Hc Hin) as (Hrin & Hel).
  exists location, d_lat, d_lon, cands, dist, rkey, chosen, rest.
  repeat (split; [assumption || reflexivity|]).
  now apply match_chosen_wf.
Qed.

Lemma capacities_nonneg_set (r : InMemoryRepo F) (k : string) (x : Recipient.t F) :
  capacities_nonneg r ->
  f_le f_zero (Recipient.capacity_kg x) = true ->
  capacities_nonneg (with_recipients r (Dict.set (recipients r) k x)).
Proof.
  intros Hr Hx k' x' Hin. simpl in Hin. apply dict_in_set in Hin.
  destruct Hin as [Hin|[_ ->]]; eauto.
Qed.

Lemma weights_subtract_set (r : InMemoryRepo F) (k : string) (d : Donation.t F) :
  weights_subtract r ->
  weight_subtracts (Donation.total_weight_kg d) ->
  weights_subtract (with_donations r (Dict.set (donations r) k d)).
Proof.
  intros Hr Hd k' d' Hin. simpl in Hin. apply dict_in_set in Hin.
  destruct Hin as [Hin|[_ ->]]; eauto.
Qed.

(** The tail of the loop body keeps the capacities non-negative, whatever
    the repositories are and whatever its outcome is. *)
Lemma match_chosen_capacities (key : string) (d : Donation.t F) (rkey : string)
  (chosen : Recipient.t F) (assigned : list (string * string)) (g : Globals F) :
  capacities_nonneg (repo g) -> weights_subtract (repo g) ->
  weight_subtracts (Donation.total_weight_kg d) ->
  f_le f_zero (Recipient.capacity_kg chosen) = true ->
  f_le (Donation.total_weight_kg d) (Recipient.capacity_kg chosen) = true ->
  capacities_nonneg (repo (snd (match_chosen key d rkey chosen assigned g))) /\
  weights_subtract (repo (snd (match_chosen key d rkey chosen assigned g))).
Proof.
  intros Hc Hw Hd Hpos Hcap.
  assert (Hnew : f_le f_zero (f_sub (Recipient.capacity_kg chosen) (Donation.total_weight_kg d))
                 = true) by now apply Hd.
  set (d' := Donation.set_matched_recipient_id d (Some (Recipient.id chosen))).
  assert (Hw1 : weights_subtract
                  (with_donations (repo g) (Dict.set (donations (repo g)) key d'))).
  { now apply weights_subtract_set. }
  unfold match_chosen, bind, ret. cbv zeta. fold d'.
  unfold on_repo, assign_donation, assign_recipient, modify, transition_state,
    on_state_machine. simpl.
  destruct (state_machine.transition_state _ _ _ _ _) as [[sd|e] s']; simpl;
    [|split; assumption].
  unfold update_donation. simpl.
  destruct (negb (Dict.mem _ _)); simpl; [split; assumption|].
  assert (Hw2 : weights_subtract
                  (with_donations
                     (with_donations (repo g) (Dict.set (donations (repo g)) key d'))
                     (Dict.set (Dict.set (donations (repo g)) key d') (Donation.id d) d'))).
  { apply (weights_subtract_set
             (with_donations (repo g) (Dict.set (donations (repo g)) key d'))
             (Donation.id d) d' Hw1). exact Hd. }
  unfold update_recipient. simpl.
  destruct (negb (Dict.mem _ _)); simpl.
  - split; [|exact Hw2].
    intros k x Hin. simpl in Hin. apply dict_in_set in Hin.
    destruct Hin as [Hin|[_ ->]]; eauto.
  - split; [|exact Hw2].
    intros k x Hin. simpl in Hin. apply dict_in_set in Hin.
    destruct Hin as [Hin|[_ ->]]; auto.
    apply dict_in_set in Hin. destruct Hin as [Hin|[_ ->]]; eauto.
Qed.

Lemma match_one_capacities (max_search_km : F) (kd : string * Donation.t F)
  (assigned : list (string * string)) (g : Globals F) :
  capacities_nonneg (repo g) -> weights_subtract (repo g) ->
  weight_subtracts (Donation.total_weight_kg (snd kd)) ->
  capacities_nonneg (repo (snd (match_one max_search_km kd assigned g))) /\
  weights_subtract (repo (snd (match_one max_search_km kd assigned g))).
Proof.
  intros Hc Hw Hd0. destruct kd as [key d0]. rewrite match_one_eq. cbv zeta.
  set (d := match get_donation (repo g) key with Some d => d | None => d0 end).
  assert (Hd : weight_subtracts (Donation.total_weight_kg d)).
  { unfold d. destruct (get_donation (repo g) key) as [d1|] eqn:E; [|exact Hd0].
    apply (Hw key). now apply dict_get_in. }
  destruct (truthy_dict (Donation.location d)) as [location|]; [|auto].
  destruct (coordinate location 1) as [d_lat|]; [|auto].
  destruct (coordinate location 0) as [d_lon|]; [|auto].
  destruct (candidates_of (Donation.total_weight_kg d) d_lat d_lon max_search_km
              (list_recipients (repo g))) as [cands|] eqn:Hcands; [|auto].
  destruct (sort_by_key cands) as [|[dist [rkey chosen]] rest] eqn:Hs; [auto|].
  assert (Hin : In (dist, (rkey, chosen)) cands) by (apply sort_by_key_in; rewrite Hs; now left).
  destruct (candidates_of_in _ _ _ _ _ _ _ _ _ Hcands Hin) as (Hrin & Hcap & _).
  apply match_chosen_capacities; auto. now apply (Hc rkey).
Qed.

Lemma match_loop_capacities (max_search_km : F) (ds : list (string * Donation.t F))
  (assigned : list (string * string)) (g : Globals F) :
  capacities_nonneg (repo g) -> weights_subtract (repo g) ->
  (forall kd, In kd ds -> weight_subtracts (Donation.total_weight_kg (snd kd))) ->
  capacities_nonneg (repo (snd (match_loop max_search_km ds assigned g))).
Proof.
  revert assigned g. induction ds as [|kd ds IH]; intros assigned g Hc Hw Hds; simpl; auto.
  unfold bind.
  destruct (match_one_capacities max_search_km kd assigned g Hc Hw) as (Hc1 & Hw1).
  { apply Hds. now left. }
  destruct (match_one max_search_km kd assigned g) as [[assigned'|e] g']; simpl in *; auto.
Qed.

(** Capacities stay non-negative over a matching run, whatever the numbers
    are, if no donation has a weight whose subtraction from a capacity that
    can take it gives less than zero; and the recipient picked for a
    donation has a remaining capacity of at least the donation's total
    weight. *)
Lemma greedy_match_local_capacities (max_search_km : F) (g : Globals F) :
  capacities_nonneg (repo g) ->
  weights_subtract (repo g) ->
  capacities_nonneg (repo (snd (greedy_match_local max_search_km g))) /\
  (forall need d_lat d_lon rs cands dist k x rest,
     candidates_of need d_lat d_lon max_search_km rs = Ok cands ->
     sort_by_key cands = (dist, (k, x)) :: rest ->
     f_le need (Recipient.capacity_kg x) = true).
Proof.
  intros Hc Hw. split.
  - unfold greedy_match_local, bind, gets. apply match_loop_capacities; auto.
    intros [k d] Hin. unfold list_open_donations in Hin. apply filter_In in Hin.
    apply (Hw k). apply Hin.
  - intros need d_lat d_lon rs cands dist k x rest Hcands Hs.
    assert (Hin : In (dist, (k, x)) cands) by (apply sort_by_key_in; rewrite Hs; now left).
    now destruct (candidates_of_in _ _ _ _ _ _ _ _ _ Hcands Hin) as (_ & Hcap & _).
Qed.

End MatchingFacts.
(** ** Subtraction of binary64 numbers

    [x - y] is not below zero when [0.0 <= x], [y <= x] and [y] is not
    [+inf]: the exact difference of two finite numbers is not negative and
    rounding keeps its sign, and the other cases are those of the IEEE 754
    table, of which [inf - inf], a NaN, is the one left out. *)

Section Binary64Subtraction.
Import SpecFloat.

Local Abbreviation prec := FloatOps.prec.
Local Abbreviation emax := FloatOps.emax.

Lemma digits2_pos_lt (p q : positive) :
  (digits2_pos p < digits2_pos q)%positive -> (p < q)%positive.
Proof.
  revert q. induction p as [p IH|p IH|]; intros [q|q|]; cbn [digits2_pos]; intros Hd;
    try lia; try (apply Pos.succ_lt_mono in Hd; specialize (IH q Hd); lia).
Qed.

Lemma iter_xO_ge (m d : positive) : (xO m <= Pos.iter xO m d)%positive.
Proof.
  induction d as [|d IH] using Pos.peano_ind.
  - cbn. lia.
  - rewrite Pos.iter_succ. lia.
Qed.

Lemma shr_1_nonneg (mrs : shr_record) : (0 <= shr_m mrs)%Z -> (0 <= shr_m (shr_1 mrs))%Z.
Proof.
  destruct mrs as [m r s]. cbn [shr_m]. unfold shr_1.
  destruct m as [|[p|p|]|[p|p|]]; cbn [shr_m]; lia.
Qed.

Lemma iter_pos_shr_1_nonneg (p : positive) (mrs : shr_record) :
  (0 <= shr_m mrs)%Z -> (0 <= shr_m (iter_pos shr_1 p mrs))%Z.
Proof.
  revert mrs. induction p as [p IH|p IH|]; intros mrs H; cbn [iter_pos].
  - apply IH, IH. now apply shr_1_nonneg.
  - apply IH, IH. exact H.
  - now apply shr_1_nonneg.
Qed.

Lemma shr_fexp_nonneg (m e : Z) (l : location) :
  (0 <= m)%Z -> (0 <= shr_m (fst (shr_fexp prec emax m e l)))%Z.
Proof.
  intros Hm. unfold shr_fexp, shr.
  assert (H0 : (0 <= shr_m (shr_record_of_loc m l))%Z).
  { destruct l as [|[| |]]; exact Hm. }
  destruct (_ - e)%Z; cbn [fst]; auto. now apply iter_pos_shr_1_nonneg.
Qed.

Lemma round_nearest_even_nonneg (m : Z) (l : location) :
  (0 <= m)%Z -> (0 <= round_nearest_even m l)%Z.
Proof.
  intros Hm. unfold round_nearest_even.
  destruct l as [|[| |]]; try lia. destruct (Z.even m); lia.
Qed.

Lemma binary_round_aux_nonneg (m e : Z) (l : location) :
  (0 <= m)%Z -> SFleb (S754_zero false) (binary_round_aux prec emax false m e l) = true.
Proof.
  intros Hm. unfold binary_round_aux.
  pose proof (shr_fexp_nonneg m e l Hm) as H1.
  destruct (shr_fexp prec emax m e l) as [mrs' e']. cbn [fst] in H1.
  pose proof (shr_fexp_nonneg _ e' loc_Exact
                (round_nearest_even_nonneg _ (loc_of_shr_record mrs') H1)) as H2.
  destruct (shr_fexp prec emax _ e' loc_Exact) as [mrs'' e'']. cbn [fst] in H2.
  destruct (shr_m mrs'') as [|p|p]; [reflexivity| |lia].
  destruct (Z.leb e'' _); reflexivity.
Qed.

Lemma binary_normalize_nonneg (m e : Z) :
  (0 <= m)%Z -> SFleb (S754_zero false) (binary_normalize prec emax m e false) = true.
Proof.
  intros Hm. destruct m as [|p|p]; [reflexivity| |lia].
  cbn [binary_normalize]. unfold binary_round.
  destruct (shl_align _ _ _) as [mz ez]. apply binary_round_aux_nonneg. lia.
Qed.

Lemma bounded_digits (m : positive) (e : Z) :
  bounded prec emax m e = true ->
  (Zpos (digits2_pos m) <= prec)%Z /\ (emin prec emax <= e)%Z /\
  ((emin prec emax < e)%Z -> Zpos (digits2_pos m) = prec).
Proof.
  unfold bounded, canonical_mantissa, fexp. intros H.
  apply andb_prop in H. destruct H as [H _]. apply Z.eqb_eq in H. lia.
Qed.

Lemma SFsub_nonneg (x y : spec_float) :
  valid_binary prec emax x = true -> valid_binary prec emax y = true ->
  SFleb (S754_zero false) x = true -> SFleb y x = true -> y <> S754_infinity false ->
  SFleb (S754_zero false) (SFsub prec emax x y) = true.
Proof.
  destruct x as [sx|sx| |sx mx ex]; destruct y as [sy|sy| |sy my ey];
    cbn [valid_binary]; intros Hx Hy H0 Hle Hinf;
    try discriminate; try (destruct sx; destruct sy; (discriminate || reflexivity || congruence)).
  all: destruct sx; try discriminate; destruct sy; try discriminate.
  - cbn [SFsub]. apply binary_normalize_nonneg. unfold cond_Zopp. lia.
  - cbn [SFsub]. apply binary_normalize_nonneg. unfold cond_Zopp.
    match goal with |- (0 <= ?f ?a ?b)%Z => change (0 <= a - b)%Z end.
    unfold SFleb, SFcompare in Hle.
    destruct (bounded_digits mx ex Hx) as (Hdx & Hex & Hfx).
    destruct (bounded_digits my ey Hy) as (Hdy & Hey & Hfy).
    destruct (Z.compare ey ex) eqn:Hc; [| |discriminate].
    + apply Z.compare_eq in Hc. subst ey. rewrite Z.min_id.
      unfold shl_align. rewrite Z.sub_diag. cbn [fst].
      change (Pos.compare_cont Eq my mx) with (Pos.compare my mx) in Hle.
      destruct (Pos.compare my mx) eqn:Hm; [| |discriminate].
      * apply Pos.compare_eq in Hm. clear - Hm. lia.
      * change (my < mx)%positive in Hm. clear - Hm. lia.
    + rewrite Z.compare_lt_iff in Hc. rewrite Z.min_r by (clear - Hc; lia).
      unfold shl_align. rewrite Z.sub_diag. cbn [fst].
      destruct (ey - ex)%Z as [|d|d] eqn:Hd; [clear - Hc Hd; lia|clear - Hc Hd; lia|]. cbn [fst].
      pose proof (iter_xO_ge mx d) as Hge.
      assert (Hlt : (my < xO mx)%positive).
      { apply digits2_pos_lt. cbn [digits2_pos].
        assert (Hp : Zpos (digits2_pos mx) = prec) by (apply Hfx; clear - Hc Hey; lia).
        clear - Hp Hdy. lia. }
      clear - Hge Hlt. lia.
Qed.

Lemma binary64_sub_nonneg (c w : PrimFloat.float) :
  PrimFloat.leb PrimFloat.zero c = true ->
  PrimFloat.leb w c = true ->
  w <> PrimFloat.infinity ->
  PrimFloat.leb PrimFloat.zero (PrimFloat.sub c w) = true.
Proof.
  rewrite !FloatAxioms.leb_spec, FloatAxioms.sub_spec.
  change (FloatOps.Prim2SF PrimFloat.zero) with (S754_zero false).
  intros H0 Hle Hinf.
  apply SFsub_nonneg; auto using FloatAxioms.Prim2SF_valid.
  intros E. apply Hinf. rewrite <- (FloatAxioms.SF2Prim_Prim2SF w), E. reflexivity.
Qed.

End Binary64Subtraction.


(** C5 (as amended): if every recipient's remaining capacity is
    non-negative before a matching run and no donation weighs [+inf], then
    every capacity is non-negative after the run, whatever the search
    radius, whatever [haversine_distance] computes or raises and whether the
    run returns or raises; and the recipient the engine picks for a donation
    always has a remaining capacity of at least the donation's total
    weight. *)
Theorem greedy_match_local_capacities_nonneg
    (distance : PrimFloat.float -> PrimFloat.float -> PrimFloat.float -> PrimFloat.float ->
                PrimFloat.float + math_error)
    (max_search_km : PrimFloat.float) (g : api_app.Globals PrimFloat.float) :
  @capacities_nonneg _ (python_floats distance) (api_app.repo g) ->
  no_infinite_weight (api_app.repo g) ->
  @capacities_nonneg _ (python_floats distance)
    (api_app.repo (snd (@api_app.greedy_match_local _ (python_floats distance) max_search_km g))) /\
  (forall need d_lat d_lon rs cands dist k x rest,
     @api_app.candidates_of _ (python_floats distance) need d_lat d_lon max_search_km rs =
       Ok cands ->
     @api_app.sort_by_key _ (python_floats distance) _ cands = (dist, (k, x)) :: rest ->
     PrimFloat.leb need (models_repo.Recipient.capacity_kg x) = true).
Proof.
  intros Hc Hw.
  apply (@greedy_match_local_capacities _ (python_floats distance) max_search_km g Hc).
  intros k d Hin c H0 Hle. apply binary64_sub_nonneg; auto. exact (Hw k d Hin).
Qed.

Lemma g_float_capacities : capacities_nonneg (api_app.repo g_float).
Proof. intros k x [E|[]]. injection E as <- <-. reflexivity. Defined.

Lemma g_float_weights : no_infinite_weight (api_app.repo g_float).
Proof.
  intros k d [E|[]]. injection E as <- <-. intros E.
  apply (f_equal (fun w => PrimFloat.eqb w PrimFloat.infinity)) in E.
  vm_compute in E. discriminate E.
Defined.

(** The run on a sample repository: the recipient's [2.0] become [1.0]. *)
Lemma greedy_match_local_capacities_nonneg_witness :
  capacities_nonneg (api_app.repo (snd (api_app.greedy_match_local PrimFloat.one g_float))) /\
  (forall need d_lat d_lon rs cands dist k x rest,
     api_app.candidates_of need d_lat d_lon PrimFloat.one rs = Ok cands ->
     api_app.sort_by_key cands = (dist, (k, x)) :: rest ->
     PrimFloat.leb need (models_repo.Recipient.capacity_kg x) = true).
Proof.
  apply (greedy_match_local_capacities_nonneg _ PrimFloat.one g_float).
  - exact g_float_capacities.
  - exact g_float_weights.
Defined.

(** C5 as stated fails for a donation that weighs [inf]: the recipient's
    capacity [inf] is non-negative and is not smaller than the weight, the
    run assigns the donation to it, and the capacity left, [inf - inf], is
    NaN, which is not [>= 0.0]. *)
Lemma greedy_match_local_capacity_nan :
  capacities_nonneg (api_app.repo g_inf) /\
  f_le (models_repo.Donation.total_weight_kg inf_donation)
       (models_repo.Recipient.capacity_kg inf_recipient) = true /\
  fst (api_app.greedy_match_local PrimFloat.one g_inf) = Ok [("d1", "r1")] /\
  option_map models_repo.Recipient.capacity_kg
    (models_repo.get_recipient
       (api_app.repo (snd (api_app.greedy_match_local PrimFloat.one g_inf))) "r1") =
    Some PrimFloat.nan /\
  f_le f_zero PrimFloat.nan = false /\
  ~ capacities_nonneg (api_app.repo (snd (api_app.greedy_match_local PrimFloat.one g_inf))).
Proof.
  split.
  { intros k x [E|[]]. injection E as <- <-. reflexivity. }
  do 4 (split; [vm_compute; reflexivity|]).
  intros Hc.
  specialize (Hc "r1" (models_repo.Recipient.set_capacity_kg inf_recipient PrimFloat.nan)).
  assert (Hin : In ("r1", models_repo.Recipient.set_capacity_kg inf_recipient PrimFloat.nan)
                  (models_repo.recipients
                     (api_app.repo (snd (api_app.greedy_match_local PrimFloat.one g_inf))))).
  { vm_compute. left. reflexivity. }
  apply Hc in Hin. vm_compute in Hin. discriminate Hin.
Qed.

(** ** One step of the matching loop *)

Section MatchStep.
Import models_repo api_app.
Context {F : Type} `{FloatOps F}.

(** X25: one step of the matching loop, for a stored donation, on
    well-formed repositories.  If the step raises, either a location could
    not be read or a distance not computed, before anything was written, or
    it is the call of the state machine that raised: then nothing was
    written to the
    state machine's repository, no capacity changed, and the run raises
    without an assignment list.  If the step returns, either the donation
    was skipped and nothing changed, or the state machine's repository
    holds the donation as matched, the chosen recipient's capacity went
    down by the donation's weight and the pair is the last one of the
    assignment list. *)
Theorem match_one_outcomes (max_search_km : F) (key : string) (d0 d : Donation.t F)
  (assigned : list (string * string)) (g : Globals F) :
  repo_wf (repo g) ->
  sm_repo_wf (state_machine_repo g) ->
  get_donation (repo g) key = Some d ->
  match match_one max_search_km (key, d0) assigned g with
  | (Raise e, g') =>
      (is_location_error e = true /\ g' = g \/
       fst (transition_state key MATCHED None (Some "auto-match") g) = Raise e /\
       state_machine_repo g' = state_machine_repo g /\
       recipients (repo g') = recipients (repo g)) /\
      forall ds, match_loop max_search_km ((key, d0) :: ds) assigned g = (Raise e, g')
  | (Ok assigned', g') =>
      (assigned' = assigned /\ g' = g) \/
      (exists rkey chosen,
         In (rkey, chosen) (recipients (repo g)) /\
         assigned' = assigned ++ [(key, rkey)] /\
         (exists sd,
            state_machine.get_donation (state_machine_repo g') key = Some sd /\
            state_machine.state sd = MATCHED) /\
         get_recipient (repo g') rkey =
           Some (Recipient.set_capacity_kg chosen
                   (f_sub (Recipient.capacity_kg chosen) (Donation.total_weight_kg d))))
  end.
Proof.
  intros Hwf Hsm Hd.
  assert (Hloop : forall ds e g',
            match_one max_search_km (key, d0) assigned g = (Raise e, g') ->
            match_loop max_search_km ((key, d0) :: ds) assigned g = (Raise e, g')).
  { intros ds e g' Hone. cbn [match_loop]. unfold bind. now rewrite Hone. }
  destruct (match_one_cases max_search_km key d0 d assigned g Hwf Hd)
    as [Hskip|[(e & He & Hraise)|Hchosen]].
  - rewrite Hskip. now left.
  - rewrite Hraise. split; [now left|]. intros ds. now apply Hloop.
  - destruct Hchosen as (location & d_lat & d_lon & cands & dist & rkey & chosen & rest &
                         _ & _ & _ & _ & _ & Hin & _ & Hstep).
    cbv zeta in Hstep.
    destruct (match_one max_search_km (key, d0) assigned g) as [[assigned'|e] g'] eqn:Hone.
    + right. exists rkey, chosen.
      destruct (state_machine.transition_state key MATCHED None (Some "auto-match")
                  (state_machine_repo g)) as [[sd|e] s'] eqn:Hts; [|discriminate].
      injection Hstep as -> ->.
      apply transition_state_ok_cases in Hts; auto.
      destruct Hts as (_ & Hget & Hstate & _).
      split; [exact Hin|]. split; [reflexivity|]. split; [exists sd; auto|].
      unfold get_recipient. simpl. apply dict_get_set_same.
    + split; [|intros ds; now apply Hloop]. right.
      unfold transition_state, on_state_machine.
      destruct (state_machine.transition_state key MATCHED None (Some "auto-match")
                  (state_machine_repo g)) as [[sd|e'] s'] eqn:Hts; [discriminate|].
      injection Hstep as -> ->.
      apply transition_state_raise_no_actor in Hts; auto. destruct Hts as (-> & _).
      repeat split.
Qed.

End MatchStep.

Lemma g_known_wf : repo_wf (api_app.repo g_known) /\ sm_repo_wf (api_app.state_machine_repo g_known).
Proof.
  split; [split|].
  - intros k d [E|[]]. now injection E as <- <-.
  - intros k x [E|[]]. now injection E as <- <-.
  - intros k d [E|[E|[]]]; now injection E as <- <-.
Defined.

(** C6 on the code: the state a first matching run leaves behind.  The
    state machine's repository holds the donation as matched, api_app's
    repository still lists it as open.  The step of the loop for it chooses
    the recipient again: the call of the state machine is the idempotent
    one, no donation changes state in either repository, and yet the pair
    is reported and the recipient's capacity goes from 95 to 90. *)
Theorem match_one_decrements_without_transition :
  option_map state_machine.state
    (state_machine.get_donation (api_app.state_machine_repo g_matched) "d1") = Some MATCHED /\
  models_repo.list_open_donations (api_app.repo g_matched) =
    [("d1", models_repo.Donation.set_matched_recipient_id match_donation (Some "r1"))] /\
  option_map models_repo.Recipient.capacity_kg
    (models_repo.get_recipient (api_app.repo g_matched) "r1") = Some 95%Z /\
  (let kd := ("d1", models_repo.Donation.set_matched_recipient_id match_donation (Some "r1")) in
   let g' := snd (api_app.match_one 10%Z kd [] g_matched) in
   fst (api_app.match_one 10%Z kd [] g_matched) = Ok [("d1", "r1")] /\
   state_machine.donations (api_app.state_machine_repo g') =
     state_machine.donations (api_app.state_machine_repo g_matched) /\
   models_repo.donations (api_app.repo g') = models_repo.donations (api_app.repo g_matched) /\
   option_map models_repo.Recipient.capacity_kg
     (models_repo.get_recipient (api_app.repo g') "r1") = Some 90%Z).
Proof. repeat split; reflexivity. Qed.

(** ** Two repositories *)

Section TwoRepositories.
Import models_repo api_app.
Context {F : Type} `{FloatOps F}.

(** The imported [transition_state] reads and writes [state_machine.repo]
    only. *)
Lemma transition_state_keeps_repo (did : string) (to : DonationState)
  (actor notes : option string) (g : Globals F) :
  repo (snd (transition_state did to actor notes g)) = repo g.
Proof.
  unfold transition_state, on_state_machine.
  now destruct (state_machine.transition_state did to actor notes (state_machine_repo g)).
Qed.

(** C9: [transition_state] as imported by api_app works on the state
    machine's own repository and never touches api_app's.  For a donation
    that api_app's repository stores under its id and the state machine's
    repository does not know, every call raises the donation-not-found
    error and changes nothing; so the matching step for such a donation
    raises that error as soon as the donation has a candidate, and with it
    the whole matching run. *)
Theorem transition_state_unknown_to_state_machine (key : string) (d : Donation.t F)
  (g : Globals F) :
  get_donation (repo g) key = Some d ->
  Donation.id d = key ->
  state_machine.get_donation (state_machine_repo g) key = None ->
  (forall to actor notes,
     transition_state key to actor notes g = (Raise ValueError_DonationNotFound, g)) /\
  (forall did to actor notes (g0 : Globals F),
     repo (snd (transition_state did to actor notes g0)) = repo g0) /\
  (forall max_search_km d0 assigned location d_lat d_lon cands,
     truthy_dict (Donation.location d) = Some location ->
     coordinate location 1 = Ok d_lat ->
     coordinate location 0 = Ok d_lon ->
     candidates_of (Donation.total_weight_kg d) d_lat d_lon max_search_km
       (list_recipients (repo g)) = Ok cands ->
     cands <> [] ->
     fst (match_one max_search_km (key, d0) assigned g) = Raise ValueError_DonationNotFound /\
     forall ds,
       fst (match_loop max_search_km ((key, d0) :: ds) assigned g) =
       Raise ValueError_DonationNotFound).
Proof.
  intros Hd Hid Hsm.
  assert (Hts : forall to actor notes (r : InMemoryRepo F),
            transition_state key to actor notes (mkGlobals r (state_machine_repo g)) =
            (Raise ValueError_DonationNotFound, mkGlobals r (state_machine_repo g))).
  { intros to actor notes r. unfold transition_state, on_state_machine. simpl.
    now rewrite (transition_state_not_found _ _ _ _ _ Hsm). }
  split; [|split].
  - intros to actor notes. destruct g as [r s]. apply Hts.
  - intros. apply transition_state_keeps_repo.
  - intros max_search_km d0 assigned location d_lat d_lon cands Hloc Hlat Hlon Hcands Hne.
    assert (Hstep : fst (match_one max_search_km (key, d0) assigned g) =
                    Raise ValueError_DonationNotFound).
    { rewrite match_one_eq, Hd. cbv zeta. rewrite Hloc, Hlat, Hlon, Hcands.
      destruct (sort_by_key cands) as [|[dist [rkey chosen]] rest] eqn:Hs.
      { apply sort_by_key_nil in Hs. contradiction. }
      unfold match_chosen, bind. cbv zeta.
      unfold on_repo, assign_donation, modify. simpl. rewrite Hid.
      now rewrite Hts. }
    split; [exact Hstep|].
    intros ds. cbn [match_loop]. unfold bind.
    destruct (match_one max_search_km (key, d0) assigned g) as [[a|e] g']; simpl in *;
      congruence.
Qed.

End TwoRepositories.

(** ** Pickup planning ([api_app.plan_pickup]) *)

Section PickupFacts.
Import models_repo api_app.
Context {F : Type} `{FloatOps F}.

Lemma for_each_app {S A : Type} (xs ys : list A) (body : A -> M S unit) (s : S) :
  for_each (xs ++ ys) body s =
  match for_each xs body s with
  | (Ok _, s') => for_each ys body s'
  | (Raise e, s') => (Raise e, s')
  end.
Proof.
  revert s. induction xs as [|x xs IH]; intros s; simpl; [reflexivity|].
  unfold bind. destruct (body x s) as [[[]|e] s']; auto.
Qed.

Lemma collect_points_known (r : InMemoryRepo F) (ids : list string) (points : list point) :
  collect_points r ids = Ok points ->
  forall x, In x ids ->
    exists d, get_donation r x = Some d /\ readable_location (Donation.location d).
Proof.
  revert points. induction ids as [|did ids IH]; intros points; simpl; [tauto|].
  destruct (get_donation r did) as [d|] eqn:Hd; [|discriminate].
  destruct (truthy_dict (Donation.location d)) as [location|] eqn:Ht; [|discriminate].
  unfold rbind.
  destruct (coordinate location 1) as [lat|] eqn:Hlat; [|discriminate].
  destruct (coordinate location 0) as [lon|] eqn:Hlon; [|discriminate].
  destruct (collect_points r ids) as [ps|e]; [|discriminate].
  intros _ x [<-|Hin]; [|eauto].
  exists d. split; [exact Hd|]. exists location, lat, lon. auto.
Qed.

(** A route was planned: the volunteer is stored with a location whose
    coordinates can be read, and so is every donation. *)
Lemma plan_route_local_known (r : InMemoryRepo F) (vid : string) (ids : list string)
  (ordered : list (F * F)) :
  plan_route_local r vid ids = Ok ordered ->
  (exists v, get_user r vid = Some v /\ readable_location (User.location v)) /\
  forall x, In x ids ->
    exists d, get_donation r x = Some d /\ readable_location (Donation.location d).
Proof.
  unfold plan_route_local.
  destruct (get_user r vid) as [v|]; [|discriminate].
  destruct (truthy_dict (User.location v)) as [location|] eqn:Ht; [|discriminate].
  unfold rbind.
  destruct (coordinate location 1) as [lat|] eqn:Hlat; [|discriminate].
  destruct (coordinate location 0) as [lon|] eqn:Hlon; [|discriminate].
  destruct (collect_points r ids) as [points|e] eqn:Hc; [|discriminate].
  intros _. split.
  - exists v. split; [reflexivity|]. exists location, lat, lon. auto.
  - now apply collect_points_known with points.
Qed.

(** The body of the scheduling loop, when it returns. *)
Lemma schedule_one_ok (vid pid did : string) (g g' : Globals F) :
  repo_wf (repo g) -> sm_repo_wf (state_machine_repo g) ->
  schedule_one vid pid did g = (Ok tt, g') ->
  repo_wf (repo g') /\ sm_repo_wf (state_machine_repo g') /\
  pickups (repo g') = pickups (repo g) /\
  users (repo g') = users (repo g) /\
  state_machine.users (state_machine_repo g') = state_machine.users (state_machine_repo g) /\
  scheduled_for pid did g' /\
  (forall x, x <> did ->
     get_donation (repo g') x = get_donation (repo g) x /\
     state_machine.get_donation (state_machine_repo g') x =
     state_machine.get_donation (state_machine_repo g) x).
Proof.
  intros [Hwd Hwr] Hsm. unfold schedule_one, bind, gets, ret, raise.
  destruct (get_donation (repo g) did) as [d|] eqn:Hd; [|discriminate].
  assert (Hid : Donation.id d = did) by (apply Hwd; now apply dict_get_in).
  rewrite Hid. unfold transition_state, on_state_machine.
  destruct (state_machine.transition_state did PICKUP_SCHEDULED (Some vid) _
              (state_machine_repo g)) as [[sd|e] s'] eqn:Hts; [|discriminate].
  apply transition_state_ok_cases in Hts; auto.
  destruct Hts as (Hsm' & Hget & Hstate & Husers & Hother & _).
  unfold on_repo, assign_donation, modify, update_donation. simpl. rewrite Hid.
  unfold Dict.mem. rewrite dict_get_set_same. simpl. rewrite dict_set_set.
  intros [= <-]. simpl. repeat split; auto.
  - intros k d'. apply dict_set_keyed; auto.
  - eexists. split; [apply dict_get_set_same|reflexivity].
  - exists sd. auto.
  - unfold get_donation. simpl. now rewrite dict_get_set_other.
Qed.

(** The scheduling loop, when it returns: every donation it went through is
    scheduled, and every donation known before is known after. *)
Lemma for_each_schedule_ok (vid pid : string) (ids : list string) (g g' : Globals F) :
  repo_wf (repo g) -> sm_repo_wf (state_machine_repo g) ->
  for_each ids (schedule_one vid pid) g = (Ok tt, g') ->
  repo_wf (repo g') /\ sm_repo_wf (state_machine_repo g') /\
  pickups (repo g') = pickups (repo g) /\
  (forall x, In x ids -> scheduled_for pid x g') /\
  (forall x, scheduled_for pid x g -> scheduled_for pid x g') /\
  (forall x d, get_donation (repo g) x = Some d ->
               exists d', get_donation (repo g') x = Some d').
Proof.
  revert g. induction ids as [|did ids IH]; intros g Hwf Hsm; simpl.
  - intros [= <-]. split; [exact Hwf|]. split; [exact Hsm|]. split; [reflexivity|].
    split; [intros x []|]. split; [auto|]. eauto.
  - unfold bind.
    destruct (schedule_one vid pid did g) as [[[]|e] g1] eqn:Hone; [|discriminate].
    apply schedule_one_ok in Hone; auto.
    destruct Hone as (Hwf1 & Hsm1 & Hpk1 & _ & _ & Hdone1 & Hother1).
    intros Hrest. apply IH in Hrest; auto.
    destruct Hrest as (Hwf' & Hsm' & Hpk' & Hin' & Hkeep' & Hknown').
    assert (Hkeep1 : forall x, scheduled_for pid x g -> scheduled_for pid x g1).
    { intros x Hx. destruct (string_dec x did) as [->|Hne]; auto.
      destruct (Hother1 x Hne) as [E1 E2]. unfold scheduled_for. now rewrite E1, E2. }
    split; [exact Hwf'|]. split; [exact Hsm'|]. split; [congruence|].
    split; [|split; [auto|]].
    + intros x [<-|Hx]; auto.
    + intros x d Hx. destruct (string_dec x did) as [->|Hne].
      * destruct Hdone1 as [(d1 & Hd1 & _) _]. eauto.
      * destruct (Hother1 x Hne) as [E1 _]. rewrite <- E1 in Hx. eauto.
Qed.

(** A call of the state machine that raises leaves scheduled what was
    scheduled. *)
Lemma transition_state_raise_keeps_scheduled (vid pid did : string) (notes : option string)
  (g : Globals F) (e : exn) :
  sm_repo_wf (state_machine_repo g) ->
  fst (transition_state did PICKUP_SCHEDULED (Some vid) notes g) = Raise e ->
  forall x, scheduled_for pid x g ->
            scheduled_for pid x (snd (transition_state did PICKUP_SCHEDULED (Some vid) notes g)).
Proof.
  intros Hsm. unfold transition_state, on_state_machine.
  destruct (state_machine.transition_state did PICKUP_SCHEDULED (Some vid) notes
              (state_machine_repo g)) as [[sd|e'] s'] eqn:Hts; simpl; [discriminate|].
  intros [= ->] x [Hd Hs]. split; [exact Hd|]. simpl.
  apply transition_state_raise_cases in Hts; auto.
  destruct Hts as [(-> & _)|(d & value & Hget & _ & _ & _ & _ & _ & ->)]; [exact Hs|].
  unfold state_machine.get_donation. simpl.
  destruct (string_dec x did) as [->|Hne].
  - rewrite dict_get_set_same. eexists. split; reflexivity.
  - rewrite dict_get_set_other; auto.
Qed.

(** C10: [plan_pickup] stores the Pickup before it schedules any donation.
    If, after the donations [pre] have been scheduled, the transition of the
    next donation [did] raises, then [plan_pickup] raises that exception and
    leaves behind the state in which that transition raised: the Pickup is
    stored, and every donation of [pre] carries the pickup's id and is in
    state [pickup_scheduled].  That state is the one reached just before the
    failing transition, unless the transition was rejected for the role of
    the volunteer. *)
Theorem plan_pickup_partial_on_error (vid pid did : string) (pre post : list string)
  (ordered : list (F * F)) (g g1 : Globals F) (e : exn) :
  repo_wf (repo g) -> sm_repo_wf (state_machine_repo g) ->
  plan_route_local (repo g) vid (pre ++ did :: post) = Ok ordered ->
  for_each pre (schedule_one vid pid)
    (snd (on_repo (add_pickup
                     (Pickup.mk F pid (Some vid) (pre ++ did :: post) ordered "scheduled")) g))
    = (Ok tt, g1) ->
  fst (transition_state did PICKUP_SCHEDULED (Some vid)
         (Some ("pickup " ++ pid ++ " planned")%string) g1) = Raise e ->
  let g2 := snd (transition_state did PICKUP_SCHEDULED (Some vid)
                   (Some ("pickup " ++ pid ++ " planned")%string) g1) in
  plan_pickup vid (pre ++ did :: post) pid g = (Raise e, g2) /\
  Dict.get (pickups (repo g2)) pid =
    Some (Pickup.mk F pid (Some vid) (pre ++ did :: post) ordered "scheduled") /\
  (forall x, In x pre -> scheduled_for pid x g2) /\
  ((forall value, e <> ValidationError_actor_role value) -> g2 = g1).
Proof.
  intros Hwf Hsm Hplan Hpre Hfail g2.
  set (p := Pickup.mk F pid (Some vid) (pre ++ did :: post) ordered "scheduled") in *.
  set (g0 := snd (on_repo (add_pickup p) g)) in *.
  assert (Hwf0 : repo_wf (repo g0)) by exact Hwf.
  assert (Hsm0 : sm_repo_wf (state_machine_repo g0)) by exact Hsm.
  destruct (for_each_schedule_ok vid pid pre g0 g1 Hwf0 Hsm0 Hpre)
    as (Hwf1 & Hsm1 & Hpk & Hdone & _ & Hknown).
  destruct (plan_route_local_known _ _ _ _ Hplan) as (_ & Hids).
  destruct (Hids did) as (d & Hd & _).
  { apply in_or_app. right. now left. }
  destruct (Hknown did d Hd) as (d1 & Hd1).
  assert (Hid : Donation.id d1 = did).
  { destruct Hwf1 as [Hwd _]. apply Hwd. now apply dict_get_in. }
  assert (Hone : schedule_one vid pid did g1 = (Raise e, g2)).
  { unfold schedule_one, bind, gets. rewrite Hd1, Hid. unfold g2.
    destruct (transition_state did PICKUP_SCHEDULED (Some vid) _ g1) as [[sd|e'] g'];
      simpl in *; congruence. }
  split; [|split; [|split]].
  - assert (Hadd : on_repo (add_pickup p) g = (Ok p, g0)) by reflexivity.
    unfold plan_pickup, bind, gets. rewrite Hplan.
    unfold p in Hadd. rewrite Hadd. cbn [Pickup.id].
    rewrite for_each_app, Hpre. cbn [for_each]. unfold bind.
    now rewrite Hone.
  - unfold g2. rewrite transition_state_keeps_repo, Hpk.
    unfold g0, on_repo, add_pickup. simpl. apply dict_get_set_same.
  - intros x Hx. apply (transition_state_raise_keeps_scheduled vid pid did _ g1 e); auto.
  - intros Hnv. unfold g2. revert Hfail. unfold transition_state, on_state_machine.
    destruct (state_machine.transition_state did PICKUP_SCHEDULED (Some vid) _
                (state_machine_repo g1)) as [[sd|e'] s'] eqn:Hts; simpl; [discriminate|].
    intros [= ->]. apply transition_state_raise_cases in Hts; auto.
    destruct Hts as [(-> & _)|(d2 & value & _ & _ & _ & _ & _ & -> & _)].
    + now destruct g1.
    + now destruct (Hnv value).
Qed.

End PickupFacts.

(** ** The matching engine against the two repositories *)

(** C4 on the code: a posted donation with a location and a candidate at
    distance 0, unknown to the state machine's repository.  The run raises
    the donation-not-found error instead of returning an assignment; the
    donation already carries the recipient's id, is still posted, and the
    recipient's capacity is what it was. *)
Theorem greedy_match_local_unknown_donation_raises :
  fst (api_app.greedy_match_local 10%Z g_unknown) = Raise ValueError_DonationNotFound /\
  models_repo.get_donation (api_app.repo (snd (api_app.greedy_match_local 10%Z g_unknown))) "d1" =
    Some (models_repo.Donation.mk Z "d1" "u1" 5%Z (Some (Point 121000 14600)%Z) POSTED
            (Some "r1") None) /\
  models_repo.get_recipient (api_app.repo (snd (api_app.greedy_match_local 10%Z g_unknown))) "r1" =
    Some match_recipient.
Proof. repeat split; reflexivity. Qed.

(** C8 on the code: the same donation, known to the state machine as
    posted.  The first run assigns it; the donation stays posted in
    api_app's repository, so the second run lists it again and assigns it
    again, taking the weight off the recipient a second time. *)
Theorem greedy_match_local_second_run_repeats :
  fst (api_app.greedy_match_local 10%Z g_known) = Ok [("d1", "r1")] /\
  models_repo.list_open_donations
    (api_app.repo (snd (api_app.greedy_match_local 10%Z g_known))) =
    [("d1", models_repo.Donation.set_matched_recipient_id match_donation (Some "r1"))] /\
  fst (api_app.greedy_match_local 10%Z (snd (api_app.greedy_match_local 10%Z g_known))) =
    Ok [("d1", "r1")] /\
  option_map models_repo.Recipient.capacity_kg
    (models_repo.get_recipient
       (api_app.repo
          (snd (api_app.greedy_match_local 10%Z (snd (api_app.greedy_match_local 10%Z g_known)))))
       "r1") = Some 90%Z.
Proof. repeat split; reflexivity. Qed.

(** The definition api_app falls back to works on api_app's repository:
    after it, the donation is no longer open. *)
Lemma fallback_transition_state_closes_donation :
  fst (api_app.fallback_transition_state "d1" MATCHED None (Some "auto-match") g_unknown) =
    Ok (models_repo.Donation.set_state match_donation MATCHED) /\
  models_repo.list_open_donations
    (api_app.repo
       (snd (api_app.fallback_transition_state "d1" MATCHED None (Some "auto-match")
               g_unknown))) = [].
Proof. split; reflexivity. Qed.

(** With nothing in the state machine's repository, a matching step assigns
    nothing: it returns the list it was given and changes nothing, or it
    raises, for a location or a distance with nothing changed, or the
    donation-not-found error. *)
Lemma match_one_empty_state_machine {F : Type} `{FloatOps F} (max_search_km : F)
  (kd : string * models_repo.Donation.t F) (assigned : list (string * string))
  (g : api_app.Globals F) :
  state_machine.donations (api_app.state_machine_repo g) = [] ->
  api_app.match_one max_search_km kd assigned g = (Ok assigned, g) \/
  (exists e, is_location_error e = true /\
             api_app.match_one max_search_km kd assigned g = (Raise e, g)) \/
  exists g', api_app.match_one max_search_km kd assigned g =
             (Raise ValueError_DonationNotFound, g').
Proof.
  intros Hsm. destruct kd as [key d0]. rewrite match_one_eq. cbv zeta.
  destruct (truthy_dict _) as [location|]; [|now left].
  destruct (coordinate location 1) as [d_lat|e] eqn:Hlat.
  2:{ right. left. exists e. split; [now apply coordinate_raises in Hlat|reflexivity]. }
  destruct (coordinate location 0) as [d_lon|e] eqn:Hlon.
  2:{ right. left. exists e. split; [now apply coordinate_raises in Hlon|reflexivity]. }
  destruct (api_app.candidates_of _ _ _ _ _) as [cands|e] eqn:Hc.
  2:{ right. left. exists e. split; [now apply candidates_of_raises in Hc|reflexivity]. }
  destruct (api_app.sort_by_key cands) as [|[dist [rkey chosen]] rest]; [now left|].
  right. right. unfold api_app.match_chosen, bind. cbv zeta.
  unfold api_app.on_repo, api_app.assign_donation, modify,
    api_app.transition_state, api_app.on_state_machine. simpl.
  rewrite transition_state_not_found; [eauto|].
  unfold state_machine.get_donation. now rewrite Hsm.
Qed.

Lemma match_loop_empty_state_machine {F : Type} `{FloatOps F} (max_search_km : F)
  (ds : list (string * models_repo.Donation.t F)) (assigned : list (string * string))
  (g : api_app.Globals F) :
  state_machine.donations (api_app.state_machine_repo g) = [] ->
  api_app.match_loop max_search_km ds assigned g = (Ok assigned, g) \/
  (exists e, is_location_error e = true /\
             api_app.match_loop max_search_km ds assigned g = (Raise e, g)) \/
  exists g', api_app.match_loop max_search_km ds assigned g =
             (Raise ValueError_DonationNotFound, g').
Proof.
  intros Hsm. induction ds as [|kd ds IH]; cbn [api_app.match_loop]; [now left|].
  unfold bind.
  destruct (match_one_empty_state_machine max_search_km kd assigned g Hsm)
    as [->|[(e & He & ->)|(g' & ->)]]; [exact IH|eauto|eauto].
Qed.

(** ** The theorems on the sample repositories *)

Lemma transition_state_unknown_to_state_machine_witness :
  api_app.transition_state "d1" MATCHED None (Some "auto-match") g_unknown =
    (Raise ValueError_DonationNotFound, g_unknown) /\
  fst (api_app.match_one 10%Z ("d1", match_donation) [] g_unknown) =
    Raise ValueError_DonationNotFound.
Proof.
  destruct (transition_state_unknown_to_state_machine "d1" match_donation g_unknown
              eq_refl eq_refl eq_refl) as (Hcall & _ & Hstep).
  split; [apply Hcall|].
  apply (Hstep 10%Z match_donation [] (Point 121000 14600)%Z (PyNum 14600%Z) (PyNum 121000%Z)
           [(0%Z, ("r1", match_recipient))]); try reflexivity.
  discriminate.
Defined.

Lemma g_route_wf : repo_wf (api_app.repo g_route) /\ sm_repo_wf (api_app.state_machine_repo g_route).
Proof.
  split; [split|].
  - intros k d [E|[E|[]]]; now injection E as <- <-.
  - intros k x [].
  - intros k d [E|[E|[]]]; now injection E as <- <-.
Defined.

Lemma plan_pickup_partial_on_error_witness :
  api_app.plan_pickup "v1" ["da"; "db"] "p1" g_route =
    (Raise (ValueError_InvalidTransition POSTED PICKUP_SCHEDULED), g_route_scheduled) /\
  Dict.get (models_repo.pickups (api_app.repo g_route_scheduled)) "p1" = Some route_pickup /\
  (forall x, In x ["da"] -> scheduled_for "p1" x g_route_scheduled).
Proof.
  destruct (plan_pickup_partial_on_error "v1" "p1" "db" ["da"] []
              [(14601, 121001)%Z; (14605, 121005)%Z] g_route g_route_scheduled
              (ValueError_InvalidTransition POSTED PICKUP_SCHEDULED)
              (proj1 g_route_wf) (proj2 g_route_wf))
    as (Hrun & Hpickup & Hpre & _); [reflexivity|reflexivity|reflexivity|].
  split; [exact Hrun|]. split; [exact Hpickup|exact Hpre].
Defined.

(** * Further properties of the code *)

(** ** The state machine over sequences of requests *)

Section StateMachineRuns.
Import state_machine.

Lemma dict_mem_keys {V : Type} (m : Dict.t V) (k : string) :
  Dict.mem m k = true <-> In k (Dict.keys m).
Proof.
  unfold Dict.mem, Dict.keys. induction m as [|[k0 v0] m IH]; simpl.
  - split; [discriminate|tauto].
  - destruct (String.eqb k k0) eqn:E.
    + apply String.eqb_eq in E. subst. split; auto.
    + apply String.eqb_neq in E. rewrite IH. split; [auto|].
      intros [E'|Hin]; [congruence|auto].
Qed.

Lemma dict_keys_set {V : Type} (m : Dict.t V) (k : string) (v : V) :
  Dict.mem m k = true -> Dict.keys (Dict.set m k v) = Dict.keys m.
Proof.
  unfold Dict.mem, Dict.keys. induction m as [|[k0 v0] m IH]; simpl; [discriminate|].
  destruct (String.eqb k k0) eqn:E; simpl; [reflexivity|].
  intros Hm. now rewrite IH.
Qed.

(** When every stored user has the value of a member of [Role] as its
    role, so has whoever acts. *)
Lemma users_valid_actor (r : InMemoryRepo) (actor : option string) :
  users_valid r -> actor_role_valid r actor.
Proof.
  intros Hu value. unfold resolve_role.
  destruct actor as [a|]; [|discriminate].
  destruct (truthy_str (Some a)); [|discriminate].
  destruct (get_user r a) as [u|] eqn:Hg; [|discriminate].
  intros [= <-]. apply (Hu a u). now apply dict_get_in.
Qed.

(** What one call does to the repository and to each stored donation: the
    donation stays as it is, with its log as it is or, for an idempotent
    call, one entry longer; or the donation moves to an allowed state, with
    one more entry in its log or, when the role of the acting user is no
    member of [Role], with its log as it is. *)
Lemma transition_state_step (r : InMemoryRepo) (did : string) (to : DonationState)
  (actor notes : option string) :
  sm_repo_wf r ->
  sm_repo_wf (snd (transition_state did to actor notes r)) /\
  users (snd (transition_state did to actor notes r)) = users r /\
  forall k d,
    get_donation r k = Some d ->
    (get_donation (snd (transition_state did to actor notes r)) k = Some d /\
     (get_audit_logs_for_donation (snd (transition_state did to actor notes r)) k =
        get_audit_logs_for_donation r k \/
      k = did /\ to = state d /\
      exists e,
        get_audit_logs_for_donation (snd (transition_state did to actor notes r)) k =
          get_audit_logs_for_donation r k ++ [e] /\
        old_state e = Some (state d) /\ new_state e = state d)) \/
    (k = did /\ In to (ALLOWED_TRANSITIONS (state d)) /\
     get_donation (snd (transition_state did to actor notes r)) k = Some (set_state d to) /\
     ((exists e,
         get_audit_logs_for_donation (snd (transition_state did to actor notes r)) k =
           get_audit_logs_for_donation r k ++ [e] /\
         old_state e = Some (state d) /\ new_state e = to) \/
      (get_audit_logs_for_donation (snd (transition_state did to actor notes r)) k =
         get_audit_logs_for_donation r k /\
       ~ actor_role_valid r actor))).
Proof.
  intros Hwf. split; [|split; [apply transition_state_users|]].
  - destruct (get_donation r did) as [d0|] eqn:Hd0.
    2:{ now rewrite transition_state_eq, Hd0. }
    assert (Hid : id d0 = did) by (apply Hwf; now apply dict_get_in).
    rewrite (transition_state_stored r did d0 to actor notes Hd0 Hid).
    destruct (DonationState_eqb to (state d0)).
    { now destruct (new_AuditLogEntry _ _ _ _ _ _). }
    destruct (negb (state_in to (ALLOWED_TRANSITIONS (state d0)))); [exact Hwf|].
    cbv zeta.
    assert (Hwf1 : sm_repo_wf (with_donations r (Dict.set (donations r) did (set_state d0 to)))).
    { intros k d Hk. simpl in Hk.
      apply (dict_set_keyed id (donations r) did (set_state d0 to)); auto. }
    now destruct (new_AuditLogEntry _ _ _ _ _ _).
  - intros k d Hk.
    destruct (get_donation r did) as [d0|] eqn:Hd0.
    2:{ rewrite transition_state_eq, Hd0. left. auto. }
    assert (Hid : id d0 = did) by (apply Hwf; now apply dict_get_in).
    rewrite (transition_state_stored r did d0 to actor notes Hd0 Hid).
    destruct (DonationState_eqb to (state d0)) eqn:Eq.
    + apply DonationState_eqb_eq in Eq.
      destruct (new_AuditLogEntry_cases did actor (resolve_role r actor) (Some (state d0)) to
                  (Some (str_or notes "idempotent transition")))
        as [(ro & -> & _)|(value & _ & _ & ->)]; [|left; auto].
      left. split; [exact Hk|]. cbn [snd]. rewrite audit_logs_after_append. cbn [donation_id].
      destruct (String.eqb k did) eqn:E; [|now left].
      apply String.eqb_eq in E. subst k. right.
      assert (d = d0) by congruence. subst d0.
      split; [reflexivity|]. split; [exact Eq|].
      eexists. split; [reflexivity|]. simpl. auto.
    + destruct (state_in to (ALLOWED_TRANSITIONS (state d0))) eqn:Hin; cbn [negb];
        [|left; auto].
      apply state_in_In in Hin. cbv zeta.
      destruct (string_dec k did) as [->|Hne].
      * right. assert (d = d0) by congruence. subst d0.
        split; [reflexivity|]. split; [exact Hin|].
        destruct (new_AuditLogEntry_cases did actor (resolve_role r actor) (Some (state d)) to
                    notes) as [(ro & -> & _)|(value & Hv & Hno & ->)].
        -- split.
           { unfold get_donation. simpl. apply dict_get_set_same. }
           left. eexists. cbn [snd]. rewrite audit_logs_after_append. cbn [donation_id].
           rewrite String.eqb_refl. split; [reflexivity|]. simpl. auto.
        -- split.
           { unfold get_donation. simpl. apply dict_get_set_same. }
           right. split; [reflexivity|].
           intros Hvalid. destruct (Hvalid value Hv) as (ro & Hro). congruence.
      * left.
        assert (Hget : forall r2,
                  donations r2 = Dict.set (donations r) did (set_state d0 to) ->
                  get_donation r2 k = Some d).
        { intros r2 E. unfold get_donation. rewrite E.
          rewrite dict_get_set_other by assumption. exact Hk. }
        destruct (new_AuditLogEntry_cases did actor (resolve_role r actor) (Some (state d0)) to
                    notes) as [(ro & -> & _)|(value & _ & _ & ->)].
        -- split; [now apply Hget|]. left. cbn [snd].
           rewrite audit_logs_after_append. cbn [donation_id].
           apply String.eqb_neq in Hne. now rewrite Hne.
        -- split; [now apply Hget|]. now left.
Qed.

Lemma api_transition_state (did : string) (req : state_machine_routes.TransitionRequest)
  (r : InMemoryRepo) :
  snd (state_machine_routes.api_transition did req r) =
  snd (transition_state did (state_machine_routes.new_state req)
         (state_machine_routes.actor_user_id req) (state_machine_routes.notes req) r).
Proof.
  unfold state_machine_routes.api_transition.
  destruct (transition_state _ _ _ _ r) as [[d|e] r']; simpl; [reflexivity|].
  destruct (is_ValueError e); [reflexivity|]. now destruct (is_KeyError e).
Qed.

Lemma allowed_progress (s to : DonationState) :
  In to (ALLOWED_TRANSITIONS s) -> progress s < progress to.
Proof.
  destruct s; simpl; intuition (subst; simpl; lia).
Qed.

(** One request keeps the repository well formed, and takes each stored
    donation nowhere or strictly forward. *)
Lemma api_transition_forward (did : string) (req : state_machine_routes.TransitionRequest)
  (r : InMemoryRepo) :
  sm_repo_wf r ->
  sm_repo_wf (snd (state_machine_routes.api_transition did req r)) /\
  forall k d,
    get_donation r k = Some d ->
    exists d',
      get_donation (snd (state_machine_routes.api_transition did req r)) k = Some d' /\
      (d' = d \/ progress (state d) < progress (state d')).
Proof.
  intros Hwf. rewrite api_transition_state.
  destruct (transition_state_step r did (state_machine_routes.new_state req)
              (state_machine_routes.actor_user_id req) (state_machine_routes.notes req) Hwf)
    as (Hwf' & _ & Hstep).
  split; [exact Hwf'|].
  intros k d Hk. destruct (Hstep k d Hk) as [(Hsame & _)|(_ & Hin & Hnew & _)].
  - exists d. auto.
  - exists (set_state d (state_machine_routes.new_state req)). split; [exact Hnew|].
    right. simpl. now apply allowed_progress.
Qed.

Lemma run_requests_forward (reqs : list (string * state_machine_routes.TransitionRequest))
  (r : InMemoryRepo) :
  sm_repo_wf r ->
  sm_repo_wf (state_machine_routes.run_requests reqs r) /\
  forall k d,
    get_donation r k = Some d ->
    exists d',
      get_donation (state_machine_routes.run_requests reqs r) k = Some d' /\
      (d' = d \/ progress (state d) < progress (state d')).
Proof.
  revert r. induction reqs as [|[did req] reqs IH]; intros r Hwf.
  - split; [exact Hwf|]. intros k d Hk. exists d. auto.
  - unfold state_machine_routes.run_requests. cbn [fold_left fst snd].
    fold (state_machine_routes.run_requests reqs
            (snd (state_machine_routes.api_transition did req r))).
    destruct (api_transition_forward did req r Hwf) as (Hwf1 & Hstep1).
    destruct (IH _ Hwf1) as (Hwf2 & Hstep2).
    split; [exact Hwf2|].
    intros k d Hk. destruct (Hstep1 k d Hk) as (d1 & Hd1 & H1).
    destruct (Hstep2 k d1 Hd1) as (d2 & Hd2 & H2).
    exists d2. split; [exact Hd2|].
    destruct H1 as [->|H1]; [exact H2|].
    right. destruct H2 as [->|H2]; lia.
Qed.

(** X1: a donation never returns to a state it has left.  Once a sequence
    of transition requests has taken a stored donation out of its state,
    no further sequence of requests brings it back to that state. *)
Theorem donation_never_returns (r : InMemoryRepo)
  (reqs1 reqs2 : list (string * state_machine_routes.TransitionRequest))
  (k : string) (d d1 d2 : Donation) :
  sm_repo_wf r ->
  get_donation r k = Some d ->
  get_donation (state_machine_routes.run_requests reqs1 r) k = Some d1 ->
  state d1 <> state d ->
  get_donation
    (state_machine_routes.run_requests reqs2 (state_machine_routes.run_requests reqs1 r)) k
    = Some d2 ->
  state d2 <> state d.
Proof.
  intros Hwf Hd Hd1 Hleft Hd2.
  destruct (run_requests_forward reqs1 r Hwf) as (Hwf1 & Hstep1).
  destruct (Hstep1 k d Hd) as (d1' & Hd1' & H1).
  assert (d1' = d1) by congruence. subst d1'.
  destruct H1 as [->|H1]; [contradiction|].
  destruct (run_requests_forward reqs2 _ Hwf1) as (_ & Hstep2).
  destruct (Hstep2 k d1 Hd1) as (d2' & Hd2' & H2).
  assert (d2' = d2) by congruence. subst d2'.
  intros E. destruct H2 as [->|H2]; rewrite E in *; lia.
Qed.

(** X2: a donation in a terminal state is frozen.  Whatever transition
    requests follow, for this or any other donation, the stored donation
    stays exactly as it is. *)
Theorem terminal_donation_frozen (r : InMemoryRepo)
  (reqs : list (string * state_machine_routes.TransitionRequest))
  (k : string) (d : Donation) :
  sm_repo_wf r ->
  get_donation r k = Some d ->
  is_terminal (state d) = true ->
  get_donation (state_machine_routes.run_requests reqs r) k = Some d.
Proof.
  intros Hwf Hd Hterm.
  destruct (run_requests_forward reqs r Hwf) as (_ & Hstep).
  destruct (Hstep k d Hd) as (d' & Hd' & [->|Hlt]); [exact Hd'|].
  exfalso. destruct (state d); try discriminate; destruct (state d'); simpl in Hlt; lia.
Qed.

End StateMachineRuns.

(** ** The audit trail and the answers of the transition endpoint *)

Section StateMachineAudit.
Import state_machine.

Lemma log_replays_snoc (log : list AuditLogEntry) (s : DonationState) (e : AuditLogEntry) :
  log_replays log s -> old_state e = Some s -> log_replays (log ++ [e]) (new_state e).
Proof.
  induction log as [|e0 rest IH]; intros Hlog He.
  - reflexivity.
  - destruct rest as [|e1 rest'].
    + simpl in *. subst s. auto.
    + destruct Hlog as [Hlink Hrest]. change ((e0 :: e1 :: rest') ++ [e]) with
        (e0 :: e1 :: (rest' ++ [e])).
      split; [exact Hlink|]. apply (IH Hrest He).
Qed.

(** A call never adds or removes a donation. *)
Lemma transition_state_donation_keys (did : string) (to : DonationState)
  (actor notes : option string) (r : InMemoryRepo) :
  Dict.keys (donations (snd (transition_state did to actor notes r))) =
    Dict.keys (donations r).
Proof.
  rewrite transition_state_eq.
  destruct (get_donation r did) as [d|] eqn:Hd; [|reflexivity].
  destruct (DonationState_eqb to (state d)).
  { now destruct (new_AuditLogEntry _ _ _ _ _ _). }
  destruct (negb (state_in to (ALLOWED_TRANSITIONS (state d)))); [reflexivity|].
  cbv zeta.
  assert (Hk : Dict.keys (Dict.set (donations r) did (set_state d to)) =
               Dict.keys (donations r)).
  { apply dict_keys_set. now apply dict_get_mem with d. }
  cbn [donations with_donations].
  destruct (Dict.mem (Dict.set (donations r) did (set_state d to)) (id d)) eqn:Hm;
    cbn [negb]; [|exact Hk].
  assert (Hk2 : Dict.keys (Dict.set (Dict.set (donations r) did (set_state d to)) (id d)
                             (set_state d to)) = Dict.keys (donations r)).
  { now rewrite dict_keys_set. }
  now destruct (new_AuditLogEntry _ _ _ _ _ _).
Qed.

(** X5: a call of [transition_state] never adds or removes a donation and
    never touches the user store, whatever its arguments and outcome, on
    any repository. *)
Theorem transition_state_keeps_keys (did : string) (to : DonationState)
  (actor notes : option string) (r : InMemoryRepo) :
  Dict.keys (donations (snd (transition_state did to actor notes r))) =
    Dict.keys (donations r) /\
  users (snd (transition_state did to actor notes r)) = users r.
Proof.
  split; [apply transition_state_donation_keys|apply transition_state_users].
Qed.

Lemma dict_get_none_keys {V W : Type} (m : Dict.t V) (m' : Dict.t W) (k : string) :
  Dict.keys m' = Dict.keys m -> Dict.get m k = None -> Dict.get m' k = None.
Proof.
  intros Hk Hg.
  destruct (Dict.get m' k) as [w|] eqn:Hg'; [|reflexivity].
  assert (Hm : Dict.mem m k = true).
  { apply dict_mem_keys. rewrite <- Hk. apply dict_mem_keys.
    unfold Dict.mem. now rewrite Hg'. }
  unfold Dict.mem in Hm. rewrite Hg in Hm. discriminate.
Qed.

Lemma api_transition_audit_consistent (did : string)
  (req : state_machine_routes.TransitionRequest) (r : InMemoryRepo) :
  sm_repo_wf r -> users_valid r -> audit_consistent r ->
  audit_consistent (snd (state_machine_routes.api_transition did req r)).
Proof.
  intros Hwf Hu Hcons. rewrite api_transition_state.
  set (to := state_machine_routes.new_state req).
  set (actor := state_machine_routes.actor_user_id req).
  set (notes := state_machine_routes.notes req).
  destruct (transition_state_step r did to actor notes Hwf) as (_ & _ & Hstep).
  intros k d' Hk'.
  destruct (get_donation r k) as [d|] eqn:Hk.
  - specialize (Hcons k d Hk).
    destruct (Hstep k d Hk) as [(Hsame & Hlog)|(_ & _ & Hnew & Hlog)].
    + assert (d' = d) by congruence. subst d'.
      destruct Hlog as [->|(_ & _ & e & -> & Hold & Hnw)]; [exact Hcons|].
      rewrite <- Hnw. now apply log_replays_snoc with (state d).
    + assert (d' = set_state d to) by congruence. subst d'.
      destruct Hlog as [(e & Hlog & Hold & Hnw)|(_ & Hbad)].
      * rewrite Hlog. simpl. rewrite <- Hnw. now apply log_replays_snoc with (state d).
      * exfalso. apply Hbad. now apply users_valid_actor.
  - exfalso. unfold get_donation in *.
    rewrite (dict_get_none_keys (donations r) _ k
               (transition_state_donation_keys did to actor notes r) Hk) in Hk'.
    discriminate.
Qed.

Lemma api_transition_users (did : string) (req : state_machine_routes.TransitionRequest)
  (r : InMemoryRepo) :
  users (snd (state_machine_routes.api_transition did req r)) = users r.
Proof. rewrite api_transition_state. apply transition_state_users. Qed.

(** X3: the audit trail can be replayed.  In a repository whose users are
    all stored with the value of a member of [Role] as their role: if every
    stored donation's trail replays to the donation's state (as it does
    when the trails are empty), then after any sequence of transition
    requests, whatever each is answered, every stored donation's trail
    still replays to the state the donation is then in: consecutive entries
    link up and the last entry's [new_state] is the current state. *)
Theorem audit_trail_replays (r : InMemoryRepo)
  (reqs : list (string * state_machine_routes.TransitionRequest)) :
  sm_repo_wf r -> users_valid r -> audit_consistent r ->
  audit_consistent (state_machine_routes.run_requests reqs r).
Proof.
  revert r. induction reqs as [|[did req] reqs IH]; intros r Hwf Hu Hcons; [exact Hcons|].
  unfold state_machine_routes.run_requests. cbn [fold_left fst snd].
  apply IH.
  - now apply api_transition_forward.
  - unfold users_valid. now rewrite api_transition_users.
  - now apply api_transition_audit_consistent.
Qed.

(** X4: what the transition endpoint answers on a well-formed repository.
    It returns the donation in the requested state; or it answers 400 with
    the repository untouched, "Donation not found" exactly for an unknown
    id, "Invalid transition" for a different state that is not allowed, or
    pydantic's validation error when the state requested is the current one
    and the acting user is stored with a role that is no member of [Role];
    or it answers 400 with that validation error for an allowed transition,
    and then the donation is stored in the requested state and its audit
    log is as it was.  It never answers 404 and never lets an exception
    through. *)
Theorem api_transition_answers (did : string)
  (req : state_machine_routes.TransitionRequest) (r : InMemoryRepo) :
  sm_repo_wf r ->
  let to := state_machine_routes.new_state req in
  let actor := state_machine_routes.actor_user_id req in
  match state_machine_routes.api_transition did req r with
  | (Returned d', r') => get_donation r' did = Some d' /\ state d' = to
  | (HTTPException code detail, r') =>
      code = 400 /\
      (r' = r /\
       (detail = str_of ValueError_DonationNotFound /\ get_donation r did = None \/
        (exists d, get_donation r did = Some d /\ to <> state d /\
                   ~ In to (ALLOWED_TRANSITIONS (state d)) /\
                   detail = str_of (ValueError_InvalidTransition (state d) to)) \/
        (exists d value, get_donation r did = Some d /\ to = state d /\
                         resolve_role r actor = Some value /\ Role_of_value value = None /\
                         detail = str_of (ValidationError_actor_role value))) \/
       (exists d value,
          get_donation r did = Some d /\ to <> state d /\
          In to (ALLOWED_TRANSITIONS (state d)) /\
          resolve_role r actor = Some value /\ Role_of_value value = None /\
          detail = str_of (ValidationError_actor_role value) /\
          get_donation r' did = Some (set_state d to) /\
          get_audit_logs_for_donation r' did = get_audit_logs_for_donation r did))
  | (Unhandled _, _) => False
  end.
Proof.
  intros Hwf to actor. unfold state_machine_routes.api_transition. fold to actor.
  destruct (transition_state did to actor (state_machine_routes.notes req) r)
    as [[d'|e] r'] eqn:Hts.
  - apply transition_state_ok_cases in Hts; auto. tauto.
  - apply transition_state_raise_cases in Hts; auto.
    destruct Hts as [(-> & [(-> & Hnone)|[(d & Hd & Hne & Hnin & ->)
                                         |(d & value & Hd & He & Hr & Hno & ->)]])
                    |(d & value & Hd & Hne & Hin & Hr & Hno & -> & ->)]; simpl.
    + split; [reflexivity|]. left. auto.
    + split; [reflexivity|]. left. split; [reflexivity|]. right. left. exists d. auto.
    + split; [reflexivity|]. left. split; [reflexivity|]. right. right. exists d, value. auto.
    + split; [reflexivity|]. right. exists d, value.
      do 6 (split; [assumption || reflexivity|]).
      split; [|reflexivity]. unfold get_donation. simpl. apply dict_get_set_same.
Qed.

(** X6: every repository built from the empty one by [add_donation],
    [add_user] and transition requests stores each donation under its own
    id. *)
Theorem sm_reachable_wf (ops : list sm_op) :
  sm_repo_wf (fold_left sm_apply ops new_repo).
Proof.
  assert (Hgen : forall r, sm_repo_wf r -> sm_repo_wf (fold_left sm_apply ops r)).
  { induction ops as [|op ops IH]; intros r Hwf; [exact Hwf|].
    cbn [fold_left]. apply IH. destruct op as [d|uid ro|did req]; simpl.
    - now apply sm_add_donation_wf.
    - exact Hwf.
    - now apply api_transition_forward. }
  apply Hgen, sm_new_repo_wf.
Qed.

End StateMachineAudit.

(** ** Who is chosen: the head of a sorted list *)

Section NearestChoice.
Import models_repo api_app.
Context {F : Type} `{FloatOps F}.

(** [<] on the numbers is a strict weak order, as it is on floats that are
    not NaN. *)
Hypothesis f_lt_asym : forall a b : F, f_lt a b = true -> f_lt b a = false.
Hypothesis f_lt_negtrans :
  forall a b c : F, f_lt a b = false -> f_lt b c = false -> f_lt a c = false.

Lemma f_lt_irrefl (a : F) : f_lt a a = false.
Proof.
  destruct (f_lt a a) eqn:E; [|reflexivity]. now rewrite (f_lt_asym _ _ E) in E.
Qed.

(** The head of the sorted list has a smallest key, and it is the first of
    the elements with that key: everything before it in the unsorted list
    has a strictly larger key. *)
Lemma sort_by_key_head {A : Type} (l : list (F * A)) (h : F * A) (rest : list (F * A)) :
  sort_by_key l = h :: rest ->
  (exists l1 l2, l = l1 ++ h :: l2 /\
                 forall z, In z l1 -> f_lt (fst h) (fst z) = true) /\
  (forall z, In z l -> f_lt (fst z) (fst h) = false).
Proof.
  revert h rest. induction l as [|x l IH]; intros h rest; simpl; [discriminate|].
  destruct (sort_by_key l) as [|y s] eqn:Hs; simpl.
  - apply sort_by_key_nil in Hs. subst l. intros [= <- <-]. split.
    + exists [], []. split; [reflexivity|]. intros z [].
    + intros z [<-|[]]. apply f_lt_irrefl.
  - destruct (IH y s eq_refl) as ((m1 & m2 & Hl & Hbefore) & Hmin).
    destruct (f_lt (fst y) (fst x)) eqn:Hyx; intros [= <- <-].
    + split.
      * exists (x :: m1), m2. split; [now rewrite Hl|].
        intros z [<-|Hz]; auto.
      * intros z [<-|Hz]; auto.
    + split.
      * exists [], l. split; [reflexivity|]. intros z [].
      * intros z [<-|Hz]; [apply f_lt_irrefl|].
        apply f_lt_negtrans with (fst y); auto.
Qed.

(** Where a candidate stands among the candidates is where its recipient
    stands among the recipients. *)
Lemma candidates_of_split (need : F) (d_lat d_lon : pyval F) (max_search_km : F)
  (rs : list (string * Recipient.t F)) (c1 c2 : list (F * (string * Recipient.t F)))
  (h : F * (string * Recipient.t F)) :
  candidates_of need d_lat d_lon max_search_km rs = Ok (c1 ++ h :: c2) ->
  exists rs1 rs2,
    rs = rs1 ++ snd h :: rs2 /\
    candidates_of need d_lat d_lon max_search_km rs1 = Ok c1.
Proof.
  revert c1. induction rs as [|[k r] rs IH]; intros c1; cbn [candidates_of].
  - destruct c1; discriminate.
  - unfold rbind.
    destruct (candidate_of need d_lat d_lon max_search_km r) as [c|] eqn:Hc; [|discriminate].
    destruct (candidates_of need d_lat d_lon max_search_km rs) as [rest|] eqn:Hrest;
      [|discriminate].
    destruct c as [dist|].
    + destruct c1 as [|c c1]; cbn [app].
      * intros [= <- _]. exists [], rs. auto.
      * intros [= <- E]. destruct (IH c1 (f_equal Ok E)) as (rs1 & rs2 & -> & Hc1).
        exists ((k, r) :: rs1), rs2. split; [reflexivity|].
        cbn [candidates_of]. unfold rbind. now rewrite Hc, Hc1.
    + intros [= E]. destruct (IH c1 (f_equal Ok E)) as (rs1 & rs2 & -> & Hc1).
      exists ((k, r) :: rs1), rs2. split; [reflexivity|].
      cbn [candidates_of]. unfold rbind. now rewrite Hc, Hc1.
Qed.

(** X7: the recipient the matching engine picks for a donation.  The head
    of the sorted candidate list is a stored recipient that is eligible
    (enough capacity, a location, within the radius); no eligible recipient
    is strictly closer; and every eligible recipient listed before it in
    the repository is strictly farther, so among equally close recipients
    the first one listed wins. *)
Theorem matching_choice_is_nearest (need : F) (d_lat d_lon : pyval F) (max_search_km : F)
  (rs : list (string * Recipient.t F)) (cands : list (F * (string * Recipient.t F)))
  (dist : F) (k : string) (x : Recipient.t F)
  (rest : list (F * (string * Recipient.t F))) :
  candidates_of need d_lat d_lon max_search_km rs = Ok cands ->
  sort_by_key cands = (dist, (k, x)) :: rest ->
  In (k, x) rs /\
  eligible need d_lat d_lon max_search_km x dist /\
  (forall k' x' dist',
     In (k', x') rs -> eligible need d_lat d_lon max_search_km x' dist' ->
     f_lt dist' dist = false) /\
  (exists rs1 rs2,
     rs = rs1 ++ (k, x) :: rs2 /\
     forall k' x' dist',
       In (k', x') rs1 -> eligible need d_lat d_lon max_search_km x' dist' ->
       f_lt dist dist' = true).
Proof.
  intros Hcands Hs.
  destruct (sort_by_key_head _ _ _ Hs) as ((c1 & c2 & Hc & Hbefore) & Hmin).
  assert (Hin : In (dist, (k, x)) cands).
  { rewrite Hc. apply in_or_app. right. now left. }
  destruct (candidates_of_in _ _ _ _ _ _ _ _ _ Hcands Hin) as (Hrin & Hel).
  split; [exact Hrin|]. split; [exact Hel|]. split.
  - intros k' x' dist' Hin' Hel'.
    apply (Hmin (dist', (k', x'))).
    now apply (candidates_of_complete need d_lat d_lon max_search_km rs cands).
  - rewrite Hc in Hcands.
    destruct (candidates_of_split _ _ _ _ _ _ _ _ Hcands) as (rs1 & rs2 & Hrs & Hc1).
    exists rs1, rs2. split; [exact Hrs|].
    intros k' x' dist' Hin' Hel'.
    apply (Hbefore (dist', (k', x'))).
    now apply (candidates_of_complete need d_lat d_lon max_search_km rs1 c1).
Qed.

Lemma nearest_neighbor_nearest_first (current : point) (remaining : list point)
  (order : list (F * F)) :
  forall route,
    nearest_neighbor current remaining order = Ok route ->
    exists tail,
      route = order ++ tail /\ incl (map as_point tail) remaining /\
      nearest_first current tail.
Proof.
  funelim (nearest_neighbor current remaining order); intros route Hroute.
  - injection Hroute as <-. exists []. rewrite app_nil_r.
    repeat split. intros q [].
  - discriminate.
  - discriminate.
  - match goal with
    | IH : forall _, _ -> exists _, _ |- _ =>
        destruct (IH route Hroute) as (tail & -> & Hincl & Hnf)
    end.
    match goal with
    | Hd : distances_from _ _ _ = Ok ?ds, Hs : sort_by_key ?ds = _ :: _ |- _ =>
        destruct (sorted_head_position _ _ _ _ _ _ _ Hd Hs) as (Hnth & Hdist);
        destruct (sort_by_key_head _ _ _ Hs) as (_ & Hmin);
        destruct (distances_from_spec _ _ _ _ Hd) as (_ & Hcomplete)
    end.
    match goal with
    | Hr : list_remove _ _ _ = Some _ |- _ => apply list_remove_incl in Hr as Hsub
    end.
    exists (nearest :: tail). split; [now rewrite <- app_assoc|]. split.
    + cbn [map]. apply incl_cons; [now apply nth_error_In in Hnth|].
      intros q Hq. apply Hsub, Hincl, Hq.
    + split; [|exact Hnf].
      eexists. split; [exact Hdist|].
      intros q Hq.
      assert (Hq' : In (as_point q) (p :: ps)).
      { apply Hsub, Hincl. now apply in_map. }
      apply In_nth_error in Hq'. destruct Hq' as (j & Hj).
      destruct (Hcomplete j _ Hj) as (dq & q' & Hqq & Hin & Hdq).
      apply as_point_inj in Hqq. subst q'.
      exists dq. split; [exact Hdq|].
      apply (Hmin _ Hin).
  - discriminate.
Qed.

(** X8: the route is greedy at every stop.  When [plan_route_local]
    returns a route, the volunteer has a location, and each stop of the
    route is, among the stops that come after it, one closest to the
    position before it (the volunteer's location for the first stop, the
    previous stop otherwise). *)
Theorem plan_route_local_nearest_first (r : InMemoryRepo F) (volunteer_id : string)
  (donation_ids : list string) (route : list (F * F)) :
  plan_route_local r volunteer_id donation_ids = Ok route ->
  exists v location start_lat start_lon,
    get_user r volunteer_id = Some v /\
    truthy_dict (User.location v) = Some location /\
    coordinate location 1 = Ok start_lat /\
    coordinate location 0 = Ok start_lon /\
    nearest_first (start_lat, start_lon) route.
Proof.
  unfold plan_route_local.
  destruct (get_user r volunteer_id) as [v|]; [|discriminate].
  destruct (truthy_dict (User.location v)) as [location|] eqn:Hloc; [|discriminate].
  unfold rbind.
  destruct (coordinate location 1) as [start_lat|] eqn:Hlat; [|discriminate].
  destruct (coordinate location 0) as [start_lon|] eqn:Hlon; [|discriminate].
  destruct (collect_points r donation_ids) as [points|e]; [|discriminate].
  intros Hroute. exists v, location, start_lat, start_lon. repeat split; auto.
  destruct (nearest_neighbor_nearest_first _ _ _ _ Hroute) as (tail & -> & _ & Hnf).
  exact Hnf.
Qed.

End NearestChoice.

(** ** What a matching run changes, and what it reports *)

Section MatchingRuns.
Import models_repo api_app.
Context {F : Type} `{FloatOps F}.

Lemma dict_mem_get {V : Type} (m : Dict.t V) (k : string) :
  Dict.mem m k = true -> exists v, Dict.get m k = Some v.
Proof. unfold Dict.mem. destruct (Dict.get m k) as [v|]; [eauto|discriminate]. Qed.

Lemma same_but_recipient_refl (d : Donation.t F) : same_but_recipient d d.
Proof. now destruct d. Qed.

Lemma same_but_recipient_trans (d1 d2 d3 : Donation.t F) :
  same_but_recipient d1 d2 -> same_but_recipient d2 d3 -> same_but_recipient d1 d3.
Proof. unfold same_but_recipient. intros -> ->. reflexivity. Qed.

Lemma matching_frame_refl (g : Globals F) : matching_frame g g.
Proof.
  repeat split. intros k d Hd. exists d. split; [exact Hd|apply same_but_recipient_refl].
Qed.

Lemma matching_frame_trans (g1 g2 g3 : Globals F) :
  matching_frame g1 g2 -> matching_frame g2 g3 -> matching_frame g1 g3.
Proof.
  intros (Hd & Hr & Hu & Hp & Ha & Hf) (Hd' & Hr' & Hu' & Hp' & Ha' & Hf').
  repeat split; try congruence.
  intros k d Hk. destruct (Hf k d Hk) as (d2 & Hk2 & Hs2).
  destruct (Hf' k d2 Hk2) as (d3 & Hk3 & Hs3).
  exists d3. split; [exact Hk3|]. now apply same_but_recipient_trans with d2.
Qed.

(** One step of the loop, whatever its outcome. *)
Lemma match_one_inv (max_search_km : F) (key : string) (d0 : Donation.t F)
  (assigned : list (string * string)) (g : Globals F) :
  repo_wf (repo g) -> sm_repo_wf (state_machine_repo g) ->
  Dict.mem (donations (repo g)) key = true ->
  repo_wf (repo (snd (match_one max_search_km (key, d0) assigned g))) /\
  sm_repo_wf (state_machine_repo (snd (match_one max_search_km (key, d0) assigned g))) /\
  matching_frame g (snd (match_one max_search_km (key, d0) assigned g)) /\
  (state_machine.get_donation (state_machine_repo g) key = None ->
   state_machine_repo (snd (match_one max_search_km (key, d0) assigned g)) =
   state_machine_repo g) /\
  (forall a',
     fst (match_one max_search_km (key, d0) assigned g) = Ok a' ->
     a' = assigned \/
     exists rkey, a' = assigned ++ [(key, rkey)] /\
                  In rkey (Dict.keys (recipients (repo g)))).
Proof.
  intros Hwf Hsm Hmem. destruct (dict_mem_get _ _ Hmem) as (d & Hd).
  destruct (match_one_cases max_search_km key d0 d assigned g Hwf Hd)
    as [Hskip|[(e & _ & Hraise)|Hchosen]].
  { rewrite Hskip. simpl. split; [exact Hwf|]. split; [exact Hsm|].
    split; [apply matching_frame_refl|]. split; [reflexivity|].
    intros a' [= <-]. now left. }
  { rewrite Hraise. simpl. split; [exact Hwf|]. split; [exact Hsm|].
    split; [apply matching_frame_refl|]. split; [reflexivity|].
    intros a' [=]. }
  destruct Hchosen as (location & d_lat & d_lon & cands & dist & rkey & chosen & rest &
                       _ & _ & _ & _ & _ & Hin & _ & Hstep).
  cbv zeta in Hstep.
  destruct Hwf as [Hwd Hwr].
  assert (Hid : Donation.id d = key) by (apply Hwd; now apply dict_get_in).
  assert (Hrid : Recipient.id chosen = rkey) by now apply Hwr.
  assert (Hrmem : Dict.mem (recipients (repo g)) rkey = true)
    by now apply dict_in_mem with chosen.
  set (d' := Donation.set_matched_recipient_id d (Some rkey)) in *.
  assert (Hwd' : forall k x, In (k, x) (Dict.set (donations (repo g)) key d') ->
                             Donation.id x = k).
  { intros k x. apply dict_set_keyed; auto. }
  assert (Hframe : forall k d1,
             get_donation (repo g) k = Some d1 ->
             exists d1', Dict.get (Dict.set (donations (repo g)) key d') k = Some d1' /\
                         same_but_recipient d1 d1').
  { intros k d1 Hk. destruct (string_dec k key) as [->|Hne].
    - rewrite dict_get_set_same. exists d'. split; [reflexivity|].
      assert (d1 = d) by (unfold get_donation in *; congruence). now subst d1.
    - rewrite dict_get_set_other by assumption. exists d1.
      split; [exact Hk|apply same_but_recipient_refl]. }
  destruct (state_machine.transition_state key MATCHED None (Some "auto-match")
              (state_machine_repo g)) as [[sd|e] s'] eqn:Hts; rewrite Hstep; simpl.
  - apply transition_state_ok_cases in Hts as Hok; auto.
    destruct Hok as (Hsm' & Hget & _).
    split; [split; [exact Hwd'|]|].
    { intros k x. apply dict_set_keyed; auto. }
    split; [exact Hsm'|]. split.
    { repeat split; simpl; try (apply dict_keys_set; assumption). exact Hframe. }
    split.
    { intros Hnone. rewrite (transition_state_not_found _ _ _ _ _ Hnone) in Hts.
      discriminate. }
    intros a' [= <-]. right. exists rkey. split; [reflexivity|].
    now apply dict_mem_keys.
  - apply transition_state_raise_no_actor in Hts; auto. destruct Hts as (-> & _).
    split; [split; [exact Hwd'|exact Hwr]|].
    split; [exact Hsm|]. split.
    { repeat split; simpl; try (apply dict_keys_set; assumption). exact Hframe. }
    split; [reflexivity|]. intros a' [=].
Qed.

Lemma Subseq_nil_l {A : Type} (l : list A) : Subseq [] l.
Proof. induction l; constructor; auto. Qed.

(** The whole loop, whatever its outcome. *)
Lemma match_loop_inv (max_search_km : F) (ds : list (string * Donation.t F))
  (assigned : list (string * string)) (g : Globals F) :
  repo_wf (repo g) -> sm_repo_wf (state_machine_repo g) ->
  (forall kd, In kd ds -> Dict.mem (donations (repo g)) (fst kd) = true) ->
  repo_wf (repo (snd (match_loop max_search_km ds assigned g))) /\
  sm_repo_wf (state_machine_repo (snd (match_loop max_search_km ds assigned g))) /\
  matching_frame g (snd (match_loop max_search_km ds assigned g)) /\
  (state_machine.donations (state_machine_repo g) = [] ->
   state_machine_repo (snd (match_loop max_search_km ds assigned g)) =
   state_machine_repo g) /\
  (forall a',
     fst (match_loop max_search_km ds assigned g) = Ok a' ->
     exists extra,
       a' = assigned ++ extra /\
       Subseq (map fst extra) (map fst ds) /\
       forall p, In p extra -> In (snd p) (Dict.keys (recipients (repo g)))).
Proof.
  revert assigned g. induction ds as [|[key d0] ds IH]; intros assigned g Hwf Hsm Hmem.
  - simpl. split; [exact Hwf|]. split; [exact Hsm|].
    split; [apply matching_frame_refl|]. split; [reflexivity|].
    intros a' [= <-]. exists []. rewrite app_nil_r.
    split; [reflexivity|]. split; [constructor|]. intros p [].
  - cbn [match_loop]. unfold bind.
    destruct (match_one_inv max_search_km key d0 assigned g Hwf Hsm)
      as (Hwf1 & Hsm1 & Hfr1 & Hsame1 & Hres1).
    { apply (Hmem (key, d0)). now left. }
    destruct (match_one max_search_km (key, d0) assigned g) as [[a1|e] g1] eqn:Hone;
      simpl in *.
    + assert (Hmem1 : forall kd, In kd ds ->
                                 Dict.mem (donations (repo g1)) (fst kd) = true).
      { intros kd Hkd. apply dict_mem_keys. destruct Hfr1 as (Hk & _). rewrite Hk.
        apply dict_mem_keys, Hmem. now right. }
      destruct (IH a1 g1 Hwf1 Hsm1 Hmem1) as (Hwf2 & Hsm2 & Hfr2 & Hsame2 & Hres2).
      split; [exact Hwf2|]. split; [exact Hsm2|].
      split; [now apply matching_frame_trans with g1|].
      split.
      { intros Hempty. rewrite Hsame2; rewrite Hsame1; auto;
          unfold state_machine.get_donation; now rewrite Hempty. }
      intros a' Ha'. destruct (Hres2 a' Ha') as (extra & -> & Hsub & Hrec).
      assert (Hrk : Dict.keys (recipients (repo g1)) = Dict.keys (recipients (repo g)))
        by (destruct Hfr1 as (_ & Hr & _); exact Hr).
      destruct (Hres1 a1 eq_refl) as [->|(rkey & -> & Hrkey)].
      * exists extra. split; [reflexivity|]. split; [now constructor|].
        intros p Hp. rewrite <- Hrk. now apply Hrec.
      * exists ((key, rkey) :: extra). split; [now rewrite <- app_assoc|].
        split; [simpl; now constructor|].
        intros p [<-|Hp]; [exact Hrkey|]. rewrite <- Hrk. now apply Hrec.
    + split; [exact Hwf1|]. split; [exact Hsm1|]. split; [exact Hfr1|].
      split.
      { intros Hempty. apply Hsame1. unfold state_machine.get_donation.
        now rewrite Hempty. }
      intros a' [=].
Qed.

Lemma list_open_donations_mem (r : InMemoryRepo F) (kd : string * Donation.t F) :
  In kd (list_open_donations r) -> Dict.mem (donations r) (fst kd) = true.
Proof.
  unfold list_open_donations. intros Hin. apply filter_In in Hin.
  destruct Hin as [Hin _]. destruct kd as [k d]. now apply dict_in_mem with d.
Qed.

(** X9: what a matching run leaves alone.  On well-formed repositories,
    whether the run returns or raises, api_app's repository has the same
    donation and recipient ids in the same order, the same users, pickups
    and audit logs, and every donation is what it was except, possibly, for
    its [matched_recipient_id]: in particular no donation's state, weight
    or location changes, so every donation that was open is still open. *)
Theorem greedy_match_local_frame (max_search_km : F) (g : Globals F) :
  repo_wf (repo g) -> sm_repo_wf (state_machine_repo g) ->
  matching_frame g (snd (greedy_match_local max_search_km g)) /\
  forall k d,
    get_donation (repo g) k = Some d ->
    exists d',
      get_donation (repo (snd (greedy_match_local max_search_km g))) k = Some d' /\
      Donation.state d' = Donation.state d /\
      Donation.total_weight_kg d' = Donation.total_weight_kg d /\
      Donation.location d' = Donation.location d.
Proof.
  intros Hwf Hsm. unfold greedy_match_local, bind, gets.
  destruct (match_loop_inv max_search_km (list_open_donations (repo g)) [] g Hwf Hsm)
    as (_ & _ & Hfr & _).
  { intros kd. apply list_open_donations_mem. }
  split; [exact Hfr|].
  intros k d Hk. destruct Hfr as (_ & _ & _ & _ & _ & Hf).
  destruct (Hf k d Hk) as (d' & Hk' & Hs). exists d'. split; [exact Hk'|].
  rewrite Hs. auto.
Qed.

(** X10: what a matching run reports.  When the run returns, the donation
    ids of the assignment list are, in order, ids of donations that were
    open when the run started, none used more often than it is listed, and
    every recipient id in the list is the id of a stored recipient. *)
Theorem greedy_match_local_assignments (max_search_km : F) (g g' : Globals F)
  (assigned : list (string * string)) :
  repo_wf (repo g) -> sm_repo_wf (state_machine_repo g) ->
  greedy_match_local max_search_km g = (Ok assigned, g') ->
  Subseq (map fst assigned) (map fst (list_open_donations (repo g))) /\
  (forall p, In p assigned -> In (snd p) (Dict.keys (recipients (repo g)))) /\
  length assigned <= length (list_open_donations (repo g)).
Proof.
  intros Hwf Hsm. unfold greedy_match_local, bind, gets.
  destruct (match_loop_inv max_search_km (list_open_donations (repo g)) [] g Hwf Hsm)
    as (_ & _ & _ & _ & Hres).
  { intros kd. apply list_open_donations_mem. }
  intros Hrun. rewrite Hrun in Hres. destruct (Hres assigned eq_refl) as (extra & E & Hsub & Hrec).
  simpl in E. subst extra. split; [exact Hsub|]. split; [exact Hrec|].
  clear - Hsub.
  assert (Hlen : forall (l1 l2 : list string), Subseq l1 l2 -> length l1 <= length l2).
  { induction 1; simpl; lia. }
  apply Hlen in Hsub. now rewrite !length_map in Hsub.
Qed.

End MatchingRuns.

(** ** Pickup planning: when it goes through, and what it reports first *)

Section PickupRuns.
Import models_repo api_app.
Context {F : Type} `{FloatOps F}.

Lemma actor_role_valid_users (r r' : state_machine.InMemoryRepo) (actor : option string) :
  state_machine.users r' = state_machine.users r ->
  actor_role_valid r actor -> actor_role_valid r' actor.
Proof.
  intros Hu Hv value. unfold state_machine.resolve_role, state_machine.get_user.
  rewrite Hu. apply Hv.
Qed.

Lemma transition_state_succeeds (r : state_machine.InMemoryRepo) (did : string)
  (sd : state_machine.Donation) (to : DonationState) (actor notes : option string) :
  sm_repo_wf r ->
  actor_role_valid r actor ->
  state_machine.get_donation r did = Some sd ->
  to = state_machine.state sd \/ In to (state_machine.ALLOWED_TRANSITIONS (state_machine.state sd)) ->
  exists d' r', state_machine.transition_state did to actor notes r = (Ok d', r').
Proof.
  intros Hwf Hv Hd Hto.
  assert (Hid : state_machine.id sd = did) by (apply Hwf; now apply dict_get_in).
  rewrite (transition_state_stored r did sd to actor notes Hd Hid).
  destruct (DonationState_eqb to (state_machine.state sd)) eqn:Eq.
  { rewrite (new_AuditLogEntry_valid r did actor _ _ _ Hv). eauto. }
  destruct Hto as [->|Hin].
  { assert (E : DonationState_eqb (state_machine.state sd) (state_machine.state sd) = true)
      by now apply DonationState_eqb_eq.
    congruence. }
  apply state_in_In in Hin. rewrite Hin. cbn [negb]. cbv zeta.
  rewrite (new_AuditLogEntry_valid r did actor _ _ _ Hv). eauto.
Qed.

(** A donation that api_app stores and the state machine knows as matched
    or already scheduled can be scheduled by a volunteer whose role, if the
    state machine stores one, is the value of a member of [Role]. *)
Lemma schedule_one_succeeds (vid pid did : string) (g : Globals F)
  (d : Donation.t F) (sd : state_machine.Donation) :
  repo_wf (repo g) -> sm_repo_wf (state_machine_repo g) ->
  actor_role_valid (state_machine_repo g) (Some vid) ->
  get_donation (repo g) did = Some d ->
  state_machine.get_donation (state_machine_repo g) did = Some sd ->
  state_machine.state sd = MATCHED \/ state_machine.state sd = PICKUP_SCHEDULED ->
  exists g', schedule_one vid pid did g = (Ok tt, g').
Proof.
  intros [Hwd Hwr] Hsm Hv Hd Hsd Hstate.
  assert (Hid : Donation.id d = did) by (apply Hwd; now apply dict_get_in).
  unfold schedule_one, bind, gets, ret. rewrite Hd, Hid.
  unfold transition_state, on_state_machine.
  destruct (transition_state_succeeds (state_machine_repo g) did sd PICKUP_SCHEDULED
              (Some vid) (Some ("pickup " ++ pid ++ " planned")%string) Hsm Hv Hsd)
    as (d' & r' & ->).
  { destruct Hstate as [->| ->]; [right; simpl; auto|now left]. }
  unfold on_repo, assign_donation, modify, update_donation. simpl. rewrite Hid.
  unfold Dict.mem. rewrite dict_get_set_same. simpl. eauto.
Qed.

Lemma for_each_schedule_total (vid pid : string) (ids : list string) (g : Globals F) :
  repo_wf (repo g) -> sm_repo_wf (state_machine_repo g) ->
  actor_role_valid (state_machine_repo g) (Some vid) ->
  (forall x, In x ids ->
     (exists d, get_donation (repo g) x = Some d) /\
     exists sd, state_machine.get_donation (state_machine_repo g) x = Some sd /\
                (state_machine.state sd = MATCHED \/
                 state_machine.state sd = PICKUP_SCHEDULED)) ->
  exists g', for_each ids (schedule_one vid pid) g = (Ok tt, g').
Proof.
  revert g. induction ids as [|did ids IH]; intros g Hwf Hsm Hv Hall; simpl;
    [eexists; reflexivity|].
  destruct (Hall did (or_introl eq_refl)) as ((d & Hd) & sd & Hsd & Hstate).
  destruct (schedule_one_succeeds vid pid did g d sd Hwf Hsm Hv Hd Hsd Hstate) as (g1 & Hone).
  unfold bind. rewrite Hone.
  apply schedule_one_ok in Hone; auto.
  destruct Hone as (Hwf1 & Hsm1 & _ & _ & Husers & Hdone & Hother).
  apply IH; auto.
  { now apply actor_role_valid_users with (state_machine_repo g). }
  intros x Hx. destruct (string_dec x did) as [->|Hne].
  - destruct Hdone as ((d1 & Hd1 & _) & sd1 & Hsd1 & Hst1). split; eauto.
  - destruct (Hother x Hne) as [E1 E2]. rewrite E1, E2. apply Hall. now right.
Qed.

(** X11: [plan_pickup] goes through when it can.  If the route can be
    planned, the state machine knows every referenced donation as matched
    (or already scheduled), and the role the state machine stores for the
    volunteer, if it stores one, is the value of a member of [Role], then
    [plan_pickup] returns the pickup id and the planned route, the Pickup
    is stored with that route, and every referenced donation carries the
    pickup id and is in state [pickup_scheduled]; a donation listed twice
    is no obstacle. *)
Theorem plan_pickup_schedules_all (vid pid : string) (ids : list string)
  (ordered : list (F * F)) (g : Globals F) :
  repo_wf (repo g) -> sm_repo_wf (state_machine_repo g) ->
  actor_role_valid (state_machine_repo g) (Some vid) ->
  plan_route_local (repo g) vid ids = Ok ordered ->
  (forall x, In x ids ->
     exists sd, state_machine.get_donation (state_machine_repo g) x = Some sd /\
                (state_machine.state sd = MATCHED \/
                 state_machine.state sd = PICKUP_SCHEDULED)) ->
  exists g',
    plan_pickup vid ids pid g = (Ok (pid, ordered), g') /\
    Dict.get (pickups (repo g')) pid =
      Some (Pickup.mk F pid (Some vid) ids ordered "scheduled") /\
    forall x, In x ids -> scheduled_for pid x g'.
Proof.
  intros Hwf Hsm Hv Hplan Hall.
  set (p := Pickup.mk F pid (Some vid) ids ordered "scheduled").
  set (g0 := snd (on_repo (add_pickup p) g)).
  assert (Hadd : on_repo (add_pickup p) g = (Ok p, g0)) by reflexivity.
  destruct (for_each_schedule_total vid pid ids g0) as (g' & Hloop); auto.
  { intros x Hx. split; [|now apply Hall].
    destruct (plan_route_local_known _ _ _ _ Hplan) as (_ & Hids).
    destruct (Hids x Hx) as (d & Hd & _). eauto. }
  exists g'.
  destruct (for_each_schedule_ok vid pid ids g0 g') as (_ & _ & Hpk & Hdone & _); auto.
  split; [|split; [|exact Hdone]].
  - unfold plan_pickup, bind, gets. rewrite Hplan. unfold p in Hadd. rewrite Hadd.
    cbn [Pickup.id]. now rewrite Hloop.
  - rewrite Hpk. unfold g0, on_repo, add_pickup. simpl. apply dict_get_set_same.
Qed.

Lemma collect_points_first_missing (r : InMemoryRepo F) (pre post : list string)
  (did : string) :
  Forall (fun x => exists d, get_donation r x = Some d /\
                             readable_location (Donation.location d)) pre ->
  match get_donation r did with
  | None => True
  | Some d => truthy_dict (Donation.location d) = None
  end ->
  collect_points r (pre ++ did :: post) = Raise (ValueError_DonationMissing did).
Proof.
  intros Hpre Hdid.
  induction Hpre as [|x pre (d & Hd & location & lat & lon & Ht & Hlat & Hlon) _ IH]; simpl.
  - destruct (get_donation r did) as [d|] eqn:Hd; [|reflexivity]. now rewrite Hdid.
  - rewrite Hd, Ht. unfold rbind. now rewrite Hlat, Hlon, IH.
Qed.

(** X12: what [plan_pickup] rejects, and that it rejects before writing.
    Whenever no route can be planned, [plan_pickup] raises what the planner
    raised, and nothing is stored and nothing is changed.  Without a
    volunteer whose location is true the planner raises the volunteer
    error, whatever the donations are; with a volunteer whose coordinates
    can be read, it raises the donation error naming the first listed id
    that is unknown or whose location is not true, when the coordinates of
    the donations listed before it can be read. *)
Theorem plan_pickup_rejects_first (vid pid : string) (g : Globals F) :
  (forall ids e,
     plan_route_local (repo g) vid ids = Raise e ->
     plan_pickup vid ids pid g = (Raise e, g)) /\
  (forall ids,
     match get_user (repo g) vid with
     | None => True
     | Some v => truthy_dict (User.location v) = None
     end ->
     plan_pickup vid ids pid g = (Raise ValueError_VolunteerMissing, g)) /\
  (forall v pre did post,
     get_user (repo g) vid = Some v -> readable_location (User.location v) ->
     Forall (fun x => exists d, get_donation (repo g) x = Some d /\
                                readable_location (Donation.location d)) pre ->
     match get_donation (repo g) did with
     | None => True
     | Some d => truthy_dict (Donation.location d) = None
     end ->
     plan_pickup vid (pre ++ did :: post) pid g =
       (Raise (ValueError_DonationMissing did), g)).
Proof.
  assert (Hgen : forall ids e,
            plan_route_local (repo g) vid ids = Raise e ->
            plan_pickup vid ids pid g = (Raise e, g)).
  { intros ids e Hplan. unfold plan_pickup, bind, gets, raise. now rewrite Hplan. }
  split; [exact Hgen|]. split.
  - intros ids Hv. apply Hgen. unfold plan_route_local.
    destruct (get_user (repo g) vid) as [v|]; [|reflexivity]. now rewrite Hv.
  - intros v pre did post Hv (location & lat & lon & Ht & Hlat & Hlon) Hpre Hdid.
    apply Hgen. unfold plan_route_local. rewrite Hv, Ht. unfold rbind.
    now rewrite Hlat, Hlon, (collect_points_first_missing _ _ _ _ Hpre Hdid).
Qed.

End PickupRuns.

(** ** What the routes of api_app can reach *)

Section Reachable.
Import models_repo api_app.
Context {F : Type} `{FloatOps F}.

Lemma schedule_one_empty_state_machine (vid pid x : string) (g : Globals F) :
  state_machine.donations (state_machine_repo g) = [] ->
  exists e, schedule_one vid pid x g = (Raise e, g).
Proof.
  intros Hempty. unfold schedule_one, bind, gets, raise.
  destruct (get_donation (repo g) x) as [d|]; [|eauto].
  unfold transition_state, on_state_machine.
  rewrite transition_state_not_found
    by (unfold state_machine.get_donation; now rewrite Hempty).
  simpl. destruct g. eauto.
Qed.

(** With nothing in the state machine's repository, [plan_pickup] changes
    at most the pickups. *)
Lemma plan_pickup_empty_state_machine (vid pid : string) (ids : list string) (g : Globals F) :
  state_machine.donations (state_machine_repo g) = [] ->
  state_machine_repo (snd (plan_pickup vid ids pid g)) = state_machine_repo g /\
  (exists ps, repo (snd (plan_pickup vid ids pid g)) = with_pickups (repo g) ps) /\
  (ids <> [] -> forall body, fst (plan_pickup vid ids pid g) <> Ok body).
Proof.
  intros Hempty. unfold plan_pickup, bind, gets, raise.
  destruct (plan_route_local (repo g) vid ids) as [ordered|e] eqn:Hplan.
  2:{ simpl. split; [reflexivity|]. split; [|intros _ body [=]].
      exists (pickups (repo g)). now destruct (repo g). }
  unfold on_repo, add_pickup. cbn [Pickup.id].
  destruct ids as [|x ids].
  - simpl. split; [reflexivity|]. split; [eexists; reflexivity|]. now intros [].
  - cbn [for_each]. unfold bind.
    match goal with
    | |- context [schedule_one vid pid x ?g0] =>
        destruct (schedule_one_empty_state_machine vid pid x g0 Hempty) as (e & ->)
    end.
    simpl. split; [reflexivity|]. split; [eexists; reflexivity|]. intros _ body [=].
Qed.

Lemma api_apply_inv (g : Globals F) (op : api_op F) :
  state_machine_repo g = state_machine.new_repo ->
  audit_logs (repo g) = [] ->
  repo_wf (repo g) ->
  state_machine_repo (api_apply g op) = state_machine.new_repo /\
  audit_logs (repo (api_apply g op)) = [] /\
  repo_wf (repo (api_apply g op)).
Proof.
  intros Hs Ha Hwf.
  assert (Hsmwf : sm_repo_wf (state_machine_repo g)) by (rewrite Hs; apply sm_new_repo_wf).
  assert (Hempty : state_machine.donations (state_machine_repo g) = []) by now rewrite Hs.
  destruct op as [u|d|x|d|km|vid ids pid|did req]; simpl.
  - repeat split; auto; apply Hwf.
  - unfold api_app_routes.create_donation.
    destruct (get_user (repo g) (Donation.donor_id d)); simpl; [|auto].
    split; [exact Hs|]. split; [exact Ha|]. now apply add_donation_wf.
  - split; [exact Hs|]. split; [exact Ha|]. now apply add_recipient_wf.
  - split; [exact Hs|]. split; [exact Ha|]. now apply add_donation_wf.
  - unfold api_app_routes.run_matching.
    assert (Hrun : snd (let (r, g') := greedy_match_local km g in
                        match r with
                        | Ok assigned => (Returned (assigned, length assigned), g')
                        | Raise e => (@Unhandled (list (string * string) * nat) e, g')
                        end) = snd (greedy_match_local km g)).
    { now destruct (greedy_match_local km g) as [[a|e] g']. }
    rewrite Hrun. unfold greedy_match_local, bind, gets.
    destruct (match_loop_inv km (list_open_donations (repo g)) [] g Hwf Hsmwf)
      as (Hwf' & _ & Hfr & Hsame & _).
    { intros kd. apply list_open_donations_mem. }
    split; [now rewrite Hsame|]. split; [|exact Hwf'].
    destruct Hfr as (_ & _ & _ & _ & Ha' & _). congruence.
  - unfold api_app_routes.plan_pickup.
    assert (Hrun : snd (let (r, g') := plan_pickup vid ids pid g in
                        match r with
                        | Ok body => (Returned body, g')
                        | Raise e => (@Unhandled (string * list (F * F)) e, g')
                        end) = snd (plan_pickup vid ids pid g)).
    { now destruct (plan_pickup vid ids pid g) as [[a|e] g']. }
    rewrite Hrun.
    destruct (plan_pickup_empty_state_machine vid pid ids g Hempty) as (Hs' & (ps & Hr') & _).
    split; [congruence|]. rewrite Hr'. simpl. split; [exact Ha|exact Hwf].
  - unfold api_app_routes.api_transition, transition_state, on_state_machine.
    rewrite transition_state_not_found
      by (unfold state_machine.get_donation; now rewrite Hempty).
    simpl. auto.
Qed.

Lemma api_fold_inv (ops : list (api_op F)) (g : Globals F) :
  state_machine_repo g = state_machine.new_repo ->
  audit_logs (repo g) = [] -> repo_wf (repo g) ->
  state_machine_repo (fold_left api_apply ops g) = state_machine.new_repo /\
  audit_logs (repo (fold_left api_apply ops g)) = [] /\
  repo_wf (repo (fold_left api_apply ops g)).
Proof.
  revert g. induction ops as [|op ops IH]; intros g Hs Ha Hwf; [auto|].
  cbn [fold_left]. destruct (api_apply_inv g op Hs Ha Hwf) as (Hs' & Ha' & Hwf').
  now apply IH.
Qed.

(** X13: what a process that only uses api_app can reach.  Starting from
    the freshly imported module and applying any sequence of route calls
    and seeding calls, the state machine's repository is still empty,
    api_app's own audit log is still empty, and api_app's repository is
    well formed. *)
Theorem api_reachable_invariant (ops : list (api_op F)) :
  state_machine_repo (fold_left api_apply ops api_app_routes.initial) =
    state_machine.new_repo /\
  audit_logs (repo (fold_left api_apply ops api_app_routes.initial)) = [] /\
  repo_wf (repo (fold_left api_apply ops api_app_routes.initial)).
Proof.
  destruct (api_fold_inv ops api_app_routes.initial) as (Hs & Ha & Hwf).
  - reflexivity.
  - reflexivity.
  - apply new_repo_wf.
  - split; [exact Hs|]. split; [exact Ha|exact Hwf].
Qed.

(** X14: what the routes answer in such a process.  After any sequence of
    route and seeding calls, every transition request is answered 400
    "Donation not found" and changes nothing; a matching run reports no
    assignment: it returns the empty list with count 0 and nothing changed,
    or it lets through, with nothing changed, the exception raised by
    reading a location or computing a distance, or it lets through the
    donation-not-found error; no audit trail is served; and a pickup plan
    for at least one donation never returns normally. *)
Theorem api_routes_never_advance (ops : list (api_op F)) :
  let g := fold_left api_apply ops api_app_routes.initial in
  (forall did req,
     api_app_routes.api_transition did req g =
       (HTTPException 400 (str_of ValueError_DonationNotFound), g)) /\
  (forall km,
     api_app_routes.run_matching km g = (Returned ([], 0), g) \/
     (exists e, is_location_error e = true /\
                api_app_routes.run_matching km g = (Unhandled e, g)) \/
     fst (api_app_routes.run_matching km g) = Unhandled ValueError_DonationNotFound) /\
  (forall did, api_app_routes.api_audit_logs did g = []) /\
  (forall vid ids pid body,
     ids <> [] -> fst (api_app_routes.plan_pickup vid ids pid g) <> Returned body).
Proof.
  intros g.
  destruct (api_fold_inv ops api_app_routes.initial eq_refl eq_refl new_repo_wf)
    as (Hs & Ha & Hwf).
  fold g in Hs, Ha, Hwf.
  assert (Hempty : state_machine.donations (state_machine_repo g) = []) by now rewrite Hs.
  split; [|split; [|split]].
  - intros did req.
    unfold api_app_routes.api_transition, transition_state, on_state_machine.
    rewrite transition_state_not_found
      by (unfold state_machine.get_donation; now rewrite Hempty).
    simpl. now destruct g.
  - intros km. unfold api_app_routes.run_matching, greedy_match_local, bind, gets.
    destruct (match_loop_empty_state_machine km (list_open_donations (repo g)) [] g Hempty)
      as [->|[(e & He & ->)|(g' & ->)]]; eauto.
  - intros did. unfold api_app_routes.api_audit_logs, get_audit_logs_for_donation.
    now rewrite Ha.
  - intros vid ids pid body Hne. unfold api_app_routes.plan_pickup.
    destruct (plan_pickup_empty_state_machine vid pid ids g Hempty) as (_ & _ & Hnever).
    specialize (Hnever Hne).
    destruct (plan_pickup vid ids pid g) as [[b|e] g'] eqn:Hrun; simpl in *;
      [|discriminate].
    exfalso. now apply (Hnever b).
Qed.

End Reachable.

(** ** Storing and finding donations *)

Section DonationStore.
Import models_repo api_app.
Context {F : Type} `{FloatOps F}.

Lemma dict_keys_set_new {V : Type} (m : Dict.t V) (k : string) (v : V) :
  Dict.mem m k = false -> Dict.keys (Dict.set m k v) = Dict.keys m ++ [k].
Proof.
  unfold Dict.mem, Dict.keys. induction m as [|[k0 v0] m IH]; simpl; [reflexivity|].
  destruct (String.eqb k k0) eqn:E; simpl; [discriminate|].
  intros Hm. now rewrite IH.
Qed.

(** X15: storing and finding a donation.  After [add_donation(d)] the
    repository returns [d] under [d.id] and what it returned before under
    every other id.  If the id was already stored, the donation keeps its
    place in the listing order and [update_donation(d)] does exactly what
    [add_donation(d)] does; if it was not, the donation goes to the end of
    the listing order and [update_donation(d)] raises [KeyError] and
    changes nothing. *)
Theorem donation_store_roundtrip (r : InMemoryRepo F) (d : Donation.t F) :
  get_donation (snd (add_donation d r)) (Donation.id d) = Some d /\
  (forall k, k <> Donation.id d ->
     get_donation (snd (add_donation d r)) k = get_donation r k) /\
  (Dict.mem (donations r) (Donation.id d) = true ->
   Dict.keys (donations (snd (add_donation d r))) = Dict.keys (donations r) /\
   update_donation d r = (Ok d, snd (add_donation d r))) /\
  (Dict.mem (donations r) (Donation.id d) = false ->
   Dict.keys (donations (snd (add_donation d r))) = Dict.keys (donations r) ++ [Donation.id d] /\
   update_donation d r = (Raise KeyError_DonationNotFound, r)).
Proof.
  unfold get_donation, add_donation, update_donation. simpl.
  split; [apply dict_get_set_same|]. split.
  { intros k Hk. now apply dict_get_set_other. }
  split; intros Hm; rewrite Hm; simpl.
  - split; [now apply dict_keys_set|reflexivity].
  - split; [now apply dict_keys_set_new|reflexivity].
Qed.

(** X16: [POST /donations].  For an unknown donor the route answers 404
    "donor not found" and stores nothing.  For a known donor it answers
    with the donation's id; afterwards the donation is found under its id,
    every other donation is found as before, the users and recipients are
    untouched, and the donation is listed by [GET /donations/open] if its
    state is posted. *)
Theorem create_donation_outcome (d : Donation.t F) (g : Globals F) :
  (get_user (repo g) (Donation.donor_id d) = None ->
   api_app_routes.create_donation d g =
     (HTTPException 404 (text "donor not found"), g)) /\
  (forall u,
     get_user (repo g) (Donation.donor_id d) = Some u ->
     fst (api_app_routes.create_donation d g) = Returned (Donation.id d) /\
     get_donation (repo (snd (api_app_routes.create_donation d g))) (Donation.id d) = Some d /\
     (forall k, k <> Donation.id d ->
        get_donation (repo (snd (api_app_routes.create_donation d g))) k =
        get_donation (repo g) k) /\
     users (repo (snd (api_app_routes.create_donation d g))) = users (repo g) /\
     recipients (repo (snd (api_app_routes.create_donation d g))) = recipients (repo g) /\
     (Donation.state d = POSTED ->
      In d (api_app_routes.list_open_donations
              (snd (api_app_routes.create_donation d g))))).
Proof.
  unfold api_app_routes.create_donation. split.
  - now intros ->.
  - intros u ->. simpl. split; [reflexivity|].
    split; [apply dict_get_set_same|]. split.
    { intros k Hk. unfold get_donation. simpl. now apply dict_get_set_other. }
    split; [reflexivity|]. split; [reflexivity|].
    intros Hst. unfold api_app_routes.list_open_donations, list_open_donations. simpl.
    apply in_map_iff. exists (Donation.id d, d). split; [reflexivity|].
    apply filter_In. split.
    + apply dict_get_in, dict_get_set_same.
    + simpl. rewrite Hst. reflexivity.
Qed.

End DonationStore.

(** ** The roles manager ([user_roles_criteria.RolesManager]) *)

Section RolesManagerFacts.
Import user_roles_criteria.
Variable strip : string -> string.

Lemma filter_length_id {A : Type} (f : A -> bool) (l : list A) :
  length (filter f l) = length l -> filter f l = l.
Proof.
  induction l as [|x l IH]; simpl; [reflexivity|].
  destruct (f x); simpl.
  - intros [= E]. now rewrite IH.
  - intros E. pose proof (filter_length_le f l). lia.
Qed.

Lemma filter_all {A : Type} (f : A -> bool) (l : list A) :
  (forall x, In x l -> f x = true) -> filter f l = l.
Proof.
  induction l as [|x l IH]; simpl; intros Hall; [reflexivity|].
  rewrite (Hall x (or_introl eq_refl)). f_equal. apply IH. intros y Hy. apply Hall. now right.
Qed.

Lemma filter_filter {A : Type} (f : A -> bool) (l : list A) :
  filter f (filter f l) = filter f l.
Proof.
  apply filter_all. intros x Hx. apply filter_In in Hx. tauto.
Qed.

Lemma forallb_filter {A : Type} (f g : A -> bool) (l : list A) :
  forallb f l = true -> forallb f (filter g l) = true.
Proof.
  rewrite !forallb_forall. intros Hall x Hx. apply filter_In in Hx. now apply Hall.
Qed.

Lemma other_id_spec (crit_id : string) (c : criterion) :
  other_id crit_id c = true <-> Dict.get c "id" <> Some (JStr crit_id).
Proof.
  unfold other_id. destruct (Dict.get c "id") as [[| | | |s| |]|]; try (split; [discriminate|reflexivity]).
  rewrite negb_true_iff, String.eqb_neq. split; [congruence|].
  intros Hne E. apply Hne. now rewrite E.
Qed.

(** *** What can be written *)

Lemma data_encodable_get (data : Data) (k : string) (l : list criterion) :
  data_encodable data = true -> Dict.get data k = Some l ->
  forallb criterion_encodable l = true.
Proof.
  unfold data_encodable. intros Hd Hg. apply dict_get_in in Hg.
  rewrite forallb_forall in Hd. specialize (Hd _ Hg). simpl in Hd.
  now apply andb_prop in Hd.
Qed.

Lemma data_encodable_set (data : Data) (k : string) (l : list criterion) :
  data_encodable data = true ->
  encodable k = true \/ Dict.mem data k = true ->
  forallb criterion_encodable l = true ->
  data_encodable (Dict.set data k l) = true.
Proof.
  unfold data_encodable, Dict.mem. intros Hd Hk Hl.
  induction data as [|[k0 l0] data IH]; simpl in *.
  - destruct Hk as [->|Hk]; [now rewrite Hl|discriminate].
  - apply andb_prop in Hd. destruct Hd as [Hd0 Hd].
    apply andb_prop in Hd0. destruct Hd0 as [Hk0 Hl0].
    destruct (String.eqb k k0) eqn:E; simpl.
    + now rewrite Hk0, Hl, Hd.
    + rewrite Hk0, Hl0. simpl. apply IH; auto.
Qed.

Lemma criteria_of_encodable (m : RolesManager) (role : string) :
  data_encodable (_data m) = true ->
  forallb criterion_encodable (criteria_of m role) = true.
Proof.
  intros Hd. unfold criteria_of.
  destruct (Dict.get (_data m) role) as [l|] eqn:Hg; [|reflexivity].
  now apply data_encodable_get with (_data m) role.
Qed.

Lemma asdict_encodable (uuid txt : string) (b : bool) :
  encodable uuid = true -> encodable txt = true ->
  criterion_encodable (asdict (mkCriteria (JStr uuid) (JStr txt) (JBool b))) = true.
Proof.
  intros Hu Ht. unfold criterion_encodable, asdict. cbn [forallb fst snd id text mandatory].
  cbn [json_encodable]. rewrite Hu, Ht. reflexivity.
Qed.

(** *** The methods, outcome by outcome *)

Lemma _write_cases (data : Data) (m : RolesManager) :
  data_encodable data = true /\ _write data m = (Ok tt, mkManager data (Holds data)) \/
  data_encodable data = false /\
  _write data m = (Raise UnicodeEncodeError, mkManager (_data m) Partial).
Proof. unfold _write. destruct (data_encodable data); auto. Qed.

Lemma ensure_role_eq (role : string) (m : RolesManager) :
  ensure_role role m =
  if Dict.mem (_data m) role then (Ok tt, m)
  else _write (Dict.set (_data m) role []) (mkManager (Dict.set (_data m) role []) (file m)).
Proof.
  unfold ensure_role, bind, gets, set_role, modify, ret.
  now destruct (Dict.mem (_data m) role).
Qed.

Lemma ensure_role_data (role : string) (m : RolesManager) :
  _data (snd (ensure_role role m)) =
  if Dict.mem (_data m) role then _data m else Dict.set (_data m) role [].
Proof.
  rewrite ensure_role_eq. destruct (Dict.mem (_data m) role); [reflexivity|].
  unfold _write. now destruct (data_encodable _).
Qed.

Lemma criteria_of_ensure_role (role r : string) (m : RolesManager) :
  criteria_of (snd (ensure_role role m)) r = criteria_of m r.
Proof.
  unfold criteria_of. rewrite ensure_role_data. unfold Dict.mem.
  destruct (Dict.get (_data m) role) as [l|] eqn:Hr; [reflexivity|].
  destruct (string_dec r role) as [->|Hne].
  - now rewrite dict_get_set_same, Hr.
  - now rewrite dict_get_set_other.
Qed.

Lemma ensure_role_get (role : string) (m : RolesManager) :
  Dict.get (_data (snd (ensure_role role m))) role = Some (criteria_of m role).
Proof.
  rewrite ensure_role_data. unfold criteria_of, Dict.mem.
  destruct (Dict.get (_data m) role) as [l|] eqn:Hr; [exact Hr|].
  apply dict_get_set_same.
Qed.

Lemma ensure_role_roles (role : string) (m : RolesManager) :
  list_roles (snd (ensure_role role m)) =
  if Dict.mem (_data m) role then list_roles m else list_roles m ++ [role].
Proof.
  unfold list_roles. rewrite ensure_role_data.
  destruct (Dict.mem (_data m) role) eqn:Hm; [reflexivity|].
  now apply dict_keys_set_new.
Qed.

Lemma ensure_role_written (role : string) (m : RolesManager) :
  synced m -> written (ensure_role role m).
Proof.
  intros Hs. rewrite ensure_role_eq. destruct (Dict.mem (_data m) role); [exact Hs|].
  unfold _write. destruct (data_encodable _); simpl; [reflexivity|auto].
Qed.

(** [ensure_role] raises nothing but the error of the write, and returns
    when what it writes can be written. *)
Lemma ensure_role_cases (role : string) (m : RolesManager) :
  (exists m1, ensure_role role m = (Ok tt, m1) /\ (synced m -> synced m1) /\
              (data_encodable (_data m) = true -> data_encodable (_data m1) = true)) \/
  (exists m1, ensure_role role m = (Raise UnicodeEncodeError, m1) /\ file m1 = Partial /\
              Dict.mem (_data m) role = false /\
              data_encodable (Dict.set (_data m) role []) = false).
Proof.
  rewrite ensure_role_eq. destruct (Dict.mem (_data m) role) eqn:Hm.
  { left. exists m. auto. }
  destruct (_write_cases (Dict.set (_data m) role [])
              (mkManager (Dict.set (_data m) role []) (file m))) as [(He & ->)|(He & ->)].
  - left. eexists. split; [reflexivity|]. split; [reflexivity|]. intros _. exact He.
  - right. eexists. split; [reflexivity|]. auto.
Qed.

Lemma ensure_role_returns (role : string) (m : RolesManager) :
  data_encodable (_data m) = true -> encodable role = true ->
  exists m1, ensure_role role m = (Ok tt, m1).
Proof.
  intros Hd Hr.
  destruct (ensure_role_cases role m) as [(m1 & -> & _)|(m1 & _ & _ & _ & Hbad)]; [eauto|].
  rewrite data_encodable_set in Hbad; auto. discriminate.
Qed.

Lemma add_criteria_eq (role txt : string) (mandatory : bool) (uuid : string)
  (m : RolesManager) :
  add_criteria strip role txt mandatory uuid m =
  match ensure_role role m with
  | (Raise e, m1) => (Raise e, m1)
  | (Ok _, m1) =>
      let c := mkCriteria (JStr uuid) (JStr (strip txt)) (JBool mandatory) in
      let data := Dict.set (_data m1) role (criteria_of m role ++ [asdict c]) in
      match _write data (mkManager data (file m1)) with
      | (Ok _, m2) => (Ok c, m2)
      | (Raise e, m2) => (Raise e, m2)
      end
  end.
Proof.
  unfold add_criteria, bind.
  pose proof (ensure_role_get role m) as Hget.
  destruct (ensure_role role m) as [[[]|e] m1]; [|reflexivity].
  cbn [snd] in Hget. cbv zeta. unfold get_role. rewrite Hget.
  unfold set_role, modify, gets, ret. cbn [_data file].
  now destruct (_write _ _) as [[[]|e] m2].
Qed.

Lemma list_criteria_eq (role : string) (m : RolesManager) :
  list_criteria role m =
  match ensure_role role m with
  | (Raise e, m1) => (Raise e, m1)
  | (Ok _, m1) => (Criteria_of_all (criteria_of m role), m1)
  end.
Proof.
  unfold list_criteria, bind, gets, lift.
  pose proof (criteria_of_ensure_role role role m) as Hc.
  destruct (ensure_role role m) as [[[]|e] m1]; [|reflexivity].
  cbn [snd] in Hc. now rewrite Hc.
Qed.

Lemma remove_criteria_eq (role crit_id : string) (m : RolesManager) :
  remove_criteria role crit_id m =
  match ensure_role role m with
  | (Raise e, m1) => (Raise e, m1)
  | (Ok _, m1) =>
      let l := criteria_of m role in
      let kept := filter (other_id crit_id) l in
      let m2 := mkManager (Dict.set (_data m1) role kept) (file m1) in
      if negb (Nat.eqb (length kept) (length l)) then
        match _write (_data m2) m2 with
        | (Ok _, m3) => (Ok true, m3)
        | (Raise e, m3) => (Raise e, m3)
        end
      else (Ok false, m2)
  end.
Proof.
  unfold remove_criteria, bind.
  pose proof (ensure_role_get role m) as Hget.
  destruct (ensure_role role m) as [[[]|e] m1]; [|reflexivity].
  cbn [snd] in Hget. cbv zeta. unfold get_role. rewrite Hget.
  unfold set_role, modify, gets, ret. cbn [_data file].
  destruct (negb (Nat.eqb _ _)); [|reflexivity].
  now destruct (_write _ _) as [[[]|e] m3].
Qed.

Lemma add_criteria_written (role txt : string) (mandatory : bool) (uuid : string)
  (m : RolesManager) :
  written (add_criteria strip role txt mandatory uuid m).
Proof.
  rewrite add_criteria_eq.
  destruct (ensure_role_cases role m) as [(m1 & -> & _)|(m1 & -> & Hf & _)];
    [|split; [reflexivity|exact Hf]].
  cbv zeta. unfold _write. destruct (data_encodable _); simpl; [reflexivity|auto].
Qed.

Lemma remove_criteria_written (role crit_id : string) (m : RolesManager) :
  synced m -> written (remove_criteria role crit_id m).
Proof.
  intros Hs. rewrite remove_criteria_eq.
  pose proof (ensure_role_get role m) as Hget.
  destruct (ensure_role_cases role m) as [(m1 & He & Hs1 & _)|(m1 & -> & Hf & _)];
    [|split; [reflexivity|exact Hf]].
  rewrite He in *. cbn [snd] in Hget. cbv zeta.
  destruct (Nat.eqb _ _) eqn:E; cbn [negb].
  - apply Nat.eqb_eq, filter_length_id in E. rewrite E.
    unfold written, synced. cbn [_data file].
    rewrite (dict_set_get_id _ _ _ Hget). now apply Hs1.
  - unfold _write. destruct (data_encodable _); simpl; [reflexivity|auto].
Qed.

Lemma Criteria_of_all_raises (l : list criterion) (e : exn) :
  Criteria_of_all l = Raise e -> e = TypeError_Arguments.
Proof.
  revert e. induction l as [|c l IH]; intros e; cbn [Criteria_of_all]; [discriminate|].
  unfold rbind, Criteria_kwargs.
  destruct (forallb _ c); [|now intros [= <-]].
  destruct (Dict.get c "id"); [|now intros [= <-]].
  destruct (Dict.get c "text"); [|now intros [= <-]].
  destruct (Criteria_of_all l) as [xs|e']; [discriminate|].
  intros [= <-]. now apply IH.
Qed.

Lemma list_criteria_written (role : string) (m : RolesManager) :
  synced m ->
  written (list_criteria role m) \/
  fst (list_criteria role m) = Raise TypeError_Arguments /\
  synced (snd (list_criteria role m)).
Proof.
  intros Hm. rewrite list_criteria_eq.
  destruct (ensure_role_cases role m) as [(m1 & -> & Hs1 & _)|(m1 & -> & Hf & _)].
  - destruct (Criteria_of_all (criteria_of m role)) as [cs|e] eqn:Hc.
    + left. now apply Hs1.
    + right. apply Criteria_of_all_raises in Hc. subst e. split; [reflexivity|now apply Hs1].
  - left. split; [reflexivity|exact Hf].
Qed.

Lemma add_criteria_returns (role txt : string) (mandatory : bool) (uuid : string)
  (m : RolesManager) :
  data_encodable (_data m) = true ->
  encodable role = true -> encodable (strip txt) = true -> encodable uuid = true ->
  exists m',
    add_criteria strip role txt mandatory uuid m =
      (Ok (mkCriteria (JStr uuid) (JStr (strip txt)) (JBool mandatory)), m').
Proof.
  intros Hd Hr Ht Hu. rewrite add_criteria_eq.
  pose proof (ensure_role_get role m) as Hget.
  destruct (ensure_role_cases role m) as [(m1 & He & _ & Hd1)|(m1 & He & _ & _ & Hbad)].
  2:{ rewrite data_encodable_set in Hbad; auto. discriminate. }
  rewrite He in *. cbn [snd] in Hget. cbv zeta.
  unfold _write. rewrite data_encodable_set; [eauto|auto| |].
  - right. now apply dict_get_mem with (criteria_of m role).
  - rewrite forallb_app, (criteria_of_encodable m role Hd). cbn [forallb].
    now rewrite asdict_encodable.
Qed.

Lemma remove_criteria_returns (role crit_id : string) (m : RolesManager) :
  data_encodable (_data m) = true ->
  Dict.mem (_data m) role = true \/ encodable role = true ->
  exists b m', remove_criteria role crit_id m = (Ok b, m').
Proof.
  intros Hd Hr. rewrite remove_criteria_eq.
  pose proof (ensure_role_get role m) as Hget.
  destruct (ensure_role_cases role m) as [(m1 & He & _ & Hd1)|(m1 & He & _ & Hm & Hbad)].
  2:{ rewrite data_encodable_set in Hbad; auto; [discriminate|].
      destruct Hr as [Hr|Hr]; [congruence|auto]. }
  rewrite He in *. cbn [snd] in Hget. cbv zeta.
  destruct (negb (Nat.eqb _ _)); [|eauto].
  unfold _write. cbn [_data]. rewrite data_encodable_set; [eauto|auto| |].
  - right. now apply dict_get_mem with (criteria_of m role).
  - apply forallb_filter. now apply criteria_of_encodable.
Qed.

(** X17: the file follows the memory, unless a write fails.  A manager
    that [RolesManager()] built has on disk what it has in memory; with no
    file there, that is the four default roles without criteria.
    [ensure_role], [add_criteria] and [remove_criteria] then either return,
    and the file holds exactly [_data] (also when [remove_criteria] finds
    nothing to remove and does not write), or raise [UnicodeEncodeError]
    from the write, and the file holds the beginning of a document;
    [list_criteria] may also raise the [TypeError] of a stored dict that is
    no criterion, with the file as it should be.  The three return
    whenever every str in [_data] and in the arguments has a UTF-8
    encoding. *)
Theorem roles_manager_synced :
  (forall on_disk m, init on_disk = Ok m -> synced m) /\
  init Missing = Ok (mkManager _default_data (Holds _default_data)) /\
  (forall m,
     synced m ->
     (forall role, written (ensure_role role m)) /\
     (forall role txt mandatory uuid,
        written (add_criteria strip role txt mandatory uuid m)) /\
     (forall role,
        written (list_criteria role m) \/
        fst (list_criteria role m) = Raise TypeError_Arguments /\
        synced (snd (list_criteria role m))) /\
     (forall role crit_id, written (remove_criteria role crit_id m))) /\
  (forall m,
     data_encodable (_data m) = true ->
     (forall role, encodable role = true -> exists m', ensure_role role m = (Ok tt, m')) /\
     (forall role txt mandatory uuid,
        encodable role = true -> encodable (strip txt) = true -> encodable uuid = true ->
        exists c m', add_criteria strip role txt mandatory uuid m = (Ok c, m')) /\
     (forall role crit_id,
        encodable role = true ->
        exists b m', remove_criteria role crit_id m = (Ok b, m'))).
Proof.
  split; [|split; [reflexivity|split]].
  - intros [|data|] m; simpl; [intros [= <-]|intros [= <-]|discriminate]; reflexivity.
  - intros m Hm. split; [intros; now apply ensure_role_written|].
    split; [intros; apply add_criteria_written|].
    split; [intros; now apply list_criteria_written|].
    intros; now apply remove_criteria_written.
  - intros m Hd. split; [intros; now apply ensure_role_returns|]. split.
    + intros role txt mandatory uuid Hr Ht Hu.
      destruct (add_criteria_returns role txt mandatory uuid m) as (m' & ->); eauto.
    + intros role crit_id Hr. apply remove_criteria_returns; auto.
Qed.

Lemma remove_criteria_after (role crit_id : string) (m : RolesManager) :
  criteria_of (snd (remove_criteria role crit_id m)) role =
  filter (other_id crit_id) (criteria_of m role).
Proof.
  rewrite remove_criteria_eq.
  pose proof (criteria_of_ensure_role role role m) as Hc.
  destruct (ensure_role_cases role m) as [(m1 & He & _)|(m1 & He & _ & Hm & _)];
    rewrite He in *; cbn [snd] in *.
  - cbv zeta. destruct (negb (Nat.eqb _ _)).
    + unfold _write. cbn [_data].
      destruct (data_encodable _); unfold criteria_of; cbn [snd _data];
        now rewrite dict_get_set_same.
    + unfold criteria_of at 1. cbn [snd _data]. now rewrite dict_get_set_same.
  - rewrite Hc. unfold criteria_of, Dict.mem in *.
    destruct (Dict.get (_data m) role); [discriminate|reflexivity].
Qed.

Lemma remove_criteria_others (role crit_id r : string) (m : RolesManager) :
  r <> role ->
  criteria_of (snd (remove_criteria role crit_id m)) r = criteria_of m r.
Proof.
  intros Hne. rewrite remove_criteria_eq.
  pose proof (criteria_of_ensure_role role r m) as Hc.
  destruct (ensure_role role m) as [[[]|e] m1]; cbn [snd] in *; [|exact Hc].
  cbv zeta. rewrite <- Hc. destruct (negb (Nat.eqb _ _)).
  - unfold _write. cbn [_data].
    destruct (data_encodable _); unfold criteria_of; cbn [snd _data];
      now rewrite dict_get_set_other.
  - unfold criteria_of. cbn [snd _data]. now rewrite dict_get_set_other.
Qed.

Lemma filter_shorter (crit_id : string) (l : list criterion) :
  Nat.eqb (length (filter (other_id crit_id) l)) (length l) = false <->
  exists c, In c l /\ Dict.get c "id" = Some (JStr crit_id).
Proof.
  rewrite Nat.eqb_neq. split.
  - intros Hlen. induction l as [|c l IH]; simpl in *; [congruence|].
    destruct (other_id crit_id c) eqn:E; simpl in *.
    + destruct IH as (c' & Hin & Hid); [congruence|eauto].
    + exists c. split; [now left|].
      destruct (Dict.get c "id") as [v|] eqn:Hg.
      * destruct (other_id_spec crit_id c) as [_ Hback].
        destruct v as [| | | |s| |];
          try (rewrite Hback in E; [discriminate|rewrite Hg; discriminate]).
        unfold other_id in E. rewrite Hg in E.
        apply negb_false_iff, String.eqb_eq in E. now subst.
      * unfold other_id in E. rewrite Hg in E. discriminate.
  - intros (c & Hin & Hid) Hlen. apply filter_length_id in Hlen.
    rewrite <- Hlen in Hin. apply filter_In in Hin. destruct Hin as [_ Hne].
    apply other_id_spec in Hne. contradiction.
Qed.

(** X18: removing a criterion.  [remove_criteria(role, id)] keeps in
    memory, in order, exactly the criteria of the role whose id is
    different, and leaves every other role alone, whether it returns or
    raises.  When it returns, it returns [True] exactly when the role had
    a criterion with that id; it raises nothing but the
    [UnicodeEncodeError] of a write, and returns whenever every str in
    [_data] and the role name have a UTF-8 encoding.  Removing the same id
    again returns [False]. *)
Theorem remove_criteria_removes (role crit_id : string) (m : RolesManager) :
  criteria_of (snd (remove_criteria role crit_id m)) role =
    filter (other_id crit_id) (criteria_of m role) /\
  (forall c, In c (criteria_of (snd (remove_criteria role crit_id m)) role) <->
             In c (criteria_of m role) /\ Dict.get c "id" <> Some (JStr crit_id)) /\
  (forall r, r <> role ->
     criteria_of (snd (remove_criteria role crit_id m)) r = criteria_of m r) /\
  (forall b, fst (remove_criteria role crit_id m) = Ok b ->
     (b = true <->
      exists c, In c (criteria_of m role) /\ Dict.get c "id" = Some (JStr crit_id))) /\
  (forall e, fst (remove_criteria role crit_id m) = Raise e ->
     e = UnicodeEncodeError /\ file (snd (remove_criteria role crit_id m)) = Partial) /\
  (data_encodable (_data m) = true -> encodable role = true ->
   exists b, fst (remove_criteria role crit_id m) = Ok b) /\
  fst (remove_criteria role crit_id (snd (remove_criteria role crit_id m))) = Ok false.
Proof.
  split; [apply remove_criteria_after|]. split.
  { intros c. rewrite remove_criteria_after, filter_In, other_id_spec. tauto. }
  split; [intros; now apply remove_criteria_others|].
  split.
  { intros b. rewrite remove_criteria_eq.
    destruct (ensure_role role m) as [[[]|e] m1]; [|discriminate]. cbv zeta.
    destruct (Nat.eqb _ _) eqn:E; cbn [negb].
    - intros [= <-]. split; [discriminate|]. intros Hex.
      apply filter_shorter in Hex. congruence.
    - unfold _write. destruct (data_encodable _); [|discriminate].
      intros [= <-]. split; [|reflexivity]. intros _. now apply filter_shorter. }
  split.
  { intros e. rewrite remove_criteria_eq.
    destruct (ensure_role_cases role m) as [(m1 & -> & _)|(m1 & -> & Hf & _)].
    - cbv zeta. destruct (negb (Nat.eqb _ _)); [|discriminate].
      unfold _write. destruct (data_encodable _); [discriminate|].
      intros [= <-]. auto.
    - intros [= <-]. auto. }
  split.
  { intros Hd Hr.
    destruct (remove_criteria_returns role crit_id m Hd) as (b & m' & ->); [now right|].
    exists b. reflexivity. }
  set (m' := snd (remove_criteria role crit_id m)).
  assert (Hget : Dict.get (_data m') role = Some (filter (other_id crit_id) (criteria_of m role))).
  { pose proof (remove_criteria_after role crit_id m) as Ha. fold m' in Ha.
    unfold criteria_of in Ha at 1.
    destruct (Dict.get (_data m') role) as [l|] eqn:Hg; [now rewrite Ha|].
    exfalso. unfold m' in Hg. rewrite remove_criteria_eq in Hg.
    pose proof (ensure_role_get role m) as Hget.
    destruct (ensure_role role m) as [[[]|e] m1]; cbn [snd] in *; [|congruence].
    cbv zeta in Hg. destruct (negb (Nat.eqb _ _)).
    - unfold _write in Hg. cbn [_data] in Hg.
      destruct (data_encodable _); cbn [snd _data] in Hg;
        rewrite dict_get_set_same in Hg; discriminate.
    - cbn [snd _data] in Hg. rewrite dict_get_set_same in Hg. discriminate. }
  rewrite remove_criteria_eq, ensure_role_eq.
  unfold Dict.mem. rewrite Hget. cbv zeta.
  unfold criteria_of. rewrite Hget, filter_filter, Nat.eqb_refl. reflexivity.
Qed.

Lemma add_criteria_after (role txt : string) (mandatory : bool) (uuid : string)
  (m : RolesManager) (c : Criteria) (m1 : RolesManager) :
  add_criteria strip role txt mandatory uuid m = (Ok c, m1) ->
  c = mkCriteria (JStr uuid) (JStr (strip txt)) (JBool mandatory) /\
  synced m1 /\ data_encodable (_data m1) = true /\
  Dict.get (_data m1) role = Some (criteria_of m role ++ [asdict c]) /\
  (forall r, r <> role -> criteria_of m1 r = criteria_of m r).
Proof.
  rewrite add_criteria_eq.
  pose proof (fun r => criteria_of_ensure_role role r m) as Hc.
  destruct (ensure_role role m) as [[[]|e] m0]; [|discriminate]. cbn [snd] in Hc.
  cbv zeta. unfold _write. destruct (data_encodable _) eqn:Hd; [|discriminate].
  intros [= <- <-]. split; [reflexivity|]. split; [reflexivity|]. split; [exact Hd|].
  cbn [_data]. split; [apply dict_get_set_same|].
  intros r Hne. transitivity (criteria_of m0 r); [|apply Hc].
  unfold criteria_of. cbn [_data]. now rewrite dict_get_set_other.
Qed.

(** X19: adding a criterion, and undoing it.  When [add_criteria] returns,
    it returns the criterion with the given id, the stripped text and the
    given flag, has put it last among the criteria of the role (creating
    the role if need be) and left every other role alone, and the file
    holds the result; if no criterion of the role had that id,
    [remove_criteria] with the id then returns [True] and the role has the
    criteria it had before.  [add_criteria] returns whenever every str in
    [_data], the role name, the stripped text and the id have a UTF-8
    encoding.  The [add-criteria] command always stores the criterion as
    mandatory, whatever its flag. *)
Theorem add_criteria_then_remove (role txt : string) (mandatory : bool) (uuid : string)
  (m : RolesManager) :
  let c := mkCriteria (JStr uuid) (JStr (strip txt)) (JBool mandatory) in
  (forall c' m1,
     add_criteria strip role txt mandatory uuid m = (Ok c', m1) ->
     c' = c /\ synced m1 /\
     criteria_of m1 role = criteria_of m role ++ [asdict c] /\
     (forall r, r <> role -> criteria_of m1 r = criteria_of m r) /\
     ((forall x, In x (criteria_of m role) -> Dict.get x "id" <> Some (JStr uuid)) ->
      fst (remove_criteria role uuid m1) = Ok true /\
      criteria_of (snd (remove_criteria role uuid m1)) role = criteria_of m role)) /\
  (data_encodable (_data m) = true ->
   encodable role = true -> encodable (strip txt) = true -> encodable uuid = true ->
   exists m1, add_criteria strip role txt mandatory uuid m = (Ok c, m1)) /\
  (forall flag c' m1,
     main_add_criteria strip role txt flag uuid m = (Ok c', m1) ->
     user_roles_criteria.mandatory c' = JBool true).
Proof.
  intros c. split; [|split].
  - intros c' m1 Hadd.
    destruct (add_criteria_after _ _ _ _ _ _ _ Hadd) as (-> & Hs & Hd & Hget & Hothers).
    fold c in Hget.
    assert (Hc1 : criteria_of m1 role = criteria_of m role ++ [asdict c]).
    { unfold criteria_of at 1. now rewrite Hget. }
    split; [reflexivity|]. split; [exact Hs|]. split; [exact Hc1|].
    split; [exact Hothers|].
    intros Hfresh.
    assert (Hafter : criteria_of (snd (remove_criteria role uuid m1)) role =
                     criteria_of m role).
    { rewrite remove_criteria_after, Hc1, filter_app. cbn [filter].
      assert (E : other_id uuid (asdict c) = false).
      { unfold other_id, asdict, c. cbn. now rewrite String.eqb_refl. }
      rewrite E, app_nil_r. apply filter_all.
      intros x Hx. apply other_id_spec. now apply Hfresh. }
    split; [|exact Hafter].
    destruct (remove_criteria_returns role uuid m1 Hd) as (b & m2 & Hrm).
    { left. now apply dict_get_mem with (criteria_of m role ++ [asdict c]). }
    rewrite Hrm. cbn [fst]. f_equal.
    revert Hrm. rewrite remove_criteria_eq.
    destruct (ensure_role role m1) as [[[]|e] m0]; [|discriminate]. cbv zeta.
    destruct (Nat.eqb _ _) eqn:E; cbn [negb].
    + exfalso. apply Nat.eqb_eq, filter_length_id in E.
      assert (Hin : In (asdict c) (filter (other_id uuid) (criteria_of m1 role))).
      { rewrite E, Hc1. apply in_or_app. right. now left. }
      apply filter_In in Hin. destruct Hin as [_ Hne].
      unfold other_id, asdict, c in Hne. cbn in Hne. rewrite String.eqb_refl in Hne.
      discriminate.
    + destruct (_write _ _) as [[[]|e] m3]; [|discriminate]. now intros [= <- _].
  - intros Hd Hr Ht Hu. now apply add_criteria_returns.
  - intros flag c' m1. unfold main_add_criteria. rewrite orb_true_r.
    intros Hadd. apply add_criteria_after in Hadd. now destruct Hadd as (-> & _).
Qed.

Lemma Criteria_of_all_asdict (cs : list Criteria) : Criteria_of_all (map asdict cs) = Ok cs.
Proof.
  induction cs as [|[i t b] cs IH]; [reflexivity|].
  cbn [map Criteria_of_all]. rewrite IH. reflexivity.
Qed.

Lemma Criteria_of_all_missing (l : list criterion) (c : criterion) :
  In c l -> Dict.get c "id" = None \/ Dict.get c "text" = None ->
  Criteria_of_all l = Raise TypeError_Arguments.
Proof.
  intros Hin Hmiss. induction l as [|x l IH]; [contradiction|].
  cbn [Criteria_of_all]. unfold rbind.
  destruct (Criteria_kwargs x) as [y|e] eqn:Hx.
  - destruct Hin as [->|Hin].
    + exfalso. unfold Criteria_kwargs in Hx.
      destruct (forallb _ c); [|discriminate].
      destruct Hmiss as [Hm|Hm]; rewrite Hm in Hx; [discriminate|].
      destruct (Dict.get c "id"); discriminate.
    + now rewrite (IH Hin).
  - f_equal. unfold Criteria_kwargs in Hx.
    destruct (forallb _ x); [|now injection Hx].
    destruct (Dict.get x "id"); [|now injection Hx].
    destruct (Dict.get x "text"); [discriminate|now injection Hx].
Qed.

(** X20: a read that writes.  [list_criteria] of a role the manager does
    not have adds the role at the end of the roles and writes the file: it
    returns no criteria, or the write raises [UnicodeEncodeError], the role
    stays added in memory and the file holds the beginning of a document.
    Of a role the manager has, it changes nothing, and returns the
    [Criteria] built from the stored dicts, which are the criteria
    themselves for dicts that [add_criteria] stored, or raises [TypeError]
    when a stored dict lacks [id] or [text]. *)
Theorem list_criteria_creates_role (role : string) (m : RolesManager) :
  (Dict.mem (_data m) role = false ->
   exists m',
     list_roles m' = list_roles m ++ [role] /\
     (data_encodable (Dict.set (_data m) role []) = true ->
      list_criteria role m = (Ok [], m') /\ synced m') /\
     (data_encodable (Dict.set (_data m) role []) = false ->
      list_criteria role m = (Raise UnicodeEncodeError, m') /\ file m' = Partial)) /\
  (Dict.mem (_data m) role = true ->
   list_criteria role m = (Criteria_of_all (criteria_of m role), m)) /\
  (forall cs, Criteria_of_all (map asdict cs) = Ok cs) /\
  (forall l c, In c l -> Dict.get c "id" = None \/ Dict.get c "text" = None ->
               Criteria_of_all l = Raise TypeError_Arguments).
Proof.
  split; [|split; [|split; [apply Criteria_of_all_asdict|apply Criteria_of_all_missing]]].
  - intros Hm. exists (snd (list_criteria role m)).
    rewrite list_criteria_eq.
    pose proof (ensure_role_roles role m) as Hroles. rewrite Hm in Hroles.
    assert (Hnone : criteria_of m role = []).
    { unfold criteria_of, Dict.mem in *. now destruct (Dict.get (_data m) role). }
    rewrite Hnone. cbn [Criteria_of_all].
    rewrite ensure_role_eq, Hm in *. unfold _write in *.
    destruct (data_encodable (Dict.set (_data m) role [])); cbn [snd] in *.
    + split; [exact Hroles|]. split; [intros _; split; reflexivity|discriminate].
    + split; [exact Hroles|]. split; [discriminate|intros _; split; reflexivity].
  - intros Hm. now rewrite list_criteria_eq, ensure_role_eq, Hm.
Qed.

End RolesManagerFacts.

(** ** Seeding the default criteria ([RolesManager.seed_defaults]) *)

Section SeedFacts.
Import user_roles_criteria.

Lemma setdefault_fold_mem (roles : list string) (d : Data) (r : string) :
  In r roles \/ Dict.mem d r = true ->
  Dict.mem (fold_left (fun d r => if Dict.mem d r then d else Dict.set d r []) roles d) r
    = true.
Proof.
  revert d. induction roles as [|r0 roles IH]; intros d; simpl.
  - intros [[]|Hm]. exact Hm.
  - intros Hr. apply IH. destruct Hr as [[->|Hin]|Hm]; auto; right.
    + destruct (Dict.mem d r) eqn:Hm; [exact Hm|].
      unfold Dict.mem. now rewrite dict_get_set_same.
    + destruct (Dict.mem d r0); [exact Hm|]. now apply dict_mem_set.
Qed.

Lemma setdefault_fold_id (roles : list string) (d : Data) :
  (forall r, In r roles -> Dict.mem d r = true) ->
  fold_left (fun d r => if Dict.mem d r then d else Dict.set d r []) roles d = d.
Proof.
  induction roles as [|r0 roles IH]; intros Hall; simpl; [reflexivity|].
  rewrite (Hall r0 (or_introl eq_refl)). apply IH. intros r Hr. apply Hall. now right.
Qed.

Lemma setdefault_fold_encodable (roles : list string) (d : Data) :
  forallb encodable roles = true -> data_encodable d = true ->
  data_encodable (fold_left (fun d r => if Dict.mem d r then d else Dict.set d r []) roles d)
    = true.
Proof.
  revert d. induction roles as [|r0 roles IH]; intros d Hr Hd; simpl; [exact Hd|].
  simpl in Hr. apply andb_prop in Hr. destruct Hr as [Hr0 Hr].
  apply IH; [exact Hr|]. destruct (Dict.mem d r0); [exact Hd|].
  now apply data_encodable_set; auto.
Qed.

Lemma has_text_app (l : list criterion) (uuid txt : string) :
  txt <> EmptyString ->
  has_text (l ++ [asdict (mkCriteria (JStr uuid) (JStr txt) (JBool true))]) = true.
Proof.
  intros Hc. unfold has_text. rewrite existsb_app. cbn.
  apply String.eqb_neq in Hc. rewrite Hc. cbn. apply orb_true_r.
Qed.

(** One test-and-append of a seeding without [overwrite]. *)
Lemma seed_one_self (role txt uuid : string) (m : RolesManager) :
  Dict.mem (_data m) role = true -> txt <> EmptyString ->
  exists m',
    seed_one false role txt uuid m = (Ok tt, m') /\
    file m' = file m /\
    seeded m' role /\
    (seeded m role -> m' = m) /\
    (forall r, Dict.mem (_data m) r = true -> Dict.mem (_data m') r = true) /\
    (forall r, r <> role -> Dict.get (_data m') r = Dict.get (_data m) r) /\
    (data_encodable (_data m) = true -> encodable uuid = true -> encodable txt = true ->
     data_encodable (_data m') = true).
Proof.
  intros Hm Htxt. destruct (dict_mem_get _ _ Hm) as (l & Hl).
  unfold seed_one, bind, gets, ret, get_role, set_role, modify. rewrite Hl.
  destruct (has_text l) eqn:Ht.
  - exists m. repeat split; auto. exists l. auto.
  - rewrite Hl. eexists. split; [reflexivity|]. cbn [_data file].
    split; [reflexivity|]. split.
    { unfold seeded. cbn [_data]. eexists. rewrite dict_get_set_same.
      split; [reflexivity|]. now apply has_text_app. }
    split.
    { intros (l' & Hl' & Ht'). congruence. }
    split.
    { intros r Hr. now apply dict_mem_set. }
    split.
    { intros r Hne. now apply dict_get_set_other. }
    intros Hd Hu He. apply data_encodable_set; auto.
    rewrite forallb_app, (data_encodable_get _ _ _ Hd Hl). cbn [forallb].
    now rewrite asdict_encodable.
Qed.

Lemma seeded_kept (m m' : RolesManager) (role r : string) :
  r <> role -> Dict.get (_data m') r = Dict.get (_data m) r ->
  seeded m r -> seeded m' r.
Proof. intros _ E (l & Hl & Ht). exists l. split; [congruence|exact Ht]. Qed.

(** The four tests-and-appends of a seeding without [overwrite], on a
    manager that has the four default roles. *)
Lemma seed_all_self (w1 w2 w3 w4 : string) (m0 : RolesManager) :
  (forall r, In r DEFAULT_ROLES -> Dict.mem (_data m0) r = true) ->
  exists md,
    (seed_one false "donor" donor_text w1 ;;;
     seed_one false "recipient" recipient_text w2 ;;;
     seed_one false "volunteer" volunteer_text w3 ;;;
     seed_one false "admin" admin_text w4)%py m0 = (Ok tt, md) /\
    file md = file m0 /\
    (forall r, In r DEFAULT_ROLES -> seeded md r) /\
    ((forall r, In r DEFAULT_ROLES -> seeded m0 r) -> md = m0) /\
    (data_encodable (_data m0) = true ->
     encodable w1 = true -> encodable w2 = true -> encodable w3 = true ->
     encodable w4 = true -> data_encodable (_data md) = true).
Proof.
  intros Hall. unfold bind.
  destruct (seed_one_self "donor" donor_text w1 m0)
    as (ma & -> & Hfa & Hsa & Hida & Hma & Hoa & Hea);
    [apply Hall; simpl; auto|discriminate|].
  destruct (seed_one_self "recipient" recipient_text w2 ma)
    as (mb & -> & Hfb & Hsb & Hidb & Hmb & Hob & Heb);
    [apply Hma, Hall; simpl; auto|discriminate|].
  destruct (seed_one_self "volunteer" volunteer_text w3 mb)
    as (mc & -> & Hfc & Hsc & Hidc & Hmc & Hoc & Hec);
    [apply Hmb, Hma, Hall; simpl; auto|discriminate|].
  destruct (seed_one_self "admin" admin_text w4 mc)
    as (md & -> & Hfd & Hsd & Hidd & Hmd & Hod & Hed);
    [apply Hmc, Hmb, Hma, Hall; simpl; auto|discriminate|].
  exists md. split; [reflexivity|]. split; [congruence|]. split; [|split].
  - intros r Hr. simpl in Hr.
    destruct Hr as [<-|[<-|[<-|[<-|[]]]]].
    + apply (seeded_kept mc md "admin"); [discriminate|apply Hod; discriminate|].
      apply (seeded_kept mb mc "volunteer"); [discriminate|apply Hoc; discriminate|].
      apply (seeded_kept ma mb "recipient"); [discriminate|apply Hob; discriminate|].
      exact Hsa.
    + apply (seeded_kept mc md "admin"); [discriminate|apply Hod; discriminate|].
      apply (seeded_kept mb mc "volunteer"); [discriminate|apply Hoc; discriminate|].
      exact Hsb.
    + apply (seeded_kept mc md "admin"); [discriminate|apply Hod; discriminate|].
      exact Hsc.
    + exact Hsd.
  - intros Hseeded.
    assert (ma = m0) by (apply Hida, Hseeded; simpl; auto). subst ma.
    assert (mb = m0) by (apply Hidb, Hseeded; simpl; auto). subst mb.
    assert (mc = m0) by (apply Hidc, Hseeded; simpl; auto). subst mc.
    apply Hidd, Hseeded; simpl; auto.
  - intros Hd H1 H2 H3 H4.
    auto 10.
Qed.

Lemma seed_defaults_false_eq (w1 w2 w3 w4 : string) (m : RolesManager) :
  seed_defaults false w1 w2 w3 w4 m =
  match (seed_one false "donor" donor_text w1 ;;;
         seed_one false "recipient" recipient_text w2 ;;;
         seed_one false "volunteer" volunteer_text w3 ;;;
         seed_one false "admin" admin_text w4)%py
          (mkManager (set_defaults (_data m)) (file m)) with
  | (Ok _, md) =>
      match _write (_data md) md with
      | (Ok _, m') => (Ok true, m')
      | (Raise e, m') => (Raise e, m')
      end
  | (Raise e, md) => (Raise e, md)
  end.
Proof.
  unfold seed_defaults, bind, modify, gets, ret. cbn [_data file].
  destruct (seed_one false "donor" donor_text w1 _) as [[[]|e] ma]; [|reflexivity].
  destruct (seed_one false "recipient" recipient_text w2 ma) as [[[]|e] mb]; [|reflexivity].
  destruct (seed_one false "volunteer" volunteer_text w3 mb) as [[[]|e] mc]; [|reflexivity].
  destruct (seed_one false "admin" admin_text w4 mc) as [[[]|e] md]; [|reflexivity].
  now destruct (_write (_data md) md) as [[[]|e] m'].
Qed.

(** X21: seeding without [overwrite].  [seed_defaults()] gives every
    default role a criterion whose text is true, in memory, and then
    writes: either it returns [True] and the file holds what is in memory,
    or the write raises [UnicodeEncodeError] and the file holds the
    beginning of a document.  It returns whenever every str in [_data] and
    the four ids have a UTF-8 encoding.  After a seeding that returned,
    seeding once more, with whatever ids, returns [True] and changes
    nothing at all. *)
Theorem seed_defaults_idempotent (u1 u2 u3 u4 : string) (m : RolesManager) :
  exists m1,
    (seed_defaults false u1 u2 u3 u4 m = (Ok true, m1) /\ synced m1 \/
     seed_defaults false u1 u2 u3 u4 m = (Raise UnicodeEncodeError, m1) /\
     file m1 = Partial) /\
    (forall r, In r DEFAULT_ROLES ->
       exists l, Dict.get (_data m1) r = Some l /\ has_text l = true) /\
    (data_encodable (_data m) = true ->
     encodable u1 = true -> encodable u2 = true -> encodable u3 = true ->
     encodable u4 = true ->
     seed_defaults false u1 u2 u3 u4 m = (Ok true, m1)) /\
    (seed_defaults false u1 u2 u3 u4 m = (Ok true, m1) ->
     forall v1 v2 v3 v4, seed_defaults false v1 v2 v3 v4 m1 = (Ok true, m1)).
Proof.
  set (m0 := mkManager (set_defaults (_data m)) (file m)).
  assert (Hall0 : forall r, In r DEFAULT_ROLES -> Dict.mem (_data m0) r = true).
  { intros r Hr. unfold m0, set_defaults. cbn [_data]. apply setdefault_fold_mem. now left. }
  destruct (seed_all_self u1 u2 u3 u4 m0 Hall0) as (md & Hrun & Hf & Hseeded & _ & Henc).
  assert (Hstep : seed_defaults false u1 u2 u3 u4 m =
                  match _write (_data md) md with
                  | (Ok _, m') => (Ok true, m')
                  | (Raise e, m') => (Raise e, m')
                  end).
  { rewrite seed_defaults_false_eq. fold m0. now rewrite Hrun. }
  exists (snd (_write (_data md) md)).
  assert (Hdata : _data (snd (_write (_data md) md)) = _data md).
  { unfold _write. now destruct (data_encodable (_data md)). }
  split; [|split; [|split]].
  - rewrite Hstep. unfold _write.
    destruct (data_encodable (_data md)); [left|right]; split; reflexivity.
  - intros r Hr. rewrite Hdata. apply (Hseeded r Hr).
  - intros Hd H1 H2 H3 H4. rewrite Hstep. unfold _write.
    rewrite Henc; auto.
    unfold m0, set_defaults. cbn [_data]. now apply setdefault_fold_encodable.
  - rewrite Hstep. unfold _write.
    destruct (data_encodable (_data md)) eqn:Hd; [|discriminate].
    intros _ v1 v2 v3 v4. cbn [snd].
    set (m1 := mkManager (_data md) (Holds (_data md))).
    assert (Hseeded1 : forall r, In r DEFAULT_ROLES -> seeded m1 r) by exact Hseeded.
    assert (Hall1 : forall r, In r DEFAULT_ROLES -> Dict.mem (_data m1) r = true).
    { intros r Hr. destruct (Hseeded1 r Hr) as (l & Hl & _). now apply dict_get_mem with l. }
    assert (Hm1 : mkManager (set_defaults (_data m1)) (file m1) = m1).
    { unfold set_defaults. rewrite (setdefault_fold_id DEFAULT_ROLES) by exact Hall1.
      reflexivity. }
    rewrite seed_defaults_false_eq, Hm1.
    destruct (seed_all_self v1 v2 v3 v4 m1 Hall1) as (md' & -> & _ & _ & Hsame & _).
    rewrite (Hsame Hseeded1). unfold _write, m1. cbn [_data]. now rewrite Hd.
Qed.

End SeedFacts.

Section SeedOverwrite.
Import user_roles_criteria.

Lemma seed_one_fresh (role txt uuid : string) (m : RolesManager) (l : list criterion) :
  In role DEFAULT_ROLES ->
  Dict.get (_data m) role = Some l ->
  seed_one true role txt uuid m =
    (Ok tt,
     mkManager
       (Dict.set (_data m) role (l ++ [asdict (mkCriteria (JStr uuid) (JStr txt) (JBool true))]))
       (file m)).
Proof.
  intros Hin Hl. unfold seed_one, bind, gets, get_role, set_role, modify.
  assert (Hd : Dict.get _default_data role = Some []).
  { simpl in Hin. destruct Hin as [<-|[<-|[<-|[<-|[]]]]]; reflexivity. }
  rewrite Hd. cbn [has_text existsb]. now rewrite Hl.
Qed.

(** X22: seeding with [overwrite=True] overwrites nothing.  When [_data]
    has the four default roles, [seed_defaults(overwrite=True)] keeps, in
    memory, every role and every criterion there is and appends one more
    default criterion to each default role, whether or not the role
    already had one; then it writes, and either returns [True] with the
    file holding the result, or raises the [UnicodeEncodeError] of the
    write with the file holding the beginning of a document; it returns
    whenever every str in [_data] and the four ids have a UTF-8 encoding.
    When [_data] lacks the donor role it raises [KeyError] and changes and
    writes nothing. *)
Theorem seed_defaults_overwrite_appends (u1 u2 u3 u4 : string) (m : RolesManager) :
  (Dict.mem (_data m) "donor" = false ->
   seed_defaults true u1 u2 u3 u4 m = (Raise (KeyError_Key "donor"), m)) /\
  ((forall r, In r DEFAULT_ROLES -> Dict.mem (_data m) r = true) ->
   exists m',
     (seed_defaults true u1 u2 u3 u4 m = (Ok true, m') /\ synced m' \/
      seed_defaults true u1 u2 u3 u4 m = (Raise UnicodeEncodeError, m') /\
      file m' = Partial) /\
     (data_encodable (_data m) = true ->
      encodable u1 = true -> encodable u2 = true -> encodable u3 = true ->
      encodable u4 = true ->
      seed_defaults true u1 u2 u3 u4 m = (Ok true, m')) /\
     list_roles m' = list_roles m /\
     criteria_of m' "donor" =
       criteria_of m "donor" ++ [asdict (mkCriteria (JStr u1) (JStr donor_text) (JBool true))] /\
     criteria_of m' "recipient" =
       criteria_of m "recipient" ++
       [asdict (mkCriteria (JStr u2) (JStr recipient_text) (JBool true))] /\
     criteria_of m' "volunteer" =
       criteria_of m "volunteer" ++
       [asdict (mkCriteria (JStr u3) (JStr volunteer_text) (JBool true))] /\
     criteria_of m' "admin" =
       criteria_of m "admin" ++ [asdict (mkCriteria (JStr u4) (JStr admin_text) (JBool true))] /\
     forall r, ~ In r DEFAULT_ROLES -> criteria_of m' r = criteria_of m r).
Proof.
  split.
  - intros Hm. unfold seed_defaults, seed_one, bind, gets, ret, get_role. cbn.
    unfold Dict.mem in Hm. destruct (Dict.get (_data m) "donor"); [discriminate|reflexivity].
  - intros Hall.
    destruct (dict_mem_get _ _ (Hall "donor" ltac:(simpl; auto))) as (la & Hla).
    destruct (dict_mem_get _ _ (Hall "recipient" ltac:(simpl; auto))) as (lb & Hlb).
    destruct (dict_mem_get _ _ (Hall "volunteer" ltac:(simpl; auto))) as (lc & Hlc).
    destruct (dict_mem_get _ _ (Hall "admin" ltac:(simpl; auto))) as (ld & Hld).
    set (ca := asdict (mkCriteria (JStr u1) (JStr donor_text) (JBool true))).
    set (cb := asdict (mkCriteria (JStr u2) (JStr recipient_text) (JBool true))).
    set (cc := asdict (mkCriteria (JStr u3) (JStr volunteer_text) (JBool true))).
    set (cd := asdict (mkCriteria (JStr u4) (JStr admin_text) (JBool true))).
    set (data' := Dict.set (Dict.set (Dict.set (Dict.set (_data m) "donor" (la ++ [ca]))
                                        "recipient" (lb ++ [cb]))
                              "volunteer" (lc ++ [cc]))
                    "admin" (ld ++ [cd])).
    assert (Hstep : seed_defaults true u1 u2 u3 u4 m =
                    match _write data' (mkManager data' (file m)) with
                    | (Ok _, m') => (Ok true, m')
                    | (Raise e, m') => (Raise e, m')
                    end).
    { unfold seed_defaults, bind at 1 2 3 4 5, ret at 1.
      rewrite (seed_one_fresh "donor" donor_text u1 m la) by (simpl; auto).
      rewrite (seed_one_fresh "recipient" recipient_text u2 _ lb)
        by (simpl; auto; rewrite dict_get_set_other by discriminate; exact Hlb).
      rewrite (seed_one_fresh "volunteer" volunteer_text u3 _ lc)
        by (simpl; auto; rewrite !dict_get_set_other by discriminate; exact Hlc).
      rewrite (seed_one_fresh "admin" admin_text u4 _ ld)
        by (simpl; auto; rewrite !dict_get_set_other by discriminate; exact Hld).
      unfold bind, gets, ret. cbn [_data file]. fold ca cb cc cd. fold data'.
      now destruct (_write data' _) as [[[]|e] m']. }
    exists (snd (_write data' (mkManager data' (file m)))).
    assert (Hdata : _data (snd (_write data' (mkManager data' (file m)))) = data').
    { unfold _write. now destruct (data_encodable data'). }
    split; [|split].
    { rewrite Hstep. unfold _write.
      destruct (data_encodable data'); [left|right]; split; reflexivity. }
    { intros Hd H1 H2 H3 H4. rewrite Hstep. unfold _write.
      assert (He : data_encodable data' = true).
      { assert (Hrow : forall l u t, forallb criterion_encodable l = true ->
                                     encodable u = true -> encodable t = true ->
                  forallb criterion_encodable
                    (l ++ [asdict (mkCriteria (JStr u) (JStr t) (JBool true))]) = true).
        { intros l u t Hl Hu Ht. rewrite forallb_app, Hl. cbn [forallb].
          now rewrite asdict_encodable. }
        unfold data', ca, cb, cc, cd.
        repeat (apply data_encodable_set; [|left; reflexivity|]); try exact Hd;
          apply Hrow; auto; try reflexivity;
          eapply data_encodable_get; eauto. }
      now rewrite He. }
    unfold list_roles, criteria_of. rewrite Hdata. unfold data'.
    rewrite Hla, Hlb, Hlc, Hld.
    split.
    { rewrite !dict_keys_set; auto;
        repeat apply dict_mem_set; eapply dict_get_mem; eassumption. }
    split; [now rewrite !dict_get_set_other by discriminate; rewrite dict_get_set_same|].
    split; [now rewrite !dict_get_set_other by discriminate; rewrite dict_get_set_same|].
    split; [now rewrite !dict_get_set_other by discriminate; rewrite dict_get_set_same|].
    split; [now rewrite dict_get_set_same|].
    intros r Hr. simpl in Hr.
    rewrite !dict_get_set_other; [reflexivity| | | |]; intros ->; apply Hr; auto.
Qed.

End SeedOverwrite.

(** ** Counting audit events ([audit.build_report_summary]) *)

Section AuditSummary.
Import audit.

Lemma count_events_get (cursor : list AuditEvent) (summary : Dict.t nat) (a : string) :
  Dict.get (fold_left count_event cursor summary) a =
  match Dict.get summary a with
  | Some k => Some (k + count_occ string_dec (map counted_as cursor) a)
  | None =>
      if Nat.eqb (count_occ string_dec (map counted_as cursor) a) 0 then None
      else Some (count_occ string_dec (map counted_as cursor) a)
  end.
Proof.
  revert summary. induction cursor as [|ev cursor IH]; intros summary.
  - simpl. destruct (Dict.get summary a); [f_equal; lia|reflexivity].
  - cbn [fold_left map]. rewrite IH. unfold count_event. fold (counted_as ev).
    cbn [count_occ]. destruct (string_dec (counted_as ev) a) as [->|Hne].
    + rewrite dict_get_set_same. destruct (Dict.get summary a); simpl; f_equal; lia.
    + rewrite dict_get_set_other by congruence. reflexivity.
Qed.

Lemma count_event_sum (summary : Dict.t nat) (ev : AuditEvent) :
  list_sum (Dict.values (count_event summary ev)) = list_sum (Dict.values summary) + 1.
Proof.
  unfold count_event. fold (counted_as ev). generalize (counted_as ev) as k. intros k.
  unfold Dict.values. induction summary as [|[k0 v0] summary IH]; simpl; [reflexivity|].
  destruct (String.eqb k k0); simpl; [lia|]. rewrite IH. lia.
Qed.

(** X23: the daily summary counts every event once.  For every action,
    the summary holds the number of yielded events counted under it (an
    event without an action counts as "unknown"), and holds no entry when
    there is none; the counts add up to the number of events. *)
Theorem build_report_summary_counts (cursor : list AuditEvent) :
  (forall a,
     Dict.get (build_report_summary cursor) a =
     if Nat.eqb (count_occ string_dec (map counted_as cursor) a) 0 then None
     else Some (count_occ string_dec (map counted_as cursor) a)) /\
  list_sum (Dict.values (build_report_summary cursor)) = length cursor.
Proof.
  split.
  - intros a. unfold build_report_summary. now rewrite count_events_get.
  - unfold build_report_summary.
    assert (Hgen : forall summary,
               list_sum (Dict.values (fold_left count_event cursor summary)) =
               list_sum (Dict.values summary) + length cursor).
    { induction cursor as [|ev cursor IH]; intros summary; simpl; [lia|].
      rewrite IH, count_event_sum. lia. }
    now rewrite Hgen.
Qed.

End AuditSummary.

(** ** The further properties on the sample repositories *)

Lemma match_one_outcomes_witness :
  exists rkey chosen,
    In (rkey, chosen) (models_repo.recipients (api_app.repo g_known)) /\
    fst (api_app.match_one 10%Z ("d1", match_donation) [] g_known) = Ok [("d1", rkey)] /\
    (exists sd,
       state_machine.get_donation
         (api_app.state_machine_repo
            (snd (api_app.match_one 10%Z ("d1", match_donation) [] g_known))) "d1" = Some sd /\
       state_machine.state sd = MATCHED) /\
    models_repo.get_recipient
      (api_app.repo (snd (api_app.match_one 10%Z ("d1", match_donation) [] g_known))) rkey =
      Some (models_repo.Recipient.set_capacity_kg chosen
              (f_sub (models_repo.Recipient.capacity_kg chosen) 5%Z)).
Proof.
  pose proof (match_one_outcomes 10%Z "d1" match_donation match_donation [] g_known
                (proj1 g_known_wf) (proj2 g_known_wf) eq_refl) as Hm.
  destruct (api_app.match_one 10%Z ("d1", match_donation) [] g_known)
    as [[assigned'|e] g'] eqn:E; [|discriminate E].
  destruct Hm as [[Hsame _]|(rkey & chosen & Hin & Hpair & Hsm & Hcap)].
  - exfalso. subst assigned'. discriminate E.
  - exists rkey, chosen. simpl. subst assigned'. auto.
Defined.

Lemma donation_never_returns_witness :
  state_machine.state (state_machine.set_state sm_posted MATCHED) <>
  state_machine.state sm_posted.
Proof.
  apply (donation_never_returns sm_sample [("d1", req_matched)] [("d1", req_posted)] "d1"
           sm_posted (state_machine.set_state sm_posted MATCHED)
           (state_machine.set_state sm_posted MATCHED) (proj2 g_known_wf)).
  - reflexivity.
  - reflexivity.
  - discriminate.
  - reflexivity.
Defined.

Lemma terminal_donation_frozen_witness :
  state_machine.get_donation
    (state_machine_routes.run_requests [("d2", req_posted); ("d1", req_matched)] sm_sample)
    "d2" = Some sm_delivered.
Proof.
  apply (terminal_donation_frozen sm_sample [("d2", req_posted); ("d1", req_matched)] "d2"
           sm_delivered (proj2 g_known_wf)).
  - reflexivity.
  - reflexivity.
Defined.

Lemma sm_volunteer_wf : sm_repo_wf sm_volunteer.
Proof. exact (proj2 g_known_wf). Defined.

Lemma sm_volunteer_users_valid : users_valid sm_volunteer.
Proof.
  intros k u [E|[]]. injection E as <- <-. exists VOLUNTEER. reflexivity.
Defined.

Lemma sm_volunteer_audit_consistent : audit_consistent sm_volunteer.
Proof. intros k d _. exact I. Defined.

(** Two requests of the stored volunteer: posted -> matched, and matched
    again. *)
Lemma audit_trail_replays_witness :
  audit_consistent
    (state_machine_routes.run_requests
       [("d1", state_machine_routes.mkTransitionRequest MATCHED (Some "u1") None);
        ("d1", state_machine_routes.mkTransitionRequest MATCHED (Some "u1") (Some "again"))]
       sm_volunteer).
Proof.
  apply (audit_trail_replays sm_volunteer
           [("d1", state_machine_routes.mkTransitionRequest MATCHED (Some "u1") None);
            ("d1", state_machine_routes.mkTransitionRequest MATCHED (Some "u1") (Some "again"))]
           sm_volunteer_wf sm_volunteer_users_valid sm_volunteer_audit_consistent).
Defined.

Lemma sm_users_wf : sm_repo_wf sm_users.
Proof. exact (proj2 g_known_wf). Defined.

(** The request posted -> matched of the user stored as "driver": the
    answer is 400, and the donation is stored as matched. *)
Lemma api_transition_answers_witness :
  let req := state_machine_routes.mkTransitionRequest MATCHED (Some "u2") None in
  let to := state_machine_routes.new_state req in
  let actor := state_machine_routes.actor_user_id req in
  match state_machine_routes.api_transition "d1" req sm_users with
  | (Returned d', r') => state_machine.get_donation r' "d1" = Some d' /\
                         state_machine.state d' = to
  | (HTTPException code detail, r') =>
      code = 400 /\
      (r' = sm_users /\
       (detail = str_of ValueError_DonationNotFound /\
        state_machine.get_donation sm_users "d1" = None \/
        (exists d, state_machine.get_donation sm_users "d1" = Some d /\
                   to <> state_machine.state d /\
                   ~ In to (state_machine.ALLOWED_TRANSITIONS (state_machine.state d)) /\
                   detail = str_of (ValueError_InvalidTransition (state_machine.state d) to)) \/
        (exists d value, state_machine.get_donation sm_users "d1" = Some d /\
                         to = state_machine.state d /\
                         state_machine.resolve_role sm_users actor = Some value /\
                         Role_of_value value = None /\
                         detail = str_of (ValidationError_actor_role value))) \/
       (exists d value,
          state_machine.get_donation sm_users "d1" = Some d /\
          to <> state_machine.state d /\
          In to (state_machine.ALLOWED_TRANSITIONS (state_machine.state d)) /\
          state_machine.resolve_role sm_users actor = Some value /\
          Role_of_value value = None /\
          detail = str_of (ValidationError_actor_role value) /\
          state_machine.get_donation r' "d1" = Some (state_machine.set_state d to) /\
          state_machine.get_audit_logs_for_donation r' "d1" =
            state_machine.get_audit_logs_for_donation sm_users "d1"))
  | (Unhandled _, _) => False
  end.
Proof.
  exact (api_transition_answers "d1"
           (state_machine_routes.mkTransitionRequest MATCHED (Some "u2") None)
           sm_users sm_users_wf).
Defined.

Lemma Z_lt_asym : forall a b : Z, f_lt a b = true -> f_lt b a = false.
Proof. simpl. intros a b Hab. apply Z.ltb_lt in Hab. apply Z.ltb_ge. lia. Defined.

Lemma Z_lt_negtrans :
  forall a b c : Z, f_lt a b = false -> f_lt b c = false -> f_lt a c = false.
Proof.
  simpl. intros a b c Hab Hbc. apply Z.ltb_ge in Hab, Hbc. apply Z.ltb_ge. lia.
Defined.

(** Of the two recipients, the second listed is the closer one and is
    chosen. *)
Lemma matching_choice_is_nearest_witness :
  In ("r1", match_recipient) [("r0", far_recipient); ("r1", match_recipient)] /\
  eligible 5%Z (PyNum 14600%Z) (PyNum 121000%Z) 10%Z match_recipient 0%Z /\
  (forall k' x' dist',
     In (k', x') [("r0", far_recipient); ("r1", match_recipient)] ->
     eligible 5%Z (PyNum 14600%Z) (PyNum 121000%Z) 10%Z x' dist' ->
     f_lt dist' 0%Z = false).
Proof.
  destruct (@matching_choice_is_nearest Z Z_floats Z_lt_asym Z_lt_negtrans
              5%Z (PyNum 14600%Z) (PyNum 121000%Z) 10%Z
              [("r0", far_recipient); ("r1", match_recipient)]
              [(5%Z, ("r0", far_recipient)); (0%Z, ("r1", match_recipient))]
              0%Z "r1" match_recipient [(5%Z, ("r0", far_recipient))] eq_refl eq_refl)
    as (Hin & Hel & Hmin & _).
  split; [exact Hin|]. split; [exact Hel|exact Hmin].
Defined.

Lemma plan_route_local_nearest_first_witness :
  exists v location start_lat start_lon,
    models_repo.get_user route_repo "v1" = Some v /\
    truthy_dict (models_repo.User.location v) = Some location /\
    coordinate location 1 = Ok start_lat /\
    coordinate location 0 = Ok start_lon /\
    nearest_first (start_lat, start_lon) [(14601, 121001)%Z; (14605, 121005)%Z].
Proof.
  apply (@plan_route_local_nearest_first Z Z_floats Z_lt_asym Z_lt_negtrans
           route_repo "v1" ["db"; "da"]).
  reflexivity.
Defined.

Lemma greedy_match_local_frame_witness :
  matching_frame g_known (snd (api_app.greedy_match_local 10%Z g_known)).
Proof.
  apply (greedy_match_local_frame 10%Z g_known (proj1 g_known_wf) (proj2 g_known_wf)).
Defined.

Lemma greedy_match_local_assignments_witness :
  Subseq (map fst [("d1", "r1")])
    (map fst (models_repo.list_open_donations (api_app.repo g_known))) /\
  (forall p, In p [("d1", "r1")] ->
     In (snd p) (Dict.keys (models_repo.recipients (api_app.repo g_known)))) /\
  length [("d1", "r1")] <= length (models_repo.list_open_donations (api_app.repo g_known)).
Proof.
  apply (greedy_match_local_assignments 10%Z g_known
           (snd (api_app.greedy_match_local 10%Z g_known)) [("d1", "r1")]
           (proj1 g_known_wf) (proj2 g_known_wf)).
  reflexivity.
Defined.

Lemma g_route_matched_wf :
  repo_wf (api_app.repo g_route_matched) /\
  sm_repo_wf (api_app.state_machine_repo g_route_matched).
Proof.
  split; [exact (proj1 g_route_wf)|].
  intros k d [E|[E|[]]]; now injection E as <- <-.
Defined.

Lemma plan_pickup_schedules_all_witness :
  exists g',
    api_app.plan_pickup "v1" ["da"; "db"] "p1" g_route_matched =
      (Ok ("p1", [(14601, 121001)%Z; (14605, 121005)%Z]), g') /\
    Dict.get (models_repo.pickups (api_app.repo g')) "p1" = Some route_pickup /\
    forall x, In x ["da"; "db"] -> scheduled_for "p1" x g'.
Proof.
  apply (plan_pickup_schedules_all "v1" "p1" ["da"; "db"]
           [(14601, 121001)%Z; (14605, 121005)%Z] g_route_matched
           (proj1 g_route_matched_wf) (proj2 g_route_matched_wf)).
  - intros value Hv. discriminate Hv.
  - reflexivity.
  - intros x [<-|[<-|[]]]; eexists; (split; [reflexivity|now left]).
Defined.

(** ** The fallback state machine of api_app *)

Section FallbackFacts.
Import models_repo api_app.
Context {F : Type} `{FloatOps F}.

(** X24: the [transition_state] api_app defines for itself when
    [state_machine] cannot be imported.  It works on api_app's own
    repository and leaves the state machine's alone.  For a donation stored
    under its id: a transition in the table puts the donation in the new
    state and appends one entry to api_app's audit log; a transition to the
    state the donation is in changes no donation and appends one entry
    whose note is the note supplied, with no default put in its place; any
    other transition raises the invalid-transition error and changes
    nothing.  For an unknown id it raises the not-found error. *)
Theorem fallback_transition_state_cases (g : Globals F) (did : string)
  (to : DonationState) (actor notes : option string) :
  state_machine_repo (snd (fallback_transition_state did to actor notes g)) =
    state_machine_repo g /\
  (get_donation (repo g) did = None ->
   fallback_transition_state did to actor notes g =
     (Raise ValueError_DonationNotFound, g)) /\
  (forall d,
     get_donation (repo g) did = Some d -> Donation.id d = did ->
     (In to (ALLOWED (Donation.state d)) ->
      fst (fallback_transition_state did to actor notes g) =
        Ok (Donation.set_state d to) /\
      get_donation (repo (snd (fallback_transition_state did to actor notes g))) did =
        Some (Donation.set_state d to) /\
      get_audit_logs_for_donation
        (repo (snd (fallback_transition_state did to actor notes g))) did =
        get_audit_logs_for_donation (repo g) did ++
        [AuditLogEntry.mk did actor (resolve_role (repo g) actor)
           (Some (Donation.state d)) to notes]) /\
     (to = Donation.state d ->
      fst (fallback_transition_state did to actor notes g) = Ok d /\
      donations (repo (snd (fallback_transition_state did to actor notes g))) =
        donations (repo g) /\
      get_audit_logs_for_donation
        (repo (snd (fallback_transition_state did to actor notes g))) did =
        get_audit_logs_for_donation (repo g) did ++
        [AuditLogEntry.mk did actor (resolve_role (repo g) actor)
           (Some (Donation.state d)) to notes]) /\
     (to <> Donation.state d -> ~ In to (ALLOWED (Donation.state d)) ->
      fallback_transition_state did to actor notes g =
        (Raise (ValueError_InvalidTransition (Donation.state d) to), g))).
Proof.
  unfold fallback_transition_state, on_repo, bind, gets, raise, ret, assign_donation,
    modify.
  split.
  { destruct (get_donation (repo g) did) as [d|]; [|reflexivity].
    destruct (DonationState_eqb to (Donation.state d)); [reflexivity|].
    destruct (negb (state_machine.state_in to (ALLOWED (Donation.state d))));
      [reflexivity|].
    simpl. unfold update_donation. simpl. now destruct (negb (Dict.mem _ _)). }
  split.
  { intros ->. now destruct g. }
  intros d Hd Hid. rewrite Hd. split; [|split].
  - intros Hin.
    assert (Hne : DonationState_eqb to (Donation.state d) = false).
    { apply DonationState_eqb_neq. intros ->.
      destruct (Donation.state d); simpl in Hin; intuition discriminate. }
    rewrite Hne. apply state_in_In in Hin. rewrite Hin. simpl.
    unfold update_donation. simpl. rewrite Hid.
    unfold Dict.mem. rewrite dict_get_set_same. simpl. rewrite dict_set_set.
    split; [reflexivity|]. split.
    + unfold get_donation. simpl. apply dict_get_set_same.
    + unfold get_audit_logs_for_donation. simpl. now rewrite dict_get_set_same.
  - intros ->.
    assert (E : DonationState_eqb (Donation.state d) (Donation.state d) = true)
      by now apply DonationState_eqb_eq.
    rewrite E. simpl. rewrite Hid. split; [reflexivity|]. split; [reflexivity|].
    unfold get_audit_logs_for_donation. simpl. now rewrite dict_get_set_same.
  - intros Hne Hnin. apply DonationState_eqb_neq in Hne. rewrite Hne.
    destruct (state_machine.state_in to (ALLOWED (Donation.state d))) eqn:Hin.
    + apply state_in_In in Hin. contradiction.
    + simpl. now destruct g.
Qed.

End FallbackFacts.
